(** * kqlfilter: a shallow embedding of the flat-filter projector, the Spanner
    SQL lowerer, the Elasticsearch lowerer and the constrained-equality probe.

    Go strings are byte strings ([string]); Go slices are lists, a nil slice
    and an empty slice both being [[]]; the parameter map and the field
    counts are stdpp [gmap]s, the config map is the list of its entries in
    the order of iteration; a Go [error] is its message.  A function that
    returns [(T, error)] returns a [Result T]; a run-time panic (slice
    bounds, nil dereference) is a third outcome.  The AST is reached through
    pointers: the one function that writes to it returns the tree it leaves. *)

From Stdlib Require Import ZArith Ascii String List Bool Lia.
From stdpp Require Import base option list strings gmap pretty.

Local Open Scope string_scope.
Local Open Scope list_scope.

(** ** Outcomes *)

Inductive Result (A : Type) : Type :=
  | Ok (a : A)
  | Err (msg : string)
  | Panic (msg : string).
Arguments Ok {A} a.
Arguments Err {A} msg.
Arguments Panic {A} msg.

Global Instance Result_ret : MRet Result := fun A a => Ok a.
Global Instance Result_bind : MBind Result := fun A B f m =>
  match m with
  | Ok a => f a
  | Err e => Err e
  | Panic p => Panic p
  end.

Definition isOk {A} (r : Result A) : bool :=
  match r with Ok _ => true | _ => false end.

(** ** The pieces of the Go runtime and standard library the code calls *)

(** [strings.HasPrefix], [strings.HasSuffix], written as the library has them. *)
Definition HasPrefix (s pre : string) : bool :=
  (String.length pre <=? String.length s)%nat
  && String.eqb (substring 0 (String.length pre) s) pre.

Definition HasSuffix (s suf : string) : bool :=
  (String.length suf <=? String.length s)%nat
  && String.eqb (substring (String.length s - String.length suf) (String.length suf) s) suf.

(** [strings.ReplaceAll s old new] for a pattern [old] of one byte, the only
    way the code calls it. *)
Fixpoint ReplaceAll (s : string) (old : ascii) (new : string) : string :=
  match s with
  | EmptyString => EmptyString
  | String c rest =>
      if Ascii.eqb c old then new +:+ ReplaceAll rest old new
      else String c (ReplaceAll rest old new)
  end.

(** The slice expression [s[lo:hi]]; out-of-range bounds panic. *)
Definition sliceString (s : string) (lo hi : Z) : Result string :=
  if ((0 <=? lo) && (lo <=? hi) && (hi <=? Z.of_nat (String.length s)))%Z
  then Ok (substring (Z.to_nat lo) (Z.to_nat (hi - lo)) s)
  else Panic "slice bounds out of range".

(** [slices.Contains] on strings. *)
Definition Contains (l : list string) (x : string) : bool :=
  existsb (String.eqb x) l.
Arguments Contains : simpl never.

(** What is left abstract: the float64 and time.Time carriers with Go's [==]
    on them (on floats a partial equivalence only: NaN differs from itself),
    and the parsers of strconv and time. *)
Class GoRuntime := {
  Float64 : Type;
  Time : Type;
  float_eqb : Float64 -> Float64 -> bool;
  time_eqb : Time -> Time -> bool;
  float_eqb_sym : forall x y, float_eqb x y = float_eqb y x;
  float_eqb_trans : forall x y z,
    float_eqb x y = true -> float_eqb y z = true -> float_eqb x z = true;
  time_eqb_sym : forall x y, time_eqb x y = time_eqb y x;
  time_eqb_trans : forall x y z,
    time_eqb x y = true -> time_eqb y z = true -> time_eqb x z = true;
  (* strconv.ParseInt(s, 10, 64) *)
  ParseInt : string -> Result Z;
  (* strconv.ParseBool(s) *)
  ParseBool : string -> Result bool;
  (* strconv.ParseFloat(s, 64) *)
  ParseFloat : string -> Result Float64;
  (* time.Parse(time.RFC3339, s) *)
  ParseTime : string -> Result Time;
}.

(** ** AST *)

(** Modelled from the spec: the range operators and their [String] method,
    declared with the AST nodes outside src/.  Section 3 lists the four
    operators; the projector compares the symbol with ["???"], the method's
    answer for a value that is none of them. *)
Inductive RangeOperator : Type :=
  | RangeOperatorLt
  | RangeOperatorLte
  | RangeOperatorGt
  | RangeOperatorGte.

Definition RangeOperator_String (op : RangeOperator) : string :=
  match op with
  | RangeOperatorLt => "<"
  | RangeOperatorLte => "<="
  | RangeOperatorGt => ">"
  | RangeOperatorGte => ">="
  end.

(** Modelled from the spec: the node variants of section 3 (the declarations
    are outside src/; the field names are those the code under src/ reads).
    [NilNode] is the nil interface value. *)
#[warnings="-register-all"]
Inductive Node : Type :=
  | NilNode
  | LiteralNode (Value : string)
  | IsNode (Identifier : string) (Value : Node)
  | RangeNode (Identifier : string) (Operator : RangeOperator) (Value : Node)
  | AndNode (Nodes : list Node)
  | OrNode (Nodes : list Node)
  | NotNode (Expr : Node)
  | NestedNode (Expr : Node).

(** The [%T] verb on a node. *)
Definition nodeTypeName (n : Node) : string :=
  match n with
  | NilNode => "<nil>"
  | LiteralNode _ => "*kqlfilter.LiteralNode"
  | IsNode _ _ => "*kqlfilter.IsNode"
  | RangeNode _ _ _ => "*kqlfilter.RangeNode"
  | AndNode _ => "*kqlfilter.AndNode"
  | OrNode _ => "*kqlfilter.OrNode"
  | NotNode _ => "*kqlfilter.NotNode"
  | NestedNode _ => "*kqlfilter.NestedNode"
  end.

(** ** hasmustequal.go *)

Definition hasMustEqualIsNode (Identifier : string) (Value : Node) (field : string)
  : list string :=
  if negb (String.eqb Identifier field) then []
  else
    match Value with
    | LiteralNode v => [v]
    | OrNode nodes =>
        fold_left (fun values node =>
                     match node with
                     | LiteralNode v => values ++ [v]
                     | _ => values
                     end) nodes []
    | _ => []
    end.

Definition hasMustEqualAndNode (Nodes : list Node) (field : string) : list string :=
  fold_left (fun values node =>
               match node with
               | IsNode id v => values ++ hasMustEqualIsNode id v field
               | _ => values
               end) Nodes [].

(** The loop of [hasMustEqualOrNode], [values] being its accumulator. *)
Fixpoint hasMustEqualOrNode_loop (Nodes : list Node) (field : string)
    (values : list string) : list string :=
  match Nodes with
  | [] => values
  | node :: rest =>
      match node with
      | IsNode id v =>
          let values_ := hasMustEqualIsNode id v field in
          if (length values_ =? 0)%nat then []
          else hasMustEqualOrNode_loop rest field (values ++ values_)
      | _ => hasMustEqualOrNode_loop rest field values
      end
  end.

Definition hasMustEqualOrNode (Nodes : list Node) (field : string) : list string :=
  hasMustEqualOrNode_loop Nodes field [].

Definition HasMustEqual (ast : Node) (field : string) : list string :=
  match ast with
  | NilNode => []
  | AndNode nodes => hasMustEqualAndNode nodes field
  | IsNode id v => hasMustEqualIsNode id v field
  | OrNode nodes => hasMustEqualOrNode nodes field
  | _ => []
  end.

(** ** filter.go *)

Record Clause : Type := mkClause {
  Field : string;
  Operator : string;
  Values : list string;
}.

Record Filter : Type := mkFilter {
  Clauses : list Clause;
}.

Definition convertLiteralNode (Value : string) : Result Filter :=
  if negb (Contains ["true"; "false"] Value)
  then Err ("only boolean literals are supported; " +:+ Value)
  else if String.eqb Value "true"
  then Ok (mkFilter [mkClause "1" "=" ["1"]])
  else Ok (mkFilter [mkClause "1" "=" ["0"]]).

(** The loop of [convertIsNode] over the children of an or-list. *)
Fixpoint convertIsNode_values (nodes : list Node) (values : list string)
  : Result (list string) :=
  match nodes with
  | [] => Ok values
  | node :: rest =>
      match node with
      | LiteralNode v => convertIsNode_values rest (values ++ [v])
      | _ => Err ("unsupported node type " +:+ nodeTypeName node)
      end
  end.

Definition convertIsNode (Identifier : string) (Value : Node) : Result Filter :=
  match Value with
  | LiteralNode v => Ok (mkFilter [mkClause Identifier "=" [v]])
  | OrNode nodes =>
      values ← convertIsNode_values nodes [];
      Ok (mkFilter [mkClause Identifier "IN" values])
  | _ => Err ("unsupported node type " +:+ nodeTypeName Value)
  end.

(** The loop of [convertNotNode] that rewrites [=] into [!=]. *)
Fixpoint convertNotNode_negate (clauses : list Clause) : Result (list Clause) :=
  match clauses with
  | [] => Ok []
  | c :: rest =>
      if String.eqb (Operator c) "="
      then rest' ← convertNotNode_negate rest;
           Ok (mkClause (Field c) "!=" (Values c) :: rest')
      else Err ("cannot support negation on operator " +:+ Operator c)
  end.

Definition convertNotNode (Expr : Node) : Result Filter :=
  match Expr with
  | IsNode id v =>
      filter ← convertIsNode id v;
      clauses ← convertNotNode_negate (Clauses filter);
      Ok (mkFilter clauses)
  | _ => Err ("unsupported node type " +:+ nodeTypeName Expr)
  end.

Definition convertRangeNode (Identifier : string) (Op : RangeOperator) (Value : Node)
  : Result Filter :=
  match Value with
  | LiteralNode value =>
      let operator := RangeOperator_String Op in
      if String.eqb operator "???"
      then Err ("unsupported operator " +:+ operator)
      else Ok (mkFilter [mkClause Identifier operator [value]])
  | _ => Err ("unsupported node type " +:+ nodeTypeName Value)
  end.

(** The type switch on a child in the first loop of [convertAndNode]; the
    default case reports the type of the and-node itself. *)
Definition convertAndNode_child (node : Node) : Result Filter :=
  match node with
  | IsNode id v => convertIsNode id v
  | NotNode e => convertNotNode e
  | RangeNode id op v => convertRangeNode id op v
  | LiteralNode v => convertLiteralNode v
  | _ => Err ("unsupported node type " +:+ "*kqlfilter.AndNode")
  end.

(** First loop of [convertAndNode]: project the children, appending. *)
Fixpoint convertAndNode_project (nodes : list Node) (clauses : list Clause)
  : Result (list Clause) :=
  match nodes with
  | [] => Ok clauses
  | node :: rest =>
      f ← convertAndNode_child node;
      convertAndNode_project rest (clauses ++ Clauses f)
  end.

(** Second loop of [convertAndNode]: count each field, at most two. *)
Fixpoint convertAndNode_count (clauses : list Clause) (fieldCounts : gmap string nat)
  : Result unit :=
  match clauses with
  | [] => Ok tt
  | clause :: rest =>
      let n := S (default 0%nat (fieldCounts !! Field clause)) in
      let fieldCounts := <[Field clause := n]> fieldCounts in
      if (2 <? n)%nat then Err "field count maximum in filter exceeded"
      else convertAndNode_count rest fieldCounts
  end.

Definition convertAndNode (Nodes : list Node) : Result Filter :=
  clauses ← convertAndNode_project Nodes [];
  _ ← convertAndNode_count clauses ∅;
  Ok (mkFilter clauses).

Definition convertToFilter (ast : Node) : Result Filter :=
  match ast with
  | NilNode => Ok (mkFilter [])
  | AndNode nodes => convertAndNode nodes
  | IsNode id v => convertIsNode id v
  | RangeNode id op v => convertRangeNode id op v
  | NotNode e => convertNotNode e
  | LiteralNode v => convertLiteralNode v
  | _ => Err ("unsupported node type " +:+ nodeTypeName ast)
  end.

(** ** filter_spanner.go *)

(** The column types.  The Go type is an int; a value outside the named
    constants takes the default branch of every switch, as
    [FilterToSpannerFieldColumnTypeUnspecified] does. *)
Inductive FilterToSpannerFieldColumnType : Type :=
  | FilterToSpannerFieldColumnTypeUnspecified
  | FilterToSpannerFieldColumnTypeString
  | FilterToSpannerFieldColumnTypeInt64
  | FilterToSpannerFieldColumnTypeFloat64
  | FilterToSpannerFieldColumnTypeBool
  | FilterToSpannerFieldColumnTypeTimestamp.

Definition FilterToSpannerFieldColumnType_String (c : FilterToSpannerFieldColumnType)
  : string :=
  match c with
  | FilterToSpannerFieldColumnTypeString => "STRING"
  | FilterToSpannerFieldColumnTypeInt64 => "INT64"
  | FilterToSpannerFieldColumnTypeFloat64 => "FLOAT64"
  | FilterToSpannerFieldColumnTypeBool => "BOOL"
  | FilterToSpannerFieldColumnTypeTimestamp => "TIMESTAMP"
  | FilterToSpannerFieldColumnTypeUnspecified => "???"
  end.

(** [uniqueSliceElements]: [seen] holds the keys put into the map; a map
    finds a key with [==], here [eqb]. *)
Fixpoint uniqueSliceElements_loop {T} (eqb : T -> T -> bool)
    (inputSlice uniqueSlice seen : list T) : list T :=
  match inputSlice with
  | [] => uniqueSlice
  | element :: rest =>
      if negb (existsb (fun k => eqb k element) seen)
      then uniqueSliceElements_loop eqb rest (uniqueSlice ++ [element]) (element :: seen)
      else uniqueSliceElements_loop eqb rest uniqueSlice seen
  end.

Definition uniqueSliceElements {T} (eqb : T -> T -> bool) (inputSlice : list T) : list T :=
  uniqueSliceElements_loop eqb inputSlice [] [].

Definition escapePrefixSuffixSpecialChars (s : string) : string :=
  let s := ReplaceAll s "\" "\\" in
  let s := ReplaceAll s "_" "\_" in
  let s := ReplaceAll s "%" "\%" in
  s.

Section Spanner.
Context `{GoRuntime}.

(** A value of type [any]: nil, the scalars and typed slices the code tells
    apart, a slice of [any], and values of any other type ([VOther] for one
    that is no slice, [VOtherSlice] for a slice), which carry their type's
    name. *)
#[warnings="-register-all"]
Inductive Value : Type :=
  | VNil
  | VString (s : string)
  | VInt64 (n : Z)
  | VFloat64 (x : Float64)
  | VBool (b : bool)
  | VTime (t : Time)
  | VStrings (l : list string)
  | VInt64s (l : list Z)
  | VFloat64s (l : list Float64)
  | VBools (l : list bool)
  | VTimes (l : list Time)
  | VAnys (l : list Value)
  | VOther (typeName : string)
  | VOtherSlice (typeName : string) (l : list Value).

(** [reflect.TypeOf(v)] printed with [%+v]. *)
Definition valueTypeName (v : Value) : string :=
  match v with
  | VNil => "<nil>"
  | VString _ => "string"
  | VInt64 _ => "int64"
  | VFloat64 _ => "float64"
  | VBool _ => "bool"
  | VTime _ => "time.Time"
  | VStrings _ => "[]string"
  | VInt64s _ => "[]int64"
  | VFloat64s _ => "[]float64"
  | VBools _ => "[]bool"
  | VTimes _ => "[]time.Time"
  | VAnys _ => "[]interface {}"
  | VOther t => t
  | VOtherSlice t _ => t
  end.

(** [reflect.TypeOf(v).Kind() == reflect.Slice]; [reflect.TypeOf(nil)] is nil
    and calling [Kind] on it panics. *)
Definition kindIsSlice (v : Value) : Result bool :=
  match v with
  | VNil => Panic "invalid memory address or nil pointer dereference"
  | VStrings _ | VInt64s _ | VFloat64s _ | VBools _ | VTimes _
  | VAnys _ | VOtherSlice _ _ => Ok true
  | _ => Ok false
  end.

(** The elements of a slice as [any] values ([reflect.ValueOf(v).Index(i).Interface()]). *)
Definition sliceElements (v : Value) : list Value :=
  match v with
  | VStrings l => map VString l
  | VInt64s l => map VInt64 l
  | VFloat64s l => map VFloat64 l
  | VBools l => map VBool l
  | VTimes l => map VTime l
  | VAnys l => l
  | VOtherSlice _ l => l
  | _ => []
  end.

Definition unwrapSlice (v : Value) : Result Value :=
  isSlice ← kindIsSlice v;
  if (isSlice : bool) then
    match sliceElements v with
    | [x] => Ok x
    | _ => Ok v
    end
  else Ok v.

Record FilterToSpannerFieldConfig : Type := mkFieldConfig {
  ColumnName : string;
  ColumnType : FilterToSpannerFieldColumnType;
  Required : bool;
  Requires : list string;
  AllowPrefixMatch : bool;
  AllowSuffixMatch : bool;
  AllowCaseInsensitiveMatch : bool;
  AllowMultipleValues : bool;
  AllowRanges : bool;
  AllowContains : bool;
  AllowContainedBy : bool;
  AllowNegation : bool;
  Aliases : list string;
  (* nil when [None] *)
  MapValue : option (string -> Result Value);
  Ignore : bool;
}.

(** The zero value of the struct. *)
Definition zeroFieldConfig : FilterToSpannerFieldConfig :=
  {| ColumnName := ""; ColumnType := FilterToSpannerFieldColumnTypeUnspecified;
     Required := false; Requires := []; AllowPrefixMatch := false;
     AllowSuffixMatch := false; AllowCaseInsensitiveMatch := false;
     AllowMultipleValues := false; AllowRanges := false; AllowContains := false;
     AllowContainedBy := false; AllowNegation := false; Aliases := [];
     MapValue := None; Ignore := false |}.

Definition convertValue (f : FilterToSpannerFieldConfig) (value : string) : Result Value :=
  match ColumnType f with
  | FilterToSpannerFieldColumnTypeInt64 =>
      match ParseInt value with
      | Ok intVal => Ok (VInt64 intVal)
      | Err err => Err ("invalid INT64 value: " +:+ err)
      | Panic p => Panic p
      end
  | FilterToSpannerFieldColumnTypeFloat64 =>
      match ParseFloat value with
      | Ok doubleVal => Ok (VFloat64 doubleVal)
      | Err err => Err ("invalid FLOAT64 value: " +:+ err)
      | Panic p => Panic p
      end
  | FilterToSpannerFieldColumnTypeBool =>
      match ParseBool value with
      | Ok boolVal => Ok (VBool boolVal)
      | Err err => Err ("invalid BOOL value: " +:+ err)
      | Panic p => Panic p
      end
  | FilterToSpannerFieldColumnTypeTimestamp =>
      match ParseTime value with
      | Ok t => Ok (VTime t)
      | Err err => Err ("invalid TIMESTAMP value: " +:+ err)
      | Panic p => Panic p
      end
  | FilterToSpannerFieldColumnTypeString => Ok (VString value)
  | FilterToSpannerFieldColumnTypeUnspecified =>
      if String.eqb value "0" then Ok (VInt64 0)
      else if String.eqb value "1" then Ok (VInt64 1)
      else Ok (VString value)
  end.

(** The type assertions [v.(T)] of the four element types. *)
Definition assertString (v : Value) : option string :=
  match v with VString s => Some s | _ => None end.
Definition assertInt64 (v : Value) : option Z :=
  match v with VInt64 n => Some n | _ => None end.
Definition assertFloat64 (v : Value) : option Float64 :=
  match v with VFloat64 x => Some x | _ => None end.
Definition assertBool (v : Value) : option bool :=
  match v with VBool b => Some b | _ => None end.
Definition assertTime (v : Value) : option Time :=
  match v with VTime t => Some t | _ => None end.

(** The loops of [mapValues] that fill [outSlice]: convert each string, then
    assert the element type. *)
Fixpoint mapValues_convertEach {T} (assert : Value -> option T)
    (f : FilterToSpannerFieldConfig) (ov : list string) : Result (list T) :=
  match ov with
  | [] => Ok []
  | v :: rest =>
      val ← convertValue f v;
      match assert val with
      | Some x => outSlice ← mapValues_convertEach assert f rest; Ok (x :: outSlice)
      | None => Panic "interface conversion"
      end
  end.

(** The loop of [mapValues] that calls the [MapValue] hook. *)
Fixpoint mapValues_hook (hook : string -> Result Value) (values : list string)
    (outputValue : list Value) : Result (list Value) :=
  match values with
  | [] => Ok outputValue
  | value :: rest =>
      mappedValue ← hook value;
      mapValues_hook hook rest (outputValue ++ [mappedValue])
  end.

Definition mapValues (f : FilterToSpannerFieldConfig) (values : list string) : Result Value :=
  outputValue ← match MapValue f with
                | Some hook => l ← mapValues_hook hook values []; Ok (VAnys l)
                | None => Ok (VStrings values)
                end;
  outputValue ← unwrapSlice outputValue;
  multiple ← (if negb (AllowMultipleValues f || AllowContains f || AllowContainedBy f)
              then kindIsSlice outputValue else Ok false);
  if (multiple : bool) then Err "multiple values are not allowed"
  else
    match outputValue with
    | VString ov => convertValue f ov
    | VStrings ov =>
        match ColumnType f with
        | FilterToSpannerFieldColumnTypeInt64 =>
            outSlice ← mapValues_convertEach assertInt64 f ov; Ok (VInt64s outSlice)
        | FilterToSpannerFieldColumnTypeFloat64 =>
            outSlice ← mapValues_convertEach assertFloat64 f ov; Ok (VFloat64s outSlice)
        | FilterToSpannerFieldColumnTypeBool =>
            outSlice ← mapValues_convertEach assertBool f ov; Ok (VBools outSlice)
        | FilterToSpannerFieldColumnTypeTimestamp =>
            outSlice ← mapValues_convertEach assertTime f ov; Ok (VTimes outSlice)
        | _ => Ok outputValue
        end
    | _ => Ok outputValue
    end.

(** [parseAnyToSlice[T]], the type parameter given by its name, the
    assertion [s.(T)] and the assertion [s.([]T)]. *)
Fixpoint parseAnyToSlice_loop {T} (name : string) (assert : Value -> option T)
    (sVal : list Value) (typeSlice : list T) : Result (list T) :=
  match sVal with
  | [] => Ok typeSlice
  | x :: rest =>
      match assert x with
      | Some typeVal => parseAnyToSlice_loop name assert rest (typeSlice ++ [typeVal])
      | None =>
          Err ("values' type in any slice doesn't match the expectation, value type: ["
               +:+ valueTypeName x +:+ "], expect: [" +:+ name +:+ "]")
      end
  end.

Definition parseAnyToSlice {T} (name : string) (assert : Value -> option T)
    (assertSlice : Value -> option (list T)) (s : Value) : Result (list T) :=
  match s with
  | VNil => Ok []
  | _ =>
      match assert s with
      | Some sVal => Ok [sVal]
      | None =>
          match assertSlice s with
          | Some sVal => Ok sVal
          | None =>
              match s with
              | VAnys sVal => parseAnyToSlice_loop name assert sVal []
              | _ => Err "cannot parse input to a slice"
              end
          end
      end
  end.

Definition assertStrings (v : Value) : option (list string) :=
  match v with VStrings l => Some l | _ => None end.
Definition assertInt64s (v : Value) : option (list Z) :=
  match v with VInt64s l => Some l | _ => None end.
Definition assertFloat64s (v : Value) : option (list Float64) :=
  match v with VFloat64s l => Some l | _ => None end.
Definition assertTimes (v : Value) : option (list Time) :=
  match v with VTimes l => Some l | _ => None end.

(** The map [fieldConfigs], as its entries in the order a [range] statement
    visits them.  Go leaves that order open, and may take another one in each
    loop; the order decides which config an alias shared by two configs
    reaches, and which of several missing required fields is reported. *)
Definition FieldConfigs : Type := list (string * FilterToSpannerFieldConfig).

(** [fieldConfigs[field]] *)
Fixpoint lookupFieldConfig (fieldConfigs : FieldConfigs) (field : string)
  : option FilterToSpannerFieldConfig :=
  match fieldConfigs with
  | [] => None
  | (k, fc) :: rest => if String.eqb k field then Some fc else lookupFieldConfig rest field
  end.

(** The search for a config that lists [field] among its aliases. *)
Fixpoint lookupAlias (fieldConfigs : FieldConfigs) (field : string)
  : option FilterToSpannerFieldConfig :=
  match fieldConfigs with
  | [] => None
  | (_, fc) :: rest =>
      if existsb (fun alias => String.eqb alias field) (Aliases fc) then Some fc
      else lookupAlias rest field
  end.

(** The test for the clause a bare boolean literal projects to. *)
Definition isBooleanLiteralClause (clause : Clause) : bool :=
  String.eqb (Field clause) "1" && String.eqb (Operator clause) "="
  && match Values clause with
     | [v] => String.eqb v "1" || String.eqb v "0"
     | _ => false
     end.

(** Lines 284-307: the config of a clause. *)
Definition resolveFieldConfig (fieldConfigs : FieldConfigs) (clause : Clause)
  : Result FilterToSpannerFieldConfig :=
  match lookupFieldConfig fieldConfigs (Field clause) with
  | Some fieldConfig => Ok fieldConfig
  | None =>
      match lookupAlias fieldConfigs (Field clause) with
      | Some fc => Ok fc
      | None =>
          if isBooleanLiteralClause clause then Ok zeroFieldConfig
          else Err ("unknown field: " +:+ Field clause)
      end
  end.

(** Lines 313-326: every field the config requires is in the filter. *)
Fixpoint checkRequires (fieldConfig : FilterToSpannerFieldConfig) (clauses : list Clause)
    (clause : Clause) (requires : list string) : Result unit :=
  match requires with
  | [] => Ok tt
  | requiredField :: rest =>
      let found :=
        existsb (fun c => String.eqb (Field c) requiredField
                          || Contains (Aliases fieldConfig) (Field c)) clauses in
      if found then checkRequires fieldConfig clauses clause rest
      else Err (Field clause +:+ " can only be used in this filter in combination with "
                +:+ requiredField)
  end.

(** Lines 346-372: the parameter of [IN], [<@] and [>@], a slice without
    repetitions of the column's type. *)
Definition arrayParameter (fieldConfig : FilterToSpannerFieldConfig) (operator : string)
    (mappedValue : Value) : Result Value :=
  match ColumnType fieldConfig with
  | FilterToSpannerFieldColumnTypeString =>
      l ← parseAnyToSlice "string" assertString assertStrings mappedValue;
      Ok (VStrings (uniqueSliceElements String.eqb l))
  | FilterToSpannerFieldColumnTypeInt64 =>
      l ← parseAnyToSlice "int64" assertInt64 assertInt64s mappedValue;
      Ok (VInt64s (uniqueSliceElements Z.eqb l))
  | FilterToSpannerFieldColumnTypeFloat64 =>
      l ← parseAnyToSlice "float64" assertFloat64 assertFloat64s mappedValue;
      Ok (VFloat64s (uniqueSliceElements float_eqb l))
  | FilterToSpannerFieldColumnTypeTimestamp =>
      l ← parseAnyToSlice "time.Time" assertTime assertTimes mappedValue;
      Ok (VTimes (uniqueSliceElements time_eqb l))
  | _ =>
      Err ("operator " +:+ operator +:+ " not supported for field type "
           +:+ FilterToSpannerFieldColumnType_String (ColumnType fieldConfig))
  end.

Definition likeOperator (operator : string) : string :=
  if String.eqb operator "!=" then " NOT LIKE " else " LIKE ".

(** Lines 393-429: the prefix and suffix rewrite of a single string.  The
    result is the operator, [forceLowercase] and the parameter. *)
Definition prefixSuffixMatch (fieldConfig : FilterToSpannerFieldConfig)
    (operator : string) (mappedValue : Value) : Result (string * bool * Value) :=
  match mappedValue with
  | VString mappedString =>
      let needsPrefixMatch :=
        AllowPrefixMatch fieldConfig && HasSuffix mappedString "*"
        && negb (HasSuffix mappedString "\*") in
      let needsSuffixMatch :=
        AllowSuffixMatch fieldConfig && HasPrefix mappedString "*" in
      if needsPrefixMatch && needsSuffixMatch then
        let mappedString := escapePrefixSuffixSpecialChars mappedString in
        inner ← sliceString mappedString 1 (Z.of_nat (String.length mappedString) - 1);
        Ok (likeOperator operator, true, VString ("%" +:+ inner +:+ "%"))
      else if needsPrefixMatch then
        let mappedString := escapePrefixSuffixSpecialChars mappedString in
        inner ← sliceString mappedString 0 (Z.of_nat (String.length mappedString) - 1);
        Ok (likeOperator operator, true, VString (inner +:+ "%"))
      else if needsSuffixMatch then
        let mappedString := escapePrefixSuffixSpecialChars mappedString in
        inner ← sliceString mappedString 1 (Z.of_nat (String.length mappedString));
        Ok (likeOperator operator, true, VString ("%" +:+ inner))
      else Ok (operator, false, mappedValue)
  | _ => Ok (operator, false, mappedValue)
  end.

(** Lines 328-331: the column of a clause. *)
Definition columnNameOf (fieldConfig : FilterToSpannerFieldConfig) (clause : Clause)
  : string :=
  if String.eqb (ColumnName fieldConfig) "" then Field clause
  else ColumnName fieldConfig.

(** Lines 328-449: the conditions a clause appends to [condAnds] and the value
    it binds to [paramName]. *)
Definition clauseCondition (fieldConfig : FilterToSpannerFieldConfig) (clause : Clause)
    (paramName : string) : Result (list string * Value) :=
  let columnName := columnNameOf fieldConfig clause in
  mappedValue ← match mapValues fieldConfig (Values clause) with
                | Ok v => Ok v
                | Err err => Err ("field " +:+ Field clause +:+ ": " +:+ err)
                | Panic p => Panic p
                end;
  let operator := Operator clause in
  if (1 <? length (Values clause))%nat && negb (Contains ["IN"; "<@"; ">@"] operator)
  then Err ("operator " +:+ operator +:+ " doesn't support multiple values in field: "
            +:+ Field clause)
  else if Contains ["IN"; "<@"; ">@"] operator then
    mappedValue ← arrayParameter fieldConfig operator mappedValue;
    if String.eqb operator "IN" then
      Ok ([columnName +:+ " " +:+ operator +:+ " UNNEST(@" +:+ paramName +:+ ")"],
          mappedValue)
    else if String.eqb operator "<@" then
      if negb (AllowContainedBy fieldConfig)
      then Err ("operator " +:+ operator +:+ " not supported for field: " +:+ Field clause)
      else Ok (["ARRAY_LENGTH(" +:+ columnName
                +:+ ") = ARRAY_LENGTH(ARRAY(SELECT x FROM UNNEST(" +:+ columnName
                +:+ ") AS x WHERE x IN UNNEST(@" +:+ paramName +:+ ")))"],
               mappedValue)
    else
      if negb (AllowContains fieldConfig)
      then Err ("operator " +:+ operator +:+ " not supported for field: " +:+ Field clause)
      else Ok (["ARRAY_LENGTH(ARRAY(SELECT x FROM UNNEST(@" +:+ paramName
                +:+ ") AS x WHERE x IN UNNEST(" +:+ columnName
                +:+ "))) = ARRAY_LENGTH(@" +:+ paramName +:+ ")"],
               mappedValue)
  else if Contains ["="; "!="] operator then
    if negb (AllowNegation fieldConfig) && String.eqb operator "!="
    then Err ("operator " +:+ operator +:+ " not supported for field: " +:+ Field clause)
    else
      '(operator, forceLowercase, mappedValue) ←
          prefixSuffixMatch fieldConfig operator mappedValue;
      if (forceLowercase : bool) && AllowCaseInsensitiveMatch fieldConfig
      then Ok (["LOWER(" +:+ columnName +:+ ")" +:+ operator +:+ "LOWER(@"
                +:+ paramName +:+ ")"], mappedValue)
      else Ok ([columnName +:+ operator +:+ "@" +:+ paramName], mappedValue)
  else if Contains [">="; "<="; ">"; "<"] operator then
    if negb (AllowRanges fieldConfig)
    then Err ("operator " +:+ operator +:+ " not supported for field: " +:+ Field clause)
    else
      match ColumnType fieldConfig with
      | FilterToSpannerFieldColumnTypeInt64
      | FilterToSpannerFieldColumnTypeFloat64
      | FilterToSpannerFieldColumnTypeTimestamp =>
          Ok ([columnName +:+ operator +:+ "@" +:+ paramName], mappedValue)
      | _ =>
          Err ("operator " +:+ operator +:+ " not supported for field type "
               +:+ FilterToSpannerFieldColumnType_String (ColumnType fieldConfig))
      end
  else Ok ([], mappedValue).

(** The variables of the loop of [ToSpannerSQL]. *)
Record LoopState : Type := mkLoopState {
  condAnds : list string;
  params : gmap string Value;
  paramIndex : nat;
}.

(** [fmt.Sprintf("%s%d", "KQL", paramIndex)] *)
Definition paramNameOf (paramIndex : nat) : string := "KQL" +:+ pretty paramIndex.

(** One iteration of the loop over the clauses. *)
Definition ToSpannerSQL_clause (fieldConfigs : FieldConfigs) (f : Filter)
    (st : LoopState) (clause : Clause) : Result LoopState :=
  fieldConfig ← resolveFieldConfig fieldConfigs clause;
  if Ignore fieldConfig then Ok st
  else
    _ ← checkRequires fieldConfig (Clauses f) clause (Requires fieldConfig);
    let paramName := paramNameOf (paramIndex st) in
    '(conds, mappedValue) ← clauseCondition fieldConfig clause paramName;
    Ok {| condAnds := condAnds st ++ conds;
          params := <[paramName := mappedValue]> (params st);
          paramIndex := S (paramIndex st) |}.

Fixpoint ToSpannerSQL_loop (fieldConfigs : FieldConfigs) (f : Filter)
    (clauses : list Clause) (st : LoopState) : Result LoopState :=
  match clauses with
  | [] => Ok st
  | clause :: rest =>
      st ← ToSpannerSQL_clause fieldConfigs f st clause;
      ToSpannerSQL_loop fieldConfigs f rest st
  end.

(** Lines 455-468: every required field is in the filter. *)
Fixpoint checkRequired (fieldConfigs : FieldConfigs) (f : Filter) : Result unit :=
  match fieldConfigs with
  | [] => Ok tt
  | (field, fieldConfig) :: rest =>
      if Required fieldConfig
         && negb (existsb (fun clause => String.eqb (Field clause) field
                                         || Contains (Aliases fieldConfig) (Field clause))
                          (Clauses f))
      then Err ("required field " +:+ field +:+ " missing")
      else checkRequired rest f
  end.

Definition ToSpannerSQL (f : Filter) (fieldConfigs : FieldConfigs)
  : Result (list string * gmap string Value) :=
  st ← ToSpannerSQL_loop fieldConfigs f (Clauses f) (mkLoopState [] ∅ 0);
  _ ← checkRequired fieldConfigs f;
  Ok (condAnds st, params st).

End Spanner.

(** ** The elastic package: lowering to a boolean-query tree *)

Module elastic.
Section Elastic.
Context `{GoRuntime}.

(** The hooks return a string and an error ([None] is nil). *)
Record QueryGenerator : Type := mkQueryGenerator {
  mapFieldName : string -> string * option string;
  mapFieldValue : string -> string -> string * option string;
}.

Definition defaultFieldNameMapper (name : string) : string * option string :=
  (name, None).

Definition defaultFieldValueMapper (_ value : string) : string * option string :=
  (value, None).

(** [NewQueryGenerator()] without options. *)
Definition NewQueryGenerator : QueryGenerator :=
  mkQueryGenerator defaultFieldNameMapper defaultFieldValueMapper.

(** The two range queries of the client library; one bound is set. *)
Record NumberRangeQuery : Type := mkNumberRangeQuery {
  nLt : option Float64; nLte : option Float64;
  nGt : option Float64; nGte : option Float64;
}.

Record DateRangeQuery : Type := mkDateRangeQuery {
  dLt : option string; dLte : option string;
  dGt : option string; dGte : option string;
}.

Inductive RangeQuery : Type :=
  | RangeNumber (rq : NumberRangeQuery)
  | RangeDate (rq : DateRangeQuery).

(** [types.Query], by the one member a lowering sets. *)
#[warnings="-register-all"]
Inductive Query : Type :=
  | Bool (Must Should MustNot : list Query)
  | Terms (field : string) (vals : list string)
  | Term (field : string) (value : string)
  | Range (field : string) (rq : RangeQuery)
  | MatchAll
  | MatchNone.

(** [convertRangeNode] reads the value of the literal it is given. *)
Definition convertRangeNode (op : RangeOperator) (litValue : string) : Result RangeQuery :=
  match ParseFloat litValue with
  | Ok fVal =>
      Ok (RangeNumber
            match op with
            | RangeOperatorLt => mkNumberRangeQuery (Some fVal) None None None
            | RangeOperatorLte => mkNumberRangeQuery None (Some fVal) None None
            | RangeOperatorGt => mkNumberRangeQuery None None (Some fVal) None
            | RangeOperatorGte => mkNumberRangeQuery None None None (Some fVal)
            end)
  | _ =>
      match ParseTime litValue with
      | Ok _ =>
          Ok (RangeDate
                match op with
                | RangeOperatorLt => mkDateRangeQuery (Some litValue) None None None
                | RangeOperatorLte => mkDateRangeQuery None (Some litValue) None None
                | RangeOperatorGt => mkDateRangeQuery None None (Some litValue) None
                | RangeOperatorGte => mkDateRangeQuery None None None (Some litValue)
                end)
      | _ => Err "expected number or date literal"
      end
  end.

(** The loop over the children of [x:(y or z)].  The nodes are reached through
    pointers and [lit.Value] is assigned in place: the function returns the
    children as the loop leaves them, next to its result. *)
Fixpoint convertOrValues (q : QueryGenerator) (id : string) (children : list Node)
    (vals : list string) : list Node * Result (list string) :=
  match children with
  | [] => ([], Ok vals)
  | child :: rest =>
      match child with
      | LiteralNode v =>
          let '(v', err) := mapFieldValue q id v in
          match err with
          | Some e => (LiteralNode v' :: rest, Err (id +:+ ": " +:+ e))
          | None =>
              let '(rest', r) := convertOrValues q id rest (vals ++ [v']) in
              (LiteralNode v' :: rest', r)
          end
      | _ => (child :: rest, Err (id +:+ ": invalid syntax"))
      end
  end.

(** The loops of [convertNodeToQuery] over the children of an and- or
    or-node, [convert] being the recursive call. *)
Fixpoint convertChildren (convert : Node -> Node * Result Query)
    (children : list Node) (clauses : list Query) : list Node * Result (list Query) :=
  match children with
  | [] => ([], Ok clauses)
  | child :: rest =>
      let '(child', r) := convert child in
      match r with
      | Ok cq =>
          let '(rest', r') := convertChildren convert rest (clauses ++ [cq]) in
          (child' :: rest', r')
      | Err e => (child' :: rest, Err e)
      | Panic p => (child' :: rest, Panic p)
      end
  end.

(** [convertNodeToQuery]: the node as the call leaves it, and the result. *)
Fixpoint convertNodeToQuery (q : QueryGenerator) (node : Node) (prefix : string)
  {struct node} : Node * Result Query :=
  let convertChildren :=
    convertChildren (fun child => convertNodeToQuery q child prefix) in
  match node with
  | AndNode nodes =>
      let '(nodes', r) := convertChildren nodes [] in
      (AndNode nodes', clauses ← r; Ok (Bool clauses [] []))
  | OrNode nodes =>
      let '(nodes', r) := convertChildren nodes [] in
      (OrNode nodes', clauses ← r; Ok (Bool [] clauses []))
  | NotNode expr =>
      let '(expr', r) := convertNodeToQuery q expr prefix in
      (NotNode expr', cq ← r; Ok (Bool [] [] [cq]))
  | IsNode identifier value =>
      let '(id, err) := mapFieldName q (prefix +:+ identifier) in
      match err with
      | Some e => (node, Err (id +:+ ": " +:+ e))
      | None =>
          match value with
          | NestedNode expr =>
              let '(expr', r) := convertNodeToQuery q expr (id +:+ ".") in
              (IsNode identifier (NestedNode expr'), r)
          | OrNode children =>
              let '(children', r) := convertOrValues q id children [] in
              (IsNode identifier (OrNode children'), vals ← r; Ok (Terms id vals))
          | LiteralNode v =>
              let '(v', err) := mapFieldValue q id v in
              (IsNode identifier (LiteralNode v'),
               match err with
               | Some e => Err (id +:+ ": " +:+ e)
               | None => Ok (Term id v')
               end)
          | _ => (node, Err (id +:+ ": expected literal node"))
          end
      end
  | RangeNode identifier op value =>
      let '(id, err) := mapFieldName q (prefix +:+ identifier) in
      match err with
      | Some e => (node, Err e)
      | None =>
          match value with
          | LiteralNode v =>
              let '(v', err) := mapFieldValue q id v in
              (RangeNode identifier op (LiteralNode v'),
               match err with
               | Some e => Err (id +:+ ": " +:+ e)
               | None =>
                   match convertRangeNode op v' with
                   | Ok rq => Ok (Range id rq)
                   | Err e => Err (id +:+ ": " +:+ e)
                   | Panic p => Panic p
                   end
               end)
          | _ => (node, Err (id +:+ ": expected literal node"))
          end
      end
  | LiteralNode v =>
      (node,
       if negb (Contains ["true"; "false"] v)
       then Err ("only boolean literals are supported; " +:+ v)
       else if String.eqb v "true" then Ok MatchAll else Ok MatchNone)
  | _ => (node, Err ("unexpected node type: " +:+ nodeTypeName node))
  end.

Definition ConvertAST (q : QueryGenerator) (root : Node) : Node * Result Query :=
  convertNodeToQuery q root "".

End Elastic.
End elastic.

(** ** A runtime to compute with

    Integers are read as [strconv.ParseInt] reads them in base 10; the floats
    of this runtime are the integers, read in the same way, and it accepts no
    timestamp.  The theorems below hold for every runtime; this one runs the
    examples. *)

Definition dquote : string := String (ascii_of_nat 34) EmptyString.

Definition syntaxError (fn s : string) : string :=
  "strconv." +:+ fn +:+ ": parsing " +:+ dquote +:+ s +:+ dquote +:+ ": invalid syntax".

Definition digitValue (c : ascii) : option Z :=
  let n := nat_of_ascii c in
  if ((48 <=? n) && (n <=? 57))%nat then Some (Z.of_nat (n - 48)) else None.

Fixpoint parseDigits (s : string) (acc : Z) : option Z :=
  match s with
  | EmptyString => Some acc
  | String c rest =>
      match digitValue c with
      | Some d => parseDigits rest (10 * acc + d)%Z
      | None => None
      end
  end.

Definition parseDecimal (s : string) : option Z :=
  match s with
  | EmptyString => None
  | String "+" EmptyString | String "-" EmptyString => None
  | String "+" rest => parseDigits rest 0
  | String "-" rest => Z.opp <$> parseDigits rest 0
  | _ => parseDigits s 0
  end.

Definition exampleParseInt (s : string) : Result Z :=
  match parseDecimal s with
  | Some n =>
      if ((- 2 ^ 63 <=? n) && (n <? 2 ^ 63))%Z then Ok n
      else Err ("strconv.ParseInt: parsing " +:+ dquote +:+ s +:+ dquote
                +:+ ": value out of range")
  | None => Err (syntaxError "ParseInt" s)
  end.

Definition exampleParseBool (s : string) : Result bool :=
  if Contains ["1"; "t"; "T"; "TRUE"; "true"; "True"] s then Ok true
  else if Contains ["0"; "f"; "F"; "FALSE"; "false"; "False"] s then Ok false
  else Err (syntaxError "ParseBool" s).

Definition exampleParseFloat (s : string) : Result Z :=
  match parseDecimal s with
  | Some n => Ok n
  | None => Err (syntaxError "ParseFloat" s)
  end.

Definition exampleParseTime (s : string) : Result unit :=
  Err ("parsing time " +:+ dquote +:+ s +:+ dquote).

Definition unit_eqb (_ _ : unit) : bool := true.

Program Definition exampleRuntime : GoRuntime :=
  {| Float64 := Z; Time := unit;
     float_eqb := Z.eqb; time_eqb := unit_eqb;
     ParseInt := exampleParseInt; ParseBool := exampleParseBool;
     ParseFloat := exampleParseFloat; ParseTime := exampleParseTime |}.
Next Obligation. intros x y. apply Z.eqb_sym. Qed.
Next Obligation.
  intros x y z Hxy Hyz. apply Z.eqb_eq in Hxy, Hyz. apply Z.eqb_eq. congruence.
Qed.
Next Obligation. reflexivity. Qed.
Next Obligation. reflexivity. Qed.

(** The configs of the examples: a column of type [t] named as its key, with
    the options given and no other. *)
Definition exampleColumn (t : FilterToSpannerFieldColumnType)
    (allowPrefixMatch allowSuffixMatch allowMultipleValues allowRanges ignore : bool)
  : @FilterToSpannerFieldConfig exampleRuntime :=
  {| ColumnName := ""; ColumnType := t;
     Required := false; Requires := []; AllowPrefixMatch := allowPrefixMatch;
     AllowSuffixMatch := allowSuffixMatch; AllowCaseInsensitiveMatch := false;
     AllowMultipleValues := allowMultipleValues; AllowRanges := allowRanges;
     AllowContains := false; AllowContainedBy := false; AllowNegation := false;
     Aliases := []; MapValue := None; Ignore := ignore |}.

Definition plainColumn (t : FilterToSpannerFieldColumnType) :=
  exampleColumn t false false false false false.

Definition prefixMatchColumn :=
  exampleColumn FilterToSpannerFieldColumnTypeString true false false false false.

Definition prefixSuffixMatchColumn :=
  exampleColumn FilterToSpannerFieldColumnTypeString true true false false false.

Definition multipleValuesColumn (t : FilterToSpannerFieldColumnType) :=
  exampleColumn t false false true false false.

Definition rangesColumn (t : FilterToSpannerFieldColumnType) :=
  exampleColumn t false false false true false.

Definition ignoredColumn :=
  exampleColumn FilterToSpannerFieldColumnTypeUnspecified false false false false true.

(** Configs with a column name, aliases, required fields and the options for
    negation and the array operators; every other option is unset. *)
Definition exampleColumnWith (columnName : string) (t : FilterToSpannerFieldColumnType)
    (required : bool) (requires aliases : list string)
    (allowContains allowContainedBy allowNegation : bool)
  : @FilterToSpannerFieldConfig exampleRuntime :=
  {| ColumnName := columnName; ColumnType := t;
     Required := required; Requires := requires; AllowPrefixMatch := false;
     AllowSuffixMatch := false; AllowCaseInsensitiveMatch := false;
     AllowMultipleValues := false; AllowRanges := false;
     AllowContains := allowContains; AllowContainedBy := allowContainedBy;
     AllowNegation := allowNegation;
     Aliases := aliases; MapValue := None; Ignore := false |}.

Definition aliasedColumn :=
  exampleColumnWith "user_id" FilterToSpannerFieldColumnTypeInt64
    false [] ["uid"] false false false.

Definition requiredColumn :=
  exampleColumnWith "" FilterToSpannerFieldColumnTypeString
    true [] ["tenant_id"] false false false.

Definition requiringColumn (requires : list string) :=
  exampleColumnWith "" FilterToSpannerFieldColumnTypeString
    false requires [] false false false.

Definition negationColumn :=
  exampleColumnWith "" FilterToSpannerFieldColumnTypeString
    false [] [] false false true.

Definition arrayColumn :=
  exampleColumnWith "" FilterToSpannerFieldColumnTypeString
    false [] [] true true false.

Definition suffixMatchColumn :=
  exampleColumn FilterToSpannerFieldColumnTypeString false true false false false.

(** A runtime whose floats include the NaN: [strconv.ParseFloat] reads
    ["NaN"] as it, and [==] makes it different from every float, itself
    included.  The other floats are the integers, as above. *)
Definition nanFloat_eqb (x y : option Z) : bool :=
  match x, y with
  | Some a, Some b => Z.eqb a b
  | _, _ => false
  end.

Definition nanParseFloat (s : string) : Result (option Z) :=
  if String.eqb s "NaN" then Ok None
  else match exampleParseFloat s with
       | Ok x => Ok (Some x)
       | Err e => Err e
       | Panic p => Panic p
       end.

Program Definition nanRuntime : GoRuntime :=
  {| Float64 := option Z; Time := unit;
     float_eqb := nanFloat_eqb; time_eqb := unit_eqb;
     ParseInt := exampleParseInt; ParseBool := exampleParseBool;
     ParseFloat := nanParseFloat; ParseTime := exampleParseTime |}.
Next Obligation. intros [x|] [y|]; simpl; try done. apply Z.eqb_sym. Qed.
Next Obligation.
  intros [x|] [y|] [z|]; simpl; try done.
  intros Hxy Hyz. apply Z.eqb_eq in Hxy, Hyz. apply Z.eqb_eq. congruence.
Qed.
Next Obligation. reflexivity. Qed.
Next Obligation. reflexivity. Qed.

(** A FLOAT64 column with allow_multiple_values, in that runtime. *)
Definition nanFloatColumn : @FilterToSpannerFieldConfig nanRuntime :=
  {| ColumnName := ""; ColumnType := FilterToSpannerFieldColumnTypeFloat64;
     Required := false; Requires := []; AllowPrefixMatch := false;
     AllowSuffixMatch := false; AllowCaseInsensitiveMatch := false;
     AllowMultipleValues := true; AllowRanges := false;
     AllowContains := false; AllowContainedBy := false; AllowNegation := false;
     Aliases := []; MapValue := None; Ignore := false |}.

(** ** Notions the statements use *)

(** The operators of a flat filter (section 3; the comment on [Clause.Operator]). *)
Definition knownOperator (operator : string) : bool :=
  Contains ["="; "!="; "<"; "<="; ">"; ">="; "IN"; "<@"; ">@"] operator.

(** The value mapper of the documentation of [WithFieldValueMapper]: [uid_]
    before every value. *)
Definition uidValueMapper (_ value : string) : string * option string :=
  ("uid_" +:+ value, None).

(** The values of [values] that equal no value before them, [earlier] being
    the values already passed: the first occurrences, in order. *)
Fixpoint firstOccurrencesFrom {T} (eqb : T -> T -> bool) (earlier values : list T)
  : list T :=
  match values with
  | [] => []
  | x :: rest =>
      if existsb (fun e => eqb e x) earlier
      then firstOccurrencesFrom eqb (x :: earlier) rest
      else x :: firstOccurrencesFrom eqb (x :: earlier) rest
  end.

Definition firstOccurrences {T} (eqb : T -> T -> bool) (values : list T) : list T :=
  firstOccurrencesFrom eqb [] values.

(** No two positions of [l] hold values that [==] makes equal. *)
Definition noDuplicates {T} (eqb : T -> T -> bool) (l : list T) : Prop :=
  forall i j x y, i < j -> l !! i = Some x -> l !! j = Some y -> eqb x y = false.

(** A string with every backslash, underscore and percent sign escaped by a
    backslash, byte by byte. *)
Definition escapeByte (c : ascii) : string :=
  if Ascii.eqb c "\" || Ascii.eqb c "_" || Ascii.eqb c "%"
  then String "\" (String c EmptyString)
  else String c EmptyString.

Fixpoint escapeEvery (s : string) : string :=
  match s with
  | EmptyString => EmptyString
  | String c rest => escapeByte c +:+ escapeEvery rest
  end.

(** The column types a range operator is lowered on. *)
Definition supportsRanges (t : FilterToSpannerFieldColumnType) : bool :=
  match t with
  | FilterToSpannerFieldColumnTypeInt64
  | FilterToSpannerFieldColumnTypeFloat64
  | FilterToSpannerFieldColumnTypeTimestamp => true
  | _ => false
  end.

Section Notions.
Context `{GoRuntime}.

(** None of the flags that let a clause carry several values is set. *)
Definition noMultipleFlag (fieldConfig : FilterToSpannerFieldConfig) : bool :=
  negb (AllowMultipleValues fieldConfig || AllowContains fieldConfig
        || AllowContainedBy fieldConfig).

(** A clause is lowered when its config resolves and is not ignored. *)
Definition lowered (fieldConfigs : FieldConfigs) (clause : Clause) : bool :=
  match resolveFieldConfig fieldConfigs clause with
  | Ok fieldConfig => negb (Ignore fieldConfig)
  | _ => false
  end.

(** The number of lowered clauses among [clauses]: the index of the
    placeholder of the clause that follows them. *)
Definition placeholderIndex (fieldConfigs : FieldConfigs) (clauses : list Clause) : nat :=
  length (List.filter (lowered fieldConfigs) clauses).

(** A clause emits a predicate when it is lowered and the switch on its
    operator has a case for it. *)
Definition emitsPredicate (fieldConfigs : FieldConfigs) (clause : Clause) : bool :=
  lowered fieldConfigs clause && knownOperator (Operator clause).

(** The number of predicates emitted for [clauses]: the index, among the
    predicates returned, of the predicate of the clause that follows them. *)
Definition predicateIndex (fieldConfigs : FieldConfigs) (clauses : list Clause) : nat :=
  length (List.filter (emitsPredicate fieldConfigs) clauses).

End Notions.

(** The values an and- or or-list takes from one child for [field]: those of
    an [Is] child, none of any other child. *)
Definition isNodeValues (field : string) (node : Node) : list string :=
  match node with
  | IsNode id v => hasMustEqualIsNode id v field
  | _ => []
  end.

(** An [Is] child that puts no value on [field]. *)
Definition isNodeWithoutValue (field : string) (node : Node) : bool :=
  match node with
  | IsNode id v => (length (hasMustEqualIsNode id v field) =? 0)%nat
  | _ => false
  end.

(** The operators the projector writes into a clause. *)
Definition projectedOperators : list string :=
  ["="; "!="; "IN"; "<"; "<="; ">"; ">="].

(** What a clause of the projector looks like: one of its operators, and one
    value unless the operator is [IN]. *)
Definition projectedClause (c : Clause) : Prop :=
  Operator c ∈ projectedOperators /\ (Operator c <> "IN" -> length (Values c) = 1).

(** The bytes [LIKE] gives a meaning to, and its escape byte. *)
Definition specialByte (c : ascii) : bool :=
  Ascii.eqb c "\" || Ascii.eqb c "_" || Ascii.eqb c "%".

Fixpoint hasSpecialByte (s : string) : bool :=
  match s with
  | EmptyString => false
  | String c rest => specialByte c || hasSpecialByte rest
  end.

Section ValueTypes.
Context `{GoRuntime}.

(** A value of the Go type of a column, or a slice of it; without a column
    type, the integers 0 and 1 and strings. *)
Definition valueOfColumnType (t : FilterToSpannerFieldColumnType) (v : Value) : bool :=
  match t, v with
  | FilterToSpannerFieldColumnTypeString, (VString _ | VStrings _) => true
  | FilterToSpannerFieldColumnTypeInt64, (VInt64 _ | VInt64s _) => true
  | FilterToSpannerFieldColumnTypeFloat64, (VFloat64 _ | VFloat64s _) => true
  | FilterToSpannerFieldColumnTypeBool, (VBool _ | VBools _) => true
  | FilterToSpannerFieldColumnTypeTimestamp, (VTime _ | VTimes _) => true
  | FilterToSpannerFieldColumnTypeUnspecified, (VString _ | VStrings _) => true
  | FilterToSpannerFieldColumnTypeUnspecified, VInt64 n => (n =? 0)%Z || (n =? 1)%Z
  | _, _ => false
  end.

Definition isSliceValue (v : Value) : bool :=
  match kindIsSlice v with Ok b => b | _ => false end.

End ValueTypes.

Section Wildcards.
Context `{GoRuntime}.

(** The two tests of lines 398 and 399. *)
Definition needsPrefixMatch (fieldConfig : FilterToSpannerFieldConfig) (s : string) : bool :=
  AllowPrefixMatch fieldConfig && HasSuffix s "*" && negb (HasSuffix s "\*").

Definition needsSuffixMatch (fieldConfig : FilterToSpannerFieldConfig) (s : string) : bool :=
  AllowSuffixMatch fieldConfig && HasPrefix s "*".

(** The condition of lines 431-435 for a value that was rewritten. *)
Definition likeCondition (fieldConfig : FilterToSpannerFieldConfig) (clause : Clause)
    (operator paramName : string) : string :=
  if AllowCaseInsensitiveMatch fieldConfig
  then "LOWER(" +:+ columnNameOf fieldConfig clause +:+ ")" +:+ operator
       +:+ "LOWER(@" +:+ paramName +:+ ")"
  else columnNameOf fieldConfig clause +:+ operator +:+ "@" +:+ paramName.

End Wildcards.

Section ConfigMaps.
Context `{GoRuntime}.

(** No field name is an alias of two different configs. *)
Definition uniqueAliases (fieldConfigs : FieldConfigs) : Prop :=
  forall e1 e2 alias,
    e1 ∈ fieldConfigs -> e2 ∈ fieldConfigs ->
    alias ∈ Aliases (snd e1) -> alias ∈ Aliases (snd e2) -> snd e1 = snd e2.

End ConfigMaps.

Section Arrays.
Context `{GoRuntime}.

(** What the type switch that ends [mapValues] (lines 115-167) returns for
    the unwrapped output [out]. *)
Definition mapValues_result (f : FilterToSpannerFieldConfig) (out mapped : Value) : Prop :=
  match out with
  | VString ov => convertValue f ov = Ok mapped
  | VStrings ov =>
      match ColumnType f with
      | FilterToSpannerFieldColumnTypeInt64 =>
          exists l, mapValues_convertEach assertInt64 f ov = Ok l /\ mapped = VInt64s l
      | FilterToSpannerFieldColumnTypeFloat64 =>
          exists l, mapValues_convertEach assertFloat64 f ov = Ok l
            /\ mapped = VFloat64s l
      | FilterToSpannerFieldColumnTypeBool =>
          exists l, mapValues_convertEach assertBool f ov = Ok l /\ mapped = VBools l
      | FilterToSpannerFieldColumnTypeTimestamp =>
          exists l, mapValues_convertEach assertTime f ov = Ok l /\ mapped = VTimes l
      | _ => mapped = out
      end
  | _ => mapped = out
  end.

(** The elements the array operators take from the single value [m] that a
    [MapValue] hook returned: none for nil; the conversion of a string; the
    conversions of the strings of a [[]string]; the elements of a slice of
    the element type or of [any] values of it; a value of the element type
    itself.  [inj] and [injSlice] wrap a value and a slice of the element
    type as [any]. *)
Definition hookResultElements {T} (inj : T -> Value) (injSlice : list T -> Value)
    (fieldConfig : FilterToSpannerFieldConfig) (m : Value) (l : list T) : Prop :=
  match m with
  | VNil => l = []
  | VString s => exists x, convertValue fieldConfig s = Ok (inj x) /\ l = [x]
  | VStrings ov => Forall2 (fun s x => convertValue fieldConfig s = Ok (inj x)) ov l
  | VAnys ms => ms = inj <$> l
  | _ => (exists x, m = inj x /\ l = [x]) \/ m = injSlice l
  end.

(** The mapped and coerced values of a clause, as values of the element type
    of its column: without a [MapValue] hook, each value converted by
    [convertValue]; with a hook, each value as the hook maps it, a single
    value being taken apart as above. *)
Definition mappedElements {T} (inj : T -> Value) (injSlice : list T -> Value)
    (fieldConfig : FilterToSpannerFieldConfig) (values : list string) (l : list T) : Prop :=
  match MapValue fieldConfig with
  | None => Forall2 (fun s x => convertValue fieldConfig s = Ok (inj x)) values l
  | Some hook =>
      match values with
      | [s] => exists m, hook s = Ok m /\ hookResultElements inj injSlice fieldConfig m l
      | _ => Forall2 (fun s x => hook s = Ok (inj x)) values l
      end
  end.

(** [arr] lists the first occurrences, under [==], of the values [l], in
    their order; no two of its elements are equal under [==], and none occurs
    twice when every value of [l] equals itself. *)
Definition firstOccurrencesOf {T} (eqb : T -> T -> bool) (l arr : list T) : Prop :=
  arr = firstOccurrences eqb l
  /\ noDuplicates eqb arr
  /\ ((forall x, x ∈ l -> eqb x x = true) -> NoDup arr).

(** The array an array operator binds for the values of a clause: a slice of
    the element type of the column that lists the first occurrences of the
    mapped and coerced values; for strings and integers, where [==] is
    equality, it has no duplicates. *)
Definition deduplicatedArray (fieldConfig : FilterToSpannerFieldConfig)
    (values : list string) (arr : Value) : Prop :=
  match ColumnType fieldConfig with
  | FilterToSpannerFieldColumnTypeString =>
      exists l u, mappedElements VString VStrings fieldConfig values l
        /\ arr = VStrings u /\ firstOccurrencesOf String.eqb l u /\ NoDup u
  | FilterToSpannerFieldColumnTypeInt64 =>
      exists l u, mappedElements VInt64 VInt64s fieldConfig values l
        /\ arr = VInt64s u /\ firstOccurrencesOf Z.eqb l u /\ NoDup u
  | FilterToSpannerFieldColumnTypeFloat64 =>
      exists l u, mappedElements VFloat64 VFloat64s fieldConfig values l
        /\ arr = VFloat64s u /\ firstOccurrencesOf float_eqb l u
  | FilterToSpannerFieldColumnTypeTimestamp =>
      exists l u, mappedElements VTime VTimes fieldConfig values l
        /\ arr = VTimes u /\ firstOccurrencesOf time_eqb l u
  | _ => False
  end.

End Arrays.

(** * Properties *)

(** ** The constrained-equality probe *)

(** An or-list all of whose children are [Is] nodes with a non-empty value
    set for [field] yields the values of the children, in order. *)
Lemma hasMustEqualOrNode_loop_all_is (nodes : list Node) (field : string)
    (values : list string) :
  Forall (fun n => exists id v, n = IsNode id v /\ hasMustEqualIsNode id v field <> [])
         nodes ->
  hasMustEqualOrNode_loop nodes field values
  = values ++ concat (map (fun n => HasMustEqual n field) nodes).
Proof.
  intros Hall. revert values.
  induction Hall as [|n rest (id & v & -> & Hne) _ IH]; intros values; simpl.
  - by rewrite app_nil_r.
  - destruct (hasMustEqualIsNode id v field) as [|x xs] eqn:E; [done|].
    simpl. rewrite IH. by rewrite <- app_assoc.
Qed.

(** An [Is] child that puts no value on [field] (another field, or a nested
    value) makes the or-list unconstrained. *)
Lemma hasMustEqualOrNode_loop_other_field (pre post : list Node) (id field : string)
    (v : Node) (values : list string) :
  Forall (fun n => exists id v, n = IsNode id v /\ hasMustEqualIsNode id v field <> [])
         pre ->
  hasMustEqualIsNode id v field = [] ->
  hasMustEqualOrNode_loop (pre ++ IsNode id v :: post) field values = [].
Proof.
  intros Hall Hnil. revert values.
  induction Hall as [|n rest (id' & v' & -> & Hne) _ IH]; intros values; simpl.
  - by rewrite Hnil.
  - destruct (hasMustEqualIsNode id' v' field) as [|x xs] eqn:E; [done|].
    simpl. apply IH.
Qed.

(** C1: the claim says an or-list with a child that is no [Is] node is
    unconstrained (null).  The loop of [hasMustEqualOrNode] skips such a child
    instead: for [type_id:team or type_id>=5] the probe on [type_id] answers
    [team], although a document with [type_id] 7 satisfies the filter. *)
Theorem C1_or_node_skips_non_is_child :
  HasMustEqual
    (OrNode [IsNode "type_id" (LiteralNode "team");
             RangeNode "type_id" RangeOperatorGte (LiteralNode "5")]) "type_id"
  = ["team"]
  /\ HasMustEqual
       (OrNode [IsNode "type_id" (LiteralNode "team");
                NotNode (IsNode "type_id" (LiteralNode "team"))]) "type_id"
     = ["team"]
  /\ HasMustEqual
       (OrNode [IsNode "type_id" (LiteralNode "team");
                IsNode "disabled" (LiteralNode "true")]) "type_id"
     = [].
Proof. repeat split; reflexivity. Qed.

(** ** The boolean-query lowering and the AST *)

Section ElasticFacts.
Context `{GoRuntime}.
Import elastic.

(** Induction on nodes that reaches the children of and- and or-lists. *)
Lemma Node_nested_ind (P : Node -> Prop) :
  P NilNode ->
  (forall v, P (LiteralNode v)) ->
  (forall id v, P v -> P (IsNode id v)) ->
  (forall id op v, P v -> P (RangeNode id op v)) ->
  (forall l, Forall P l -> P (AndNode l)) ->
  (forall l, Forall P l -> P (OrNode l)) ->
  (forall e, P e -> P (NotNode e)) ->
  (forall e, P e -> P (NestedNode e)) ->
  forall n, P n.
Proof.
  intros HNil HLit HIs HRange HAnd HOr HNot HNested.
  fix IH 1. intros [| v | id v | id op v | l | l | e | e].
  - exact HNil.
  - apply HLit.
  - apply HIs, IH.
  - apply HRange, IH.
  - apply HAnd. induction l as [|x l IHl]; constructor; [apply IH | exact IHl].
  - apply HOr. induction l as [|x l IHl]; constructor; [apply IH | exact IHl].
  - apply HNot, IH.
  - apply HNested, IH.
Qed.

Lemma convertOrValues_unchanged (q : QueryGenerator) (id : string)
    (children : list Node) (vals : list string) :
  (forall id v, fst (mapFieldValue q id v) = v) ->
  fst (convertOrValues q id children vals) = children.
Proof.
  intros Hid. revert vals.
  induction children as [|child rest IH]; intros vals; simpl; [done|].
  destruct child as [| v | | | | | |]; try done.
  specialize (Hid id v).
  destruct (mapFieldValue q id v) as [v' [e|]]; simpl in *; subst; [done|].
  specialize (IH (vals ++ [v])).
  destruct (convertOrValues q id rest (vals ++ [v])) as [rest' r].
  simpl in *. by subst.
Qed.

Lemma convertChildren_unchanged (convert : Node -> Node * Result Query)
    (children : list Node) (clauses : list Query) :
  Forall (fun child => fst (convert child) = child) children ->
  fst (convertChildren convert children clauses) = children.
Proof.
  intros Hall. revert clauses.
  induction Hall as [|x l Hx _ IH]; intros clauses; simpl; [done|].
  destruct (convert x) as [x' [cq|e|p]]; simpl in *; subst; try done.
  specialize (IH (clauses ++ [cq])).
  destruct (convertChildren convert l (clauses ++ [cq])) as [l' r'].
  simpl in *. by subst.
Qed.

(** The AST is unchanged when the value mapper hands every value back as it
    is, which the default mapper does. *)
Lemma convertNodeToQuery_unchanged (q : QueryGenerator) :
  (forall id v, fst (mapFieldValue q id v) = v) ->
  forall node prefix, fst (convertNodeToQuery q node prefix) = node.
Proof.
  intros Hid node.
  cut ((forall prefix, fst (convertNodeToQuery q node prefix) = node)
       /\ match node with
          | NestedNode e => forall prefix, fst (convertNodeToQuery q e prefix) = e
          | _ => True
          end).
  { intros [Hn _]. exact Hn. }
  induction node as [| v | id v IH | id op v IH | l IH | l IH | e IH | e IH]
    using Node_nested_ind; (split; [intros prefix | try exact I]); try done.
  - (* Is *)
    simpl. destruct (mapFieldName q (prefix +:+ id)) as [id' [e|]]; [done|].
    destruct v as [| lit | | | | nodes | | expr]; try done.
    + specialize (Hid id' lit).
      destruct (mapFieldValue q id' lit) as [v' e]. simpl in *. by subst.
    + pose proof (convertOrValues_unchanged q id' nodes [] Hid) as Hc.
      destruct (convertOrValues q id' nodes []) as [ch r]. simpl in *. by subst.
    + destruct IH as [_ IH]. specialize (IH (id' +:+ ".")).
      destruct (convertNodeToQuery q expr (id' +:+ ".")) as [e' r]. simpl in *. by subst.
  - (* Range *)
    simpl. destruct (mapFieldName q (prefix +:+ id)) as [id' [e|]]; [done|].
    destruct v as [| lit | | | | | |]; try done.
    specialize (Hid id' lit).
    destruct (mapFieldValue q id' lit) as [v' e]. simpl in *. by subst.
  - (* And *)
    simpl.
    assert (fst (convertChildren (fun child => convertNodeToQuery q child prefix) l [])
            = l) as Hc.
    { apply convertChildren_unchanged.
      eapply Forall_impl; [exact IH|]. intros x [Hx _]. apply Hx. }
    destruct (convertChildren _ l []) as [l' r]. simpl in *. by subst.
  - (* Or *)
    simpl.
    assert (fst (convertChildren (fun child => convertNodeToQuery q child prefix) l [])
            = l) as Hc.
    { apply convertChildren_unchanged.
      eapply Forall_impl; [exact IH|]. intros x [Hx _]. apply Hx. }
    destruct (convertChildren _ l []) as [l' r]. simpl in *. by subst.
  - (* Not *)
    simpl. destruct IH as [IH _]. specialize (IH prefix).
    destruct (convertNodeToQuery q e prefix) as [e' r]. simpl in *. by subst.
  - (* Nested *)
    destruct IH as [IH _]. exact IH.
Qed.

(** C2: the claim says the lowering leaves the AST as it was.  The code
    assigns the mapped value to [lit.Value]: after lowering [user_id:5] with
    the value mapper of the package documentation the literal of the AST is
    [uid_5], and lowering the same AST again yields [uid_uid_5]. *)
Theorem C2_ConvertAST_overwrites_literals :
  let q := mkQueryGenerator defaultFieldNameMapper uidValueMapper in
  let ast := IsNode "user_id" (LiteralNode "5") in
  ConvertAST q ast
  = (IsNode "user_id" (LiteralNode "uid_5"), Ok (Term "user_id" "uid_5"))
  /\ fst (ConvertAST q ast) <> ast
  /\ snd (ConvertAST q (fst (ConvertAST q ast))) = Ok (Term "user_id" "uid_uid_5").
Proof. repeat split. discriminate. Qed.

End ElasticFacts.

(** ** The flat-filter projector *)

Lemma convertAndNode_project_ok (nodes : list Node) (fs : list Filter)
    (clauses : list Clause) :
  Forall2 (fun node f => convertAndNode_child node = Ok f) nodes fs ->
  convertAndNode_project nodes clauses = Ok (clauses ++ concat (map Clauses fs)).
Proof.
  intros Hall. revert clauses.
  induction Hall as [|node f nodes fs Hnode _ IH]; intros clauses; simpl.
  - by rewrite app_nil_r.
  - rewrite Hnode. simpl. rewrite IH. by rewrite <- app_assoc.
Qed.

(** The counting loop, started with counts [fieldCounts] none of which is over
    two, fails exactly when an earlier count and the occurrences in
    [clauses] add up to more than two for some field. *)
Lemma convertAndNode_count_spec (clauses : list Clause) (fieldCounts : gmap string nat) :
  (forall field n, fieldCounts !! field = Some n -> n <= 2) ->
  (convertAndNode_count clauses fieldCounts = Err "field count maximum in filter exceeded"
   /\ exists field,
        2 < default 0 (fieldCounts !! field)
            + count_occ string_dec (map Field clauses) field)
  \/ (convertAndNode_count clauses fieldCounts = Ok tt
      /\ forall field,
           default 0 (fieldCounts !! field)
           + count_occ string_dec (map Field clauses) field <= 2).
Proof.
  revert fieldCounts.
  induction clauses as [|clause rest IH]; intros fieldCounts Hle; simpl.
  - right. split; [done|]. intros field. rewrite Nat.add_0_r.
    destruct (fieldCounts !! field) as [n|] eqn:E; simpl; [eauto | lia].
  - set (n := S (default 0 (fieldCounts !! Field clause))).
    destruct (2 <? n)%nat eqn:Hn.
    + left. split; [done|]. exists (Field clause).
      apply Nat.ltb_lt in Hn. subst n.
      destruct (string_dec (Field clause) (Field clause)); [lia | done].
    + apply Nat.ltb_ge in Hn.
      destruct (IH (<[Field clause := n]> fieldCounts)) as [[-> [field Hf]] | [-> Hall]].
      * intros field m. rewrite lookup_insert. case_decide; [|by eauto].
        intros [= <-]. exact Hn.
      * left. split; [done|]. exists field.
        rewrite lookup_insert in Hf.
        destruct (string_dec (Field clause) field) as [Heq|Hne];
          [rewrite decide_True in Hf by done | rewrite decide_False in Hf by done];
          simpl in Hf; subst n; [subst field|]; lia.
      * right. split; [done|]. intros field. specialize (Hall field).
        rewrite lookup_insert in Hall.
        destruct (string_dec (Field clause) field) as [Heq|Hne];
          [rewrite decide_True in Hall by done | rewrite decide_False in Hall by done];
          simpl in Hall; subst n; [subst field|]; lia.
Qed.

(** C8: for an and-node whose children all project, the conversion fails with
    the field-count error exactly when some field name occurs more than twice
    among the projected clauses; when none does, the clauses of the children
    are returned in the order of the children. *)
Theorem C8_convertAndNode_field_cap (nodes : list Node) (fs : list Filter) :
  Forall2 (fun node f => convertAndNode_child node = Ok f) nodes fs ->
  let clauses := concat (map Clauses fs) in
  (convertToFilter (AndNode nodes) = Err "field count maximum in filter exceeded"
   <-> exists field, 2 < count_occ string_dec (map Field clauses) field)
  /\ ((forall field, count_occ string_dec (map Field clauses) field <= 2) ->
      convertToFilter (AndNode nodes) = Ok (mkFilter clauses)).
Proof.
  intros Hall clauses. simpl. unfold convertAndNode.
  rewrite (convertAndNode_project_ok nodes fs [] Hall). simpl. fold clauses.
  destruct (convertAndNode_count_spec clauses ∅) as [[-> [field Hf]] | [-> Hle]].
  - intros field n. by rewrite lookup_empty.
  - rewrite lookup_empty in Hf. simpl in Hf. split.
    + split; [eauto | done].
    + intros Hle. specialize (Hle field). lia.
  - simpl. split.
    + split; [done|]. intros [field Hf]. specialize (Hle field).
      rewrite lookup_empty in Hle. simpl in Hle. lia.
    + done.
Qed.

(** A range on one column passes the cap; a third clause on it does not. *)
Lemma C8_convertAndNode_field_cap_witness :
  convertToFilter
    (AndNode [RangeNode "amount" RangeOperatorGte (LiteralNode "1");
              RangeNode "amount" RangeOperatorLt (LiteralNode "5")])
  = Ok (mkFilter [mkClause "amount" ">=" ["1"]; mkClause "amount" "<" ["5"]])
  /\ convertToFilter
       (AndNode [RangeNode "count" RangeOperatorGte (LiteralNode "1");
                 RangeNode "count" RangeOperatorLt (LiteralNode "5");
                 RangeNode "count" RangeOperatorGt (LiteralNode "3")])
     = Err "field count maximum in filter exceeded".
Proof.
  split.
  - apply (C8_convertAndNode_field_cap
             [RangeNode "amount" RangeOperatorGte (LiteralNode "1");
              RangeNode "amount" RangeOperatorLt (LiteralNode "5")]
             [mkFilter [mkClause "amount" ">=" ["1"]];
              mkFilter [mkClause "amount" "<" ["5"]]]).
    + repeat constructor.
    + intros field. cbn [concat map app Clauses Field count_occ].
      repeat (destruct (string_dec _ _)); lia.
  - apply (C8_convertAndNode_field_cap
             [RangeNode "count" RangeOperatorGte (LiteralNode "1");
              RangeNode "count" RangeOperatorLt (LiteralNode "5");
              RangeNode "count" RangeOperatorGt (LiteralNode "3")]
             [mkFilter [mkClause "count" ">=" ["1"]];
              mkFilter [mkClause "count" "<" ["5"]];
              mkFilter [mkClause "count" ">" ["3"]]]).
    + repeat constructor.
    + exists "count". simpl. lia.
Defined.

(** ** The Spanner lowering: the loop *)

Section SpannerFacts.
Context `{GoRuntime}.

Lemma paramNameOf_inj (i j : nat) : paramNameOf i = paramNameOf j -> i = j.
Proof. unfold paramNameOf. intros Heq. simpl in Heq. by simplify_eq. Qed.

Lemma knownOperator_cases (operator : string) :
  knownOperator operator = true ->
  Contains ["IN"; "<@"; ">@"] operator
  || Contains ["="; "!="] operator
  || Contains [">="; "<="; ">"; "<"] operator = true.
Proof.
  unfold knownOperator, Contains. cbn [existsb].
  repeat match goal with |- context [String.eqb operator ?s] =>
    destruct (String.eqb operator s) end; done.
Qed.

(** A clause with one of the nine operators appends exactly one condition. *)
Lemma clauseCondition_one (fieldConfig : FilterToSpannerFieldConfig) (clause : Clause)
    (paramName : string) (conds : list string) (v : Value) :
  knownOperator (Operator clause) = true ->
  clauseCondition fieldConfig clause paramName = Ok (conds, v) ->
  exists cond, conds = [cond].
Proof.
  intros Hknown%knownOperator_cases. unfold clauseCondition.
  destruct (mapValues fieldConfig (Values clause)) as [mapped|e|p]; simpl; try done.
  destruct (_ && negb _); [done|].
  destruct (Contains ["IN"; "<@"; ">@"] (Operator clause)).
  { destruct (arrayParameter _ _ _); simpl; try done.
    repeat case_match; intros; simplify_eq; eauto. }
  destruct (Contains ["="; "!="] (Operator clause)).
  { destruct (_ && _); [done|].
    destruct (prefixSuffixMatch _ _ _) as [[[op fl] mv]|e|p]; simpl; try done.
    repeat case_match; intros; simplify_eq; eauto. }
  destruct (Contains [">="; "<="; ">"; "<"] (Operator clause)); [|done].
  repeat case_match; intros; simplify_eq; eauto.
Qed.

(** What a successful iteration did. *)
Lemma ToSpannerSQL_clause_inv (fieldConfigs : FieldConfigs) (f : Filter)
    (st st' : LoopState) (clause : Clause) :
  ToSpannerSQL_clause fieldConfigs f st clause = Ok st' ->
  exists fieldConfig,
    resolveFieldConfig fieldConfigs clause = Ok fieldConfig
    /\ if Ignore fieldConfig then st' = st
       else exists conds v,
         checkRequires fieldConfig (Clauses f) clause (Requires fieldConfig) = Ok tt
         /\ clauseCondition fieldConfig clause (paramNameOf (paramIndex st)) = Ok (conds, v)
         /\ st' = {| condAnds := condAnds st ++ conds;
                     params := <[paramNameOf (paramIndex st) := v]> (params st);
                     paramIndex := S (paramIndex st) |}.
Proof.
  unfold ToSpannerSQL_clause.
  destruct (resolveFieldConfig fieldConfigs clause) as [fc|e|p]; simpl; try done.
  intros Hst. exists fc. split; [done|].
  destruct (Ignore fc); [by simplify_eq|].
  destruct (checkRequires fc (Clauses f) clause (Requires fc)) as [[]|e|p];
    simpl in Hst; try done.
  destruct (clauseCondition fc clause (paramNameOf (paramIndex st))) as [[conds v]|e|p];
    simpl in Hst; try done.
  exists conds, v. by simplify_eq.
Qed.

Lemma ToSpannerSQL_loop_app (fieldConfigs : FieldConfigs) (f : Filter)
    (pre post : list Clause) (st : LoopState) :
  ToSpannerSQL_loop fieldConfigs f (pre ++ post) st
  = (st' ← ToSpannerSQL_loop fieldConfigs f pre st;
     ToSpannerSQL_loop fieldConfigs f post st').
Proof.
  revert st. induction pre as [|c pre IH]; intros st; simpl; [done|].
  destruct (ToSpannerSQL_clause fieldConfigs f st c); simpl; auto.
Qed.

(** The loop from state [st] over [clauses]: the index advances by the number
    of lowered clauses, conditions are appended, the placeholders before the
    index keep their binding, and the new keys are those of the indices
    passed. *)
Lemma ToSpannerSQL_loop_inv (fieldConfigs : FieldConfigs) (f : Filter)
    (clauses : list Clause) (st st' : LoopState) :
  ToSpannerSQL_loop fieldConfigs f clauses st = Ok st' ->
  paramIndex st' = paramIndex st + placeholderIndex fieldConfigs clauses
  /\ (exists new, condAnds st' = condAnds st ++ new
        /\ (Forall (fun c => knownOperator (Operator c) = true) clauses ->
            length new = placeholderIndex fieldConfigs clauses))
  /\ (forall i, i < paramIndex st ->
        params st' !! paramNameOf i = params st !! paramNameOf i)
  /\ (forall key, is_Some (params st' !! key) <->
        is_Some (params st !! key)
        \/ exists i, paramIndex st <= i < paramIndex st' /\ key = paramNameOf i).
Proof.
  revert st. induction clauses as [|c rest IH]; intros st; simpl.
  - intros [= <-]. unfold placeholderIndex. simpl. rewrite Nat.add_0_r.
    split; [done|]. split; [exists []; by rewrite app_nil_r|].
    split; [done|]. intros key. split; [auto|]. intros [?|(i & ? & _)]; [done|lia].
  - destruct (ToSpannerSQL_clause fieldConfigs f st c) as [st1|e|p] eqn:Hc;
      simpl; try done.
    intros Hloop. apply IH in Hloop as (Hidx & (new & Hconds & Hlen) & Hkeep & Hdom).
    apply ToSpannerSQL_clause_inv in Hc as (fc & Hres & Hc).
    assert (lowered fieldConfigs c = negb (Ignore fc)) as Hlow
      by (unfold lowered; by rewrite Hres).
    unfold placeholderIndex in *. simpl. rewrite Hlow.
    destruct (Ignore fc); simpl.
    + subst st1. split; [done|]. split; [|done].
      exists new. split; [done|]. intros Hk. apply Hlen. by inversion Hk.
    + destruct Hc as (conds & v & _ & Hcond & ->). simpl in *.
      split; [lia|]. split; [|split].
      * exists (conds ++ new). rewrite Hconds, <- app_assoc. split; [done|].
        intros Hk. inversion Hk as [|? ? Hc Hrest]; subst.
        destruct (clauseCondition_one _ _ _ _ _ Hc Hcond) as [cond ->].
        simpl. f_equal. by apply Hlen.
      * intros i Hi. rewrite Hkeep by lia. apply lookup_insert_ne.
        intros Heq%paramNameOf_inj. lia.
      * intros key. rewrite Hdom. rewrite lookup_insert. split.
        -- intros [Hsome|(i & Hi & ->)].
           ++ case_decide as Hk; [|by left].
              right. exists (paramIndex st). split; [lia|done].
           ++ right. exists i. split; [lia|done].
        -- intros [Hsome|(i & Hi & ->)].
           ++ left. case_decide; [done|exact Hsome].
           ++ destruct (decide (i = paramIndex st)) as [->|Hne].
              ** left. rewrite decide_True by done. done.
              ** right. exists i. split; [lia|done].
Qed.

(** The three cases of the switch on the operator. *)
Lemma clauseCondition_IN (fieldConfig : FilterToSpannerFieldConfig) (clause : Clause)
    (paramName : string) :
  Operator clause = "IN" ->
  clauseCondition fieldConfig clause paramName
  = match mapValues fieldConfig (Values clause) with
    | Ok mapped =>
        arr ← arrayParameter fieldConfig "IN" mapped;
        Ok ([columnNameOf fieldConfig clause +:+ " IN UNNEST(@" +:+ paramName +:+ ")"],
            arr)
    | Err err => Err ("field " +:+ Field clause +:+ ": " +:+ err)
    | Panic p => Panic p
    end.
Proof.
  intros Hop. unfold clauseCondition. rewrite Hop.
  destruct (mapValues fieldConfig (Values clause)) as [mapped|e|p]; try done.
  unfold Contains. simpl. rewrite andb_false_r. done.
Qed.

Lemma clauseCondition_eq (fieldConfig : FilterToSpannerFieldConfig) (clause : Clause)
    (paramName : string) :
  Operator clause = "=" ->
  clauseCondition fieldConfig clause paramName
  = match mapValues fieldConfig (Values clause) with
    | Ok mapped =>
        if (1 <? length (Values clause))%nat
        then Err ("operator = doesn't support multiple values in field: "
                  +:+ Field clause)
        else
          '(operator, forceLowercase, mappedValue) ←
              prefixSuffixMatch fieldConfig "=" mapped;
          if (forceLowercase : bool) && AllowCaseInsensitiveMatch fieldConfig
          then Ok (["LOWER(" +:+ columnNameOf fieldConfig clause +:+ ")" +:+ operator
                    +:+ "LOWER(@" +:+ paramName +:+ ")"], mappedValue)
          else Ok ([columnNameOf fieldConfig clause +:+ operator +:+ "@" +:+ paramName],
                   mappedValue)
    | Err err => Err ("field " +:+ Field clause +:+ ": " +:+ err)
    | Panic p => Panic p
    end.
Proof.
  intros Hop. unfold clauseCondition. rewrite Hop.
  destruct (mapValues fieldConfig (Values clause)) as [mapped|e|p]; try done.
  unfold Contains. simpl. rewrite andb_true_r, andb_false_r.
  destruct (1 <? length (Values clause))%nat; done.
Qed.

Lemma clauseCondition_range (fieldConfig : FilterToSpannerFieldConfig) (clause : Clause)
    (paramName : string) :
  Contains [">="; "<="; ">"; "<"] (Operator clause) = true ->
  clauseCondition fieldConfig clause paramName
  = match mapValues fieldConfig (Values clause) with
    | Ok mapped =>
        if (1 <? length (Values clause))%nat
        then Err ("operator " +:+ Operator clause
                  +:+ " doesn't support multiple values in field: " +:+ Field clause)
        else if negb (AllowRanges fieldConfig)
        then Err ("operator " +:+ Operator clause +:+ " not supported for field: "
                  +:+ Field clause)
        else
          match ColumnType fieldConfig with
          | FilterToSpannerFieldColumnTypeInt64
          | FilterToSpannerFieldColumnTypeFloat64
          | FilterToSpannerFieldColumnTypeTimestamp =>
              Ok ([columnNameOf fieldConfig clause +:+ Operator clause +:+ "@"
                   +:+ paramName], mapped)
          | _ =>
              Err ("operator " +:+ Operator clause +:+ " not supported for field type "
                   +:+ FilterToSpannerFieldColumnType_String (ColumnType fieldConfig))
          end
    | Err err => Err ("field " +:+ Field clause +:+ ": " +:+ err)
    | Panic p => Panic p
    end.
Proof.
  intros Hop. unfold clauseCondition.
  destruct (mapValues fieldConfig (Values clause)) as [mapped|e|p]; try done.
  assert (Contains ["IN"; "<@"; ">@"] (Operator clause) = false
          /\ Contains ["="; "!="] (Operator clause) = false) as [-> ->].
  { revert Hop. unfold Contains. cbn [existsb].
    destruct (String.eqb_spec (Operator clause) ">=") as [->|_]; [done|].
    destruct (String.eqb_spec (Operator clause) "<=") as [->|_]; [done|].
    destruct (String.eqb_spec (Operator clause) ">") as [->|_]; [done|].
    destruct (String.eqb_spec (Operator clause) "<") as [->|_]; done. }
  rewrite Hop. simpl. rewrite andb_true_r. done.
Qed.

(** A successful call went through the three parts of the loop around any
    clause of the filter. *)
Lemma ToSpannerSQL_split (f : Filter) (fieldConfigs : FieldConfigs)
    (conds : list string) (ps : gmap string Value) (pre post : list Clause) (c : Clause) :
  Clauses f = pre ++ c :: post ->
  ToSpannerSQL f fieldConfigs = Ok (conds, ps) ->
  exists st1 st2 st3,
    ToSpannerSQL_loop fieldConfigs f pre (mkLoopState [] ∅ 0) = Ok st1
    /\ ToSpannerSQL_clause fieldConfigs f st1 c = Ok st2
    /\ ToSpannerSQL_loop fieldConfigs f post st2 = Ok st3
    /\ conds = condAnds st3 /\ ps = params st3.
Proof.
  intros Hf. unfold ToSpannerSQL. rewrite Hf, ToSpannerSQL_loop_app.
  destruct (ToSpannerSQL_loop fieldConfigs f pre _) as [st1|e|p] eqn:E1;
    simpl; try done.
  destruct (ToSpannerSQL_clause fieldConfigs f st1 c) as [st2|e|p] eqn:E2;
    simpl; try done.
  destruct (ToSpannerSQL_loop fieldConfigs f post st2) as [st3|e|p] eqn:E3;
    simpl; try done.
  destruct (checkRequired fieldConfigs f) as [[]|e|p]; simpl; try done.
  intros [= <- <-]. by exists st1, st2, st3.
Qed.

(** In a successful call every clause has a config. *)
Lemma ToSpannerSQL_resolves (f : Filter) (fieldConfigs : FieldConfigs)
    (conds : list string) (ps : gmap string Value) (pre post : list Clause) (c : Clause) :
  Clauses f = pre ++ c :: post ->
  ToSpannerSQL f fieldConfigs = Ok (conds, ps) ->
  exists fieldConfig, resolveFieldConfig fieldConfigs c = Ok fieldConfig.
Proof.
  intros Hf Hok.
  destruct (ToSpannerSQL_split _ _ _ _ _ _ _ Hf Hok) as (st1 & st2 & st3 & _ & Hc & _).
  apply ToSpannerSQL_clause_inv in Hc as (fc & Hres & _). eauto.
Qed.

(** In a successful call, a lowered clause that follows the clauses [pre]
    computed its conditions for the placeholder [placeholderIndex pre]; the
    conditions are among those returned and the placeholder is bound to the
    clause's value.  When the operators of the filter are among the nine, the
    clause has one condition, at the index of its placeholder. *)
Lemma ToSpannerSQL_lowered_clause (f : Filter) (fieldConfigs : FieldConfigs)
    (conds : list string) (ps : gmap string Value) (pre post : list Clause) (c : Clause)
    (fieldConfig : FilterToSpannerFieldConfig) :
  Clauses f = pre ++ c :: post ->
  ToSpannerSQL f fieldConfigs = Ok (conds, ps) ->
  resolveFieldConfig fieldConfigs c = Ok fieldConfig ->
  Ignore fieldConfig = false ->
  let k := placeholderIndex fieldConfigs pre in
  exists newConds v,
    clauseCondition fieldConfig c (paramNameOf k) = Ok (newConds, v)
    /\ ps !! paramNameOf k = Some v
    /\ (forall cond, cond ∈ newConds -> cond ∈ conds)
    /\ (Forall (fun c => knownOperator (Operator c) = true) (Clauses f) ->
        exists cond, newConds = [cond] /\ conds !! k = Some cond).
Proof.
  intros Hf Hok Hres Hign k.
  destruct (ToSpannerSQL_split _ _ _ _ _ _ _ Hf Hok)
    as (st1 & st2 & st3 & Hpre & Hc & Hpost & -> & ->).
  apply ToSpannerSQL_loop_inv in Hpre as (Hidx1 & (new1 & Hc1 & Hlen1) & _ & _).
  apply ToSpannerSQL_loop_inv in Hpost as (_ & (new3 & Hc3 & _) & Hkeep & _).
  apply ToSpannerSQL_clause_inv in Hc as (fc & Hres' & Hc).
  rewrite Hres in Hres'. injection Hres' as <-. rewrite Hign in Hc.
  destruct Hc as (newConds & v & _ & Hcond & ->). simpl in *.
  assert (paramIndex st1 = k) as Hk by (subst k; lia). rewrite Hk in *.
  exists newConds, v. split; [done|]. split.
  { rewrite Hkeep by lia. apply lookup_insert_eq. }
  split.
  { intros cond Hin. rewrite Hc3. set_solver. }
  intros Hknown. rewrite Hf in Hknown.
  apply Forall_app in Hknown as [Hkpre Hkc]. apply Forall_cons in Hkc as [Hkc' _].
  destruct (clauseCondition_one _ _ _ _ _ Hkc' Hcond) as [cond ->].
  exists cond. split; [done|].
  rewrite Hc3, Hc1. simpl. rewrite <- app_assoc.
  rewrite lookup_app_r by (rewrite Hlen1 by done; lia).
  rewrite Hlen1 by done. by rewrite Nat.sub_diag.
Qed.

(** Outside the nine operators the switch on the operator has no case: no
    condition is appended. *)
Lemma clauseCondition_without_case (fieldConfig : FilterToSpannerFieldConfig)
    (clause : Clause) (paramName : string) (conds : list string) (v : Value) :
  knownOperator (Operator clause) = false ->
  clauseCondition fieldConfig clause paramName = Ok (conds, v) ->
  conds = [].
Proof.
  intros Hknown.
  assert (Contains ["IN"; "<@"; ">@"] (Operator clause) = false
          /\ Contains ["="; "!="] (Operator clause) = false
          /\ Contains [">="; "<="; ">"; "<"] (Operator clause) = false)
    as (Hin & Heq & Hrange).
  { revert Hknown. unfold knownOperator, Contains. cbn [existsb].
    repeat match goal with |- context [String.eqb (Operator clause) ?s] =>
      destruct (String.eqb (Operator clause) s) end; done. }
  unfold clauseCondition. rewrite Hin, Heq, Hrange.
  destruct (mapValues fieldConfig (Values clause)) as [mapped|e|p]; simpl; try done.
  destruct (1 <? length (Values clause))%nat; simpl; [done|]. by intros [= <- _].
Qed.

(** The loop appends one condition for each clause that emits a predicate. *)
Lemma ToSpannerSQL_loop_predicates (fieldConfigs : FieldConfigs) (f : Filter)
    (clauses : list Clause) (st st' : LoopState) :
  ToSpannerSQL_loop fieldConfigs f clauses st = Ok st' ->
  length (condAnds st') = length (condAnds st) + predicateIndex fieldConfigs clauses.
Proof.
  revert st. induction clauses as [|c rest IH]; intros st; simpl.
  - intros [= <-]. unfold predicateIndex. simpl. lia.
  - destruct (ToSpannerSQL_clause fieldConfigs f st c) as [st1|e|p] eqn:Hc;
      simpl; try done.
    intros Hloop%IH. rewrite Hloop.
    apply ToSpannerSQL_clause_inv in Hc as (fc & Hres & Hc).
    unfold predicateIndex, emitsPredicate, lowered. simpl. rewrite Hres.
    destruct (Ignore fc); simpl; [by subst st1|].
    destruct Hc as (conds & v & _ & Hcond & ->). simpl. rewrite length_app.
    destruct (knownOperator (Operator c)) eqn:Hknown; simpl.
    + destruct (clauseCondition_one _ _ _ _ _ Hknown Hcond) as [cond ->]. simpl. lia.
    + rewrite (clauseCondition_without_case _ _ _ _ _ Hknown Hcond). simpl. lia.
Qed.

Lemma predicateIndex_known (fieldConfigs : FieldConfigs) (clauses : list Clause) :
  Forall (fun c => knownOperator (Operator c) = true) clauses ->
  predicateIndex fieldConfigs clauses = placeholderIndex fieldConfigs clauses.
Proof.
  unfold predicateIndex, placeholderIndex, emitsPredicate.
  induction 1 as [|c rest Hc _ IH]; simpl; [done|].
  rewrite Hc, andb_true_r. destruct (lowered fieldConfigs c); simpl; by rewrite IH.
Qed.

(** C3: when [ToSpannerSQL] lowers a filter with success, the keys of the
    parameter map are exactly [KQL0 .. KQL(M-1)], [M] the number of clauses
    that are not ignored: the clause that follows [pre] has its value under
    the placeholder of index [placeholderIndex pre], and an ignored clause
    takes no index.  The number [N] of conditions returned is the number of
    those clauses whose operator is one of the nine of the data model: such
    a clause has its one condition at index [predicateIndex pre], a clause
    with any other operator binds its placeholder and appends no condition.
    So [N = M] when the operators of the filter are among the nine. *)
Theorem C3_placeholders_consecutive (f : Filter) (fieldConfigs : FieldConfigs)
    (conds : list string) (ps : gmap string Value) :
  ToSpannerSQL f fieldConfigs = Ok (conds, ps) ->
  let M := placeholderIndex fieldConfigs (Clauses f) in
  let N := length conds in
  dom ps = list_to_set (paramNameOf <$> seq 0 M)
  /\ size ps = M
  /\ N = predicateIndex fieldConfigs (Clauses f)
  /\ (Forall (fun c => knownOperator (Operator c) = true) (Clauses f) -> N = M)
  /\ forall pre c post,
       Clauses f = pre ++ c :: post ->
       let k := placeholderIndex fieldConfigs pre in
       if lowered fieldConfigs c
       then placeholderIndex fieldConfigs (pre ++ [c]) = S k
            /\ exists fieldConfig newConds v,
                 resolveFieldConfig fieldConfigs c = Ok fieldConfig
                 /\ clauseCondition fieldConfig c (paramNameOf k) = Ok (newConds, v)
                 /\ ps !! paramNameOf k = Some v
                 /\ if knownOperator (Operator c)
                    then exists cond,
                           newConds = [cond]
                           /\ conds !! predicateIndex fieldConfigs pre = Some cond
                    else newConds = []
       else placeholderIndex fieldConfigs (pre ++ [c]) = k.
Proof.
  intros Hok M N.
  assert (N = predicateIndex fieldConfigs (Clauses f)
          /\ forall key, is_Some (ps !! key) <-> exists i, i < M /\ key = paramNameOf i)
    as [HN Hkeys].
  { unfold ToSpannerSQL in Hok.
    destruct (ToSpannerSQL_loop fieldConfigs f (Clauses f) _) as [st|e|p] eqn:Hloop;
      simpl in Hok; try done.
    destruct (checkRequired fieldConfigs f) as [[]|e|p]; simpl in Hok; try done.
    injection Hok as <- <-.
    pose proof (ToSpannerSQL_loop_predicates _ _ _ _ _ Hloop) as Hcount.
    apply ToSpannerSQL_loop_inv in Hloop as (Hidx & _ & _ & Hdom).
    simpl in *. split; [done|].
    intros key. rewrite Hdom, lookup_empty. subst M. split.
    - intros [[? ?]|(i & Hi & ->)]; [done|]. exists i. split; [lia|done].
    - intros (i & Hi & ->). right. exists i. split; [lia|done]. }
  assert (dom ps = list_to_set (paramNameOf <$> seq 0 M)) as Hdom.
  { apply set_eq. intros key.
    rewrite elem_of_dom, Hkeys, elem_of_list_to_set, list_elem_of_fmap.
    split.
    - intros (i & Hi & ->). exists i. split; [done|]. apply elem_of_seq. lia.
    - intros (i & -> & Hi%elem_of_seq). exists i. split; [lia|done]. }
  split; [exact Hdom|]. split.
  { rewrite <- size_dom, Hdom, size_list_to_set.
    - by rewrite length_fmap, length_seq.
    - apply NoDup_fmap_2; [intros i j; apply paramNameOf_inj | apply NoDup_seq]. }
  split; [exact HN|]. split.
  { intros Hknown. rewrite HN. by apply predicateIndex_known. }
  intros pre c post Hf k.
  unfold placeholderIndex. rewrite List.filter_app, length_app. simpl.
  destruct (lowered fieldConfigs c) eqn:Hlow; simpl; [|subst k; unfold placeholderIndex; lia].
  split; [subst k; unfold placeholderIndex; lia|].
  unfold lowered in Hlow.
  destruct (resolveFieldConfig fieldConfigs c) as [fc|e|p] eqn:Hres; try done.
  apply negb_true_iff in Hlow.
  destruct (ToSpannerSQL_split _ _ _ _ _ _ _ Hf Hok)
    as (st1 & st2 & st3 & Hpre & Hc & Hpost & -> & ->).
  assert (length (condAnds st1) = predicateIndex fieldConfigs pre) as Hcount1
    by exact (ToSpannerSQL_loop_predicates _ _ _ _ _ Hpre).
  apply ToSpannerSQL_loop_inv in Hpre as (Hidx1 & _ & _ & _).
  assert (paramIndex st1 = k) as Hk by exact Hidx1.
  apply ToSpannerSQL_loop_inv in Hpost as (_ & (new3 & Hc3 & _) & Hkeep & _).
  apply ToSpannerSQL_clause_inv in Hc as (fc' & Hres' & Hc).
  rewrite Hres in Hres'. injection Hres' as <-. rewrite Hlow in Hc.
  destruct Hc as (newConds & v & _ & Hcond & ->).
  cbn [condAnds params paramIndex] in *. rewrite Hk in *.
  exists fc, newConds, v. split; [done|]. split; [done|]. split.
  { rewrite Hkeep by lia. apply lookup_insert_eq. }
  destruct (knownOperator (Operator c)) eqn:Hknown.
  - destruct (clauseCondition_one _ _ _ _ _ Hknown Hcond) as [cond ->].
    exists cond. split; [done|].
    rewrite Hc3, <- app_assoc, lookup_app_r by lia.
    rewrite Hcount1. by rewrite Nat.sub_diag.
  - by apply (clauseCondition_without_case _ _ _ _ _ Hknown Hcond).
Qed.

End SpannerFacts.

(** ** Removing repetitions *)

Section Unique.
Context {T : Type} (eqb : T -> T -> bool).

Lemma existsb_eqb_false (l : list T) (x y : T) :
  existsb (fun k => eqb k x) l = false -> y ∈ l -> eqb y x = false.
Proof.
  intros Hex Hin. apply list_elem_of_In in Hin.
  destruct (eqb y x) eqn:E; [|done].
  assert (existsb (fun k => eqb k x) l = true) as Ht; [|congruence].
  apply existsb_exists. eauto.
Qed.

Lemma noDuplicates_snoc (u : list T) (x : T) :
  noDuplicates eqb u -> (forall y, y ∈ u -> eqb y x = false) ->
  noDuplicates eqb (u ++ [x]).
Proof.
  intros Hu Hx i j a b Hij Hi Hj.
  destruct (decide (j < length u)) as [Hlt|Hge].
  - rewrite lookup_app_l in Hi, Hj by lia. eauto.
  - rewrite lookup_app_r in Hj by lia.
    destruct (j - length u) as [|n] eqn:E; [|by destruct n].
    simpl in Hj. injection Hj as <-.
    rewrite lookup_app_l in Hi by lia.
    apply Hx. eapply list_elem_of_lookup_2. exact Hi.
Qed.

(** The loop keeps [uniqueSlice] without repetition when [seen] holds its
    elements. *)
Lemma uniqueSliceElements_loop_noDuplicates (inputSlice uniqueSlice seen : list T) :
  noDuplicates eqb uniqueSlice ->
  (forall y, y ∈ uniqueSlice -> y ∈ seen) ->
  noDuplicates eqb (uniqueSliceElements_loop eqb inputSlice uniqueSlice seen).
Proof.
  revert uniqueSlice seen.
  induction inputSlice as [|x rest IH]; intros u seen Hu Hseen; simpl; [done|].
  destruct (existsb (fun k => eqb k x) seen) eqn:Hex; simpl; [by apply IH|].
  apply IH.
  - apply noDuplicates_snoc; [done|].
    intros y Hy. eapply existsb_eqb_false; eauto.
  - intros y [Hy| ->%list_elem_of_singleton]%elem_of_app; set_solver.
Qed.

Lemma uniqueSliceElements_noDuplicates (inputSlice : list T) :
  noDuplicates eqb (uniqueSliceElements eqb inputSlice).
Proof.
  apply uniqueSliceElements_loop_noDuplicates; [|set_solver].
  intros i j x y _ Hi. by rewrite lookup_nil in Hi.
Qed.

Hypothesis eqb_sym : forall x y, eqb x y = eqb y x.
Hypothesis eqb_trans : forall x y z, eqb x y = true -> eqb y z = true -> eqb x z = true.

(** For the next value, looking among the values kept and looking among all
    values passed agree: a value passed that equals itself equals a value
    kept. *)
Lemma uniqueSliceElements_loop_firstOccurrences
    (inputSlice uniqueSlice seen earlier : list T) :
  (forall k, k ∈ seen -> k ∈ earlier) ->
  (forall e, e ∈ earlier -> eqb e e = true -> exists k, k ∈ seen /\ eqb k e = true) ->
  uniqueSliceElements_loop eqb inputSlice uniqueSlice seen
  = uniqueSlice ++ firstOccurrencesFrom eqb earlier inputSlice.
Proof.
  revert uniqueSlice seen earlier.
  induction inputSlice as [|x rest IH]; intros u seen earlier Hsub Hcov; simpl.
  - by rewrite app_nil_r.
  - assert (existsb (fun k => eqb k x) seen = existsb (fun e => eqb e x) earlier) as ->.
    { apply eq_true_iff_eq. rewrite !existsb_exists. split.
      - intros (k & Hk%list_elem_of_In & Hkx). exists k. split; [|done].
        apply list_elem_of_In. auto.
      - intros (e & He%list_elem_of_In & Hex).
        destruct (Hcov e He) as (k & Hk & Hke).
        { apply eqb_trans with x; [done|]. by rewrite eqb_sym. }
        exists k. split; [by apply list_elem_of_In|]. by apply eqb_trans with e. }
    destruct (existsb (fun e => eqb e x) earlier) eqn:Hex; simpl.
    + apply IH.
      * intros k Hk. set_solver.
      * intros e [->|He]%elem_of_cons Hee; [|by apply Hcov].
        apply existsb_exists in Hex as (e' & He'%list_elem_of_In & He'x).
        destruct (Hcov e' He') as (k & Hk & Hke').
        { apply eqb_trans with x; [done|]. by rewrite eqb_sym. }
        exists k. split; [done|]. by apply eqb_trans with e'.
    + rewrite (IH (u ++ [x]) (x :: seen) (x :: earlier)).
      * by rewrite <- app_assoc.
      * intros k [->|Hk]%elem_of_cons; set_solver.
      * intros e [->|He]%elem_of_cons Hee.
        -- exists x. split; [set_solver|done].
        -- destruct (Hcov e He Hee) as (k & Hk & Hke). exists k. split; [set_solver|done].
Qed.

(** [uniqueSliceElements] returns the first occurrences, in order. *)
Lemma uniqueSliceElements_firstOccurrences (inputSlice : list T) :
  uniqueSliceElements eqb inputSlice = firstOccurrences eqb inputSlice.
Proof.
  unfold uniqueSliceElements, firstOccurrences.
  rewrite (uniqueSliceElements_loop_firstOccurrences inputSlice [] [] []); set_solver.
Qed.

End Unique.

(** Where [==] is equality, a list without repetition under [==] has no
    duplicates. *)
Lemma noDuplicates_NoDup {T} (eqb : T -> T -> bool) (l : list T) :
  (forall x, eqb x x = true) -> noDuplicates eqb l -> NoDup l.
Proof.
  intros Hrefl Hl. apply NoDup_alt. intros i j x Hi Hj.
  destruct (Nat.lt_trichotomy i j) as [Hlt|[Heq|Hgt]]; [|done|].
  - specialize (Hl i j x x Hlt Hi Hj). rewrite Hrefl in Hl. done.
  - specialize (Hl j i x x Hgt Hj Hi). rewrite Hrefl in Hl. done.
Qed.

(** ** The Spanner lowering: the clauses *)

Section SpannerClauses.
Context `{GoRuntime}.

Lemma mapValues_hook_length (hook : string -> Result Value) (values : list string)
    (outputValue l : list Value) :
  mapValues_hook hook values outputValue = Ok l ->
  length l = length outputValue + length values.
Proof.
  revert outputValue. induction values as [|v rest IH]; intros acc; simpl.
  - intros [= <-]. lia.
  - destruct (hook v) as [m|e|p]; simpl; try done.
    intros Hl%IH. rewrite length_app in Hl. simpl in Hl. lia.
Qed.

Lemma unwrapSlice_VStrings (l : list string) :
  length l <> 1 -> unwrapSlice (VStrings l) = Ok (VStrings l).
Proof. intros Hl. unfold unwrapSlice. simpl. by destruct l as [|x [|y l']]. Qed.

Lemma unwrapSlice_VAnys (l : list Value) :
  length l <> 1 -> unwrapSlice (VAnys l) = Ok (VAnys l).
Proof. intros Hl. unfold unwrapSlice. simpl. by destruct l as [|x [|y l']]. Qed.

(** Without one of the three flags, a list of values that is not a single
    value is refused. *)
Lemma mapValues_multiple_refused (fieldConfig : FilterToSpannerFieldConfig)
    (values : list string) (v : Value) :
  AllowMultipleValues fieldConfig || AllowContains fieldConfig
  || AllowContainedBy fieldConfig = false ->
  length values <> 1 ->
  mapValues fieldConfig values <> Ok v.
Proof.
  intros Hflags Hlen. unfold mapValues. rewrite Hflags.
  destruct (MapValue fieldConfig) as [hook|]; simpl.
  - destruct (mapValues_hook hook values []) as [l|e|p] eqn:Hhook; simpl; try done.
    apply mapValues_hook_length in Hhook. simpl in Hhook.
    rewrite unwrapSlice_VAnys by lia. done.
  - rewrite unwrapSlice_VStrings by done. done.
Qed.

Lemma mapValues_multiple_error (fieldConfig : FilterToSpannerFieldConfig)
    (values : list string) :
  MapValue fieldConfig = None ->
  AllowMultipleValues fieldConfig || AllowContains fieldConfig
  || AllowContainedBy fieldConfig = false ->
  length values <> 1 ->
  mapValues fieldConfig values = Err "multiple values are not allowed".
Proof.
  intros Hhook Hflags Hlen. unfold mapValues. rewrite Hflags, Hhook. simpl.
  rewrite unwrapSlice_VStrings by done. done.
Qed.

(** The call fails with the error of the first clause that fails. *)
Lemma ToSpannerSQL_clause_error (f : Filter) (fieldConfigs : FieldConfigs)
    (pre post : list Clause) (c : Clause) (st : LoopState) (e : string) :
  Clauses f = pre ++ c :: post ->
  ToSpannerSQL_loop fieldConfigs f pre (mkLoopState [] ∅ 0) = Ok st ->
  ToSpannerSQL_clause fieldConfigs f st c = Err e ->
  ToSpannerSQL f fieldConfigs = Err e.
Proof.
  intros Hf Hpre Hc. unfold ToSpannerSQL.
  rewrite Hf, ToSpannerSQL_loop_app, Hpre. simpl. by rewrite Hc.
Qed.

(** The error of a clause whose config is resolved and not ignored, whose
    required fields are there, and whose condition fails. *)
Lemma ToSpannerSQL_clause_condition_error (f : Filter) (fieldConfigs : FieldConfigs)
    (c : Clause) (st : LoopState) (fieldConfig : FilterToSpannerFieldConfig) (e : string) :
  resolveFieldConfig fieldConfigs c = Ok fieldConfig ->
  Ignore fieldConfig = false ->
  checkRequires fieldConfig (Clauses f) c (Requires fieldConfig) = Ok tt ->
  clauseCondition fieldConfig c (paramNameOf (paramIndex st)) = Err e ->
  ToSpannerSQL_clause fieldConfigs f st c = Err e.
Proof.
  intros Hres Hign Hreq Hcond. unfold ToSpannerSQL_clause.
  rewrite Hres. simpl. rewrite Hign, Hreq. simpl. by rewrite Hcond.
Qed.

(** *** The array of an array operator *)

Lemma mapValues_hook_spec (hook : string -> Result Value) (values : list string)
    (outputValue l : list Value) :
  mapValues_hook hook values outputValue = Ok l ->
  exists hl, l = outputValue ++ hl /\ Forall2 (fun s m => hook s = Ok m) values hl.
Proof.
  revert outputValue. induction values as [|v rest IH]; intros acc; simpl.
  - intros [= <-]. exists []. by rewrite app_nil_r.
  - destruct (hook v) as [m|e|p] eqn:Hm; simpl; try done.
    intros (hl & -> & Hall)%IH. exists (m :: hl). rewrite <- app_assoc.
    split; [done|]. by constructor.
Qed.

Lemma parseAnyToSlice_loop_spec {T} (name : string) (assert : Value -> option T)
    (sVal : list Value) (typeSlice l : list T) :
  parseAnyToSlice_loop name assert sVal typeSlice = Ok l ->
  exists xs, l = typeSlice ++ xs /\ Forall2 (fun m x => assert m = Some x) sVal xs.
Proof.
  revert typeSlice. induction sVal as [|m rest IH]; intros acc; simpl.
  - intros [= <-]. exists []. by rewrite app_nil_r.
  - destruct (assert m) as [x|] eqn:Hm; [|done].
    intros (xs & -> & Hall)%IH. exists (x :: xs). rewrite <- app_assoc.
    split; [done|]. by constructor.
Qed.

Lemma mapValues_convertEach_spec {T} (assert : Value -> option T)
    (f : FilterToSpannerFieldConfig) (ov : list string) (l : list T) :
  mapValues_convertEach assert f ov = Ok l ->
  Forall2 (fun s x => exists val, convertValue f s = Ok val /\ assert val = Some x) ov l.
Proof.
  revert l. induction ov as [|s rest IH]; intros l; simpl.
  - intros [= <-]. constructor.
  - destruct (convertValue f s) as [val|e|p] eqn:Hv; simpl; try done.
    destruct (assert val) as [x|] eqn:Ha; [|done].
    destruct (mapValues_convertEach assert f rest) as [out|e|p]; simpl; try done.
    intros [= <-]. constructor; eauto.
Qed.

Ltac mapValues_switch :=
  match goal with
  | |- context [match ?out with VNil => _ | _ => _ end] =>
      destruct out; simpl; try (by intros [= <-]); try done
  end;
  match goal with
  | |- context [ColumnType ?f] =>
      destruct (ColumnType f); simpl; try (by intros [= <-])
  end;
  match goal with
  | |- context [mapValues_convertEach ?a ?f ?ov] =>
      destruct (mapValues_convertEach a f ov) as [?|?|?]; simpl; try done;
      intros [= <-]; eauto
  end.

(** The output of [mapValues] before and after its last type switch. *)
Lemma mapValues_inv (f : FilterToSpannerFieldConfig) (values : list string) (mapped : Value) :
  mapValues f values = Ok mapped ->
  exists out,
    match MapValue f with
    | None => out = match values with [s] => VString s | _ => VStrings values end
    | Some hook =>
        match values with
        | [s] => hook s = Ok out
        | _ => exists hl, Forall2 (fun s m => hook s = Ok m) values hl /\ out = VAnys hl
        end
    end
    /\ mapValues_result f out mapped.
Proof.
  unfold mapValues.
  assert (forall out,
    (multiple ← (if negb (AllowMultipleValues f || AllowContains f || AllowContainedBy f)
                 then kindIsSlice out else Ok false);
     if (multiple : bool) then Err "multiple values are not allowed"
     else match out with
          | VString ov => convertValue f ov
          | VStrings ov =>
              match ColumnType f with
              | FilterToSpannerFieldColumnTypeInt64 =>
                  outSlice ← mapValues_convertEach assertInt64 f ov; Ok (VInt64s outSlice)
              | FilterToSpannerFieldColumnTypeFloat64 =>
                  outSlice ← mapValues_convertEach assertFloat64 f ov;
                  Ok (VFloat64s outSlice)
              | FilterToSpannerFieldColumnTypeBool =>
                  outSlice ← mapValues_convertEach assertBool f ov; Ok (VBools outSlice)
              | FilterToSpannerFieldColumnTypeTimestamp =>
                  outSlice ← mapValues_convertEach assertTime f ov; Ok (VTimes outSlice)
              | _ => Ok out
              end
          | _ => Ok out
          end) = Ok mapped ->
    mapValues_result f out mapped) as Htail.
  { intros out. unfold mapValues_result.
    destruct (negb _); simpl.
    - destruct (kindIsSlice out) as [[|]|e|p]; simpl; try done. mapValues_switch.
    - mapValues_switch. }
  destruct (MapValue f) as [hook|]; simpl.
  - destruct (mapValues_hook hook values []) as [hl|e|p] eqn:Hh; simpl; try done.
    apply mapValues_hook_spec in Hh as (hl' & -> & Hall). simpl.
    destruct values as [|s [|s' rest]].
    + inversion Hall; subst. unfold unwrapSlice. simpl.
      intros Hrest. exists (VAnys []). split; [by exists []|]. exact (Htail (VAnys []) Hrest).
    + inversion Hall as [|? m ? ? Hm Hrest']; inversion Hrest'; subst.
      unfold unwrapSlice. simpl.
      intros Hrest. exists m. split; [done|]. exact (Htail m Hrest).
    + rewrite unwrapSlice_VAnys
        by (apply Forall2_length in Hall; simpl in Hall; lia). simpl.
      intros Hrest. exists (VAnys hl'). split; [by exists hl'|]. exact (Htail (VAnys hl') Hrest).
  - destruct values as [|s [|s' rest]].
    + unfold unwrapSlice. simpl.
      intros Hrest. exists (VStrings []). split; [done|]. exact (Htail (VStrings []) Hrest).
    + unfold unwrapSlice. simpl.
      intros Hrest. exists (VString s). split; [done|]. exact (Htail (VString s) Hrest).
    + rewrite unwrapSlice_VStrings by (simpl; lia). simpl.
      intros Hrest. exists (VStrings (s :: s' :: rest)). split; [done|]. exact (Htail (VStrings (s :: s' :: rest)) Hrest).
Qed.


Lemma parseAnyToSlice_anys {T} (name : string) (assert : Value -> option T)
    (assertSlice : Value -> option (list T)) (ms : list Value) (l : list T) :
  assert (VAnys ms) = None -> assertSlice (VAnys ms) = None ->
  parseAnyToSlice name assert assertSlice (VAnys ms) = Ok l ->
  Forall2 (fun m x => assert m = Some x) ms l.
Proof.
  intros Ha Hs. unfold parseAnyToSlice. rewrite Ha, Hs.
  by intros (xs & -> & Hall)%parseAnyToSlice_loop_spec.
Qed.

Lemma Forall2_assert {T} (assert : Value -> option T) (inj : T -> Value)
    (ms : list Value) (l : list T) :
  (forall m x, assert m = Some x -> m = inj x) ->
  Forall2 (fun m x => assert m = Some x) ms l -> ms = inj <$> l.
Proof.
  intros Hinj. induction 1 as [|m x ms l Hm _ IH]; simpl; [done|].
  by rewrite (Hinj _ _ Hm), IH.
Qed.

Lemma assertString_inv (m : Value) (x : string) : assertString m = Some x -> m = VString x.
Proof. destruct m; simpl; congruence. Qed.
Lemma assertInt64_inv (m : Value) (x : Z) : assertInt64 m = Some x -> m = VInt64 x.
Proof. destruct m; simpl; congruence. Qed.
Lemma assertFloat64_inv (m : Value) (x : Float64) :
  assertFloat64 m = Some x -> m = VFloat64 x.
Proof. destruct m; simpl; congruence. Qed.
Lemma assertTime_inv (m : Value) (x : Time) : assertTime m = Some x -> m = VTime x.
Proof. destruct m; simpl; congruence. Qed.

Lemma mapValues_convertEach_typed {T} (assert : Value -> option T) (inj : T -> Value)
    (f : FilterToSpannerFieldConfig) (ov : list string) (l : list T) :
  (forall m x, assert m = Some x -> m = inj x) ->
  mapValues_convertEach assert f ov = Ok l ->
  Forall2 (fun s x => convertValue f s = Ok (inj x)) ov l.
Proof.
  intros Hinj Hl%mapValues_convertEach_spec.
  eapply Forall2_impl; [exact Hl|]. intros s x (val & Hval & Ha).
  by rewrite <- (Hinj _ _ Ha).
Qed.

Lemma Forall2_hook_assert {T} (assert : Value -> option T) (inj : T -> Value)
    (hook : string -> Result Value) (values : list string) (hl : list Value) (l : list T) :
  (forall m x, assert m = Some x -> m = inj x) ->
  Forall2 (fun s m => hook s = Ok m) values hl ->
  Forall2 (fun m x => assert m = Some x) hl l ->
  Forall2 (fun s x => hook s = Ok (inj x)) values l.
Proof.
  intros Hinj Hhook. revert l.
  induction Hhook as [|s m values hl Hm _ IH]; intros l Hassert.
  - inversion Hassert. constructor.
  - inversion Hassert as [|? x ? l' Ha Hrest]; subst.
    constructor; [by rewrite <- (Hinj _ _ Ha) | by apply IH].
Qed.

Ltac mappedElements_cases Hout Hres Hparse Hconv Hstrings inv :=
  unfold mappedElements;
  match goal with
  | |- match MapValue ?f with _ => _ end => destruct (MapValue f) as [hook|]
  end;
  [ match goal with
    | |- match ?values with _ => _ end => destruct values as [|s [|s' rest]]
    end;
    [ destruct Hout as (hl & Hall & ->); simpl in Hres; subst;
      apply parseAnyToSlice_anys in Hparse; [|done..];
      eapply Forall2_hook_assert; [apply inv | done..]
    | match type of Hout with
      | _ = Ok ?out =>
          exists out; split; [done|]; unfold hookResultElements;
          destruct out; try (by apply Hstrings);
          try (apply Hconv in Hres as Hx; destruct Hx as [x ->]);
          simpl in Hres; subst; simpl in Hparse; simplify_eq; eauto;
          apply parseAnyToSlice_loop_spec in Hparse as (xs & -> & Hall);
          eapply Forall2_assert; [apply inv | done]
      end
    | destruct Hout as (hl & Hall & ->); simpl in Hres; subst;
      apply parseAnyToSlice_anys in Hparse; [|done..];
      eapply Forall2_hook_assert; [apply inv | done..] ]
  | match goal with
    | |- Forall2 _ ?values _ =>
        destruct values as [|s [|s' rest]]; subst; try (by apply Hstrings);
        simpl in Hres; apply Hconv in Hres as Hx; destruct Hx as [x ->];
        simpl in Hparse; injection Hparse as <-; by constructor
    end ].

Lemma mappedElements_String (f : FilterToSpannerFieldConfig) (values : list string)
    (mapped : Value) (l : list string) :
  ColumnType f = FilterToSpannerFieldColumnTypeString ->
  mapValues f values = Ok mapped ->
  parseAnyToSlice "string" assertString assertStrings mapped = Ok l ->
  mappedElements VString VStrings f values l.
Proof.
  intros Hty (out & Hout & Hres)%mapValues_inv Hparse.
  assert (forall s, convertValue f s = Ok (VString s)) as Hid
    by (intros s; unfold convertValue; by rewrite Hty).
  assert (forall s v, convertValue f s = Ok v -> exists x, v = VString x) as Hconv.
  { intros s v. rewrite Hid. intros [= <-]. eauto. }
  assert (forall ov, mapValues_result f (VStrings ov) mapped ->
            Forall2 (fun s x => convertValue f s = Ok (VString x)) ov l) as Hstrings.
  { intros ov. unfold mapValues_result. rewrite Hty. intros ->.
    simpl in Hparse. injection Hparse as <-.
    apply Forall_Forall2_diag, Forall_forall. intros s _. apply Hid. }
  mappedElements_cases Hout Hres Hparse Hconv Hstrings assertString_inv.
Qed.

Lemma mappedElements_Int64 (f : FilterToSpannerFieldConfig) (values : list string)
    (mapped : Value) (l : list Z) :
  ColumnType f = FilterToSpannerFieldColumnTypeInt64 ->
  mapValues f values = Ok mapped ->
  parseAnyToSlice "int64" assertInt64 assertInt64s mapped = Ok l ->
  mappedElements VInt64 VInt64s f values l.
Proof.
  intros Hty (out & Hout & Hres)%mapValues_inv Hparse.
  assert (forall s v, convertValue f s = Ok v -> exists x, v = VInt64 x) as Hconv.
  { intros s v. unfold convertValue. rewrite Hty.
    destruct (ParseInt s); intros; simplify_eq; eauto. }
  assert (forall ov, mapValues_result f (VStrings ov) mapped ->
            Forall2 (fun s x => convertValue f s = Ok (VInt64 x)) ov l) as Hstrings.
  { intros ov. unfold mapValues_result. rewrite Hty. intros (l' & Hl' & ->).
    simpl in Hparse. injection Hparse as <-.
    eapply mapValues_convertEach_typed; [apply assertInt64_inv | done]. }
  mappedElements_cases Hout Hres Hparse Hconv Hstrings assertInt64_inv.
Qed.

Lemma mappedElements_Float64 (f : FilterToSpannerFieldConfig) (values : list string)
    (mapped : Value) (l : list Float64) :
  ColumnType f = FilterToSpannerFieldColumnTypeFloat64 ->
  mapValues f values = Ok mapped ->
  parseAnyToSlice "float64" assertFloat64 assertFloat64s mapped = Ok l ->
  mappedElements VFloat64 VFloat64s f values l.
Proof.
  intros Hty (out & Hout & Hres)%mapValues_inv Hparse.
  assert (forall s v, convertValue f s = Ok v -> exists x, v = VFloat64 x) as Hconv.
  { intros s v. unfold convertValue. rewrite Hty.
    destruct (ParseFloat s); intros; simplify_eq; eauto. }
  assert (forall ov, mapValues_result f (VStrings ov) mapped ->
            Forall2 (fun s x => convertValue f s = Ok (VFloat64 x)) ov l) as Hstrings.
  { intros ov. unfold mapValues_result. rewrite Hty. intros (l' & Hl' & ->).
    simpl in Hparse. injection Hparse as <-.
    eapply mapValues_convertEach_typed; [apply assertFloat64_inv | done]. }
  mappedElements_cases Hout Hres Hparse Hconv Hstrings assertFloat64_inv.
Qed.

Lemma mappedElements_Timestamp (f : FilterToSpannerFieldConfig) (values : list string)
    (mapped : Value) (l : list Time) :
  ColumnType f = FilterToSpannerFieldColumnTypeTimestamp ->
  mapValues f values = Ok mapped ->
  parseAnyToSlice "time.Time" assertTime assertTimes mapped = Ok l ->
  mappedElements VTime VTimes f values l.
Proof.
  intros Hty (out & Hout & Hres)%mapValues_inv Hparse.
  assert (forall s v, convertValue f s = Ok v -> exists x, v = VTime x) as Hconv.
  { intros s v. unfold convertValue. rewrite Hty.
    destruct (ParseTime s); intros; simplify_eq; eauto. }
  assert (forall ov, mapValues_result f (VStrings ov) mapped ->
            Forall2 (fun s x => convertValue f s = Ok (VTime x)) ov l) as Hstrings.
  { intros ov. unfold mapValues_result. rewrite Hty. intros (l' & Hl' & ->).
    simpl in Hparse. injection Hparse as <-.
    eapply mapValues_convertEach_typed; [apply assertTime_inv | done]. }
  mappedElements_cases Hout Hres Hparse Hconv Hstrings assertTime_inv.
Qed.

Lemma noDuplicates_NoDup_on {T} (eqb : T -> T -> bool) (l : list T) :
  (forall x, x ∈ l -> eqb x x = true) -> noDuplicates eqb l -> NoDup l.
Proof.
  intros Hrefl Hl. apply NoDup_alt. intros i j x Hi Hj.
  assert (eqb x x = true) as Hx by (eapply Hrefl, list_elem_of_lookup_2; exact Hi).
  destruct (Nat.lt_trichotomy i j) as [Hlt|[Heq|Hgt]]; [|done|].
  - specialize (Hl i j x x Hlt Hi Hj). congruence.
  - specialize (Hl j i x x Hgt Hj Hi). congruence.
Qed.

Lemma firstOccurrencesFrom_elem_of {T} (eqb : T -> T -> bool) (earlier l : list T) (x : T) :
  x ∈ firstOccurrencesFrom eqb earlier l -> x ∈ l.
Proof.
  revert earlier. induction l as [|y l IH]; intros earlier; simpl; [done|].
  destruct (existsb _ earlier).
  - intros Hx%IH. by right.
  - intros [->|Hx%IH]%elem_of_cons; [by left | by right].
Qed.

Lemma uniqueSliceElements_firstOccurrencesOf {T} (eqb : T -> T -> bool) (l : list T) :
  (forall x y, eqb x y = eqb y x) ->
  (forall x y z, eqb x y = true -> eqb y z = true -> eqb x z = true) ->
  firstOccurrencesOf eqb l (uniqueSliceElements eqb l).
Proof.
  intros Hsym Htrans. split; [by apply uniqueSliceElements_firstOccurrences|].
  split; [apply uniqueSliceElements_noDuplicates|].
  intros Hrefl. apply (noDuplicates_NoDup_on eqb).
  - intros x Hx. apply Hrefl.
    rewrite uniqueSliceElements_firstOccurrences in Hx by done.
    by apply firstOccurrencesFrom_elem_of in Hx.
  - apply uniqueSliceElements_noDuplicates.
Qed.

(** The array of lines 346-372 lists the first occurrences of the mapped and
    coerced values of the clause. *)
Lemma arrayParameter_deduplicated (f : FilterToSpannerFieldConfig) (operator : string)
    (values : list string) (mapped arr : Value) :
  mapValues f values = Ok mapped ->
  arrayParameter f operator mapped = Ok arr ->
  deduplicatedArray f values arr.
Proof.
  intros Hmap. unfold arrayParameter, deduplicatedArray.
  destruct (ColumnType f) eqn:Hty; try done.
  - destruct (parseAnyToSlice "string" _ _ mapped) as [l|e|p] eqn:Hparse;
      simpl; try done.
    intros [= <-]. exists l, (uniqueSliceElements String.eqb l).
    split; [by eapply mappedElements_String|]. split; [done|].
    assert (firstOccurrencesOf String.eqb l (uniqueSliceElements String.eqb l))
      as Hfirst.
    { apply uniqueSliceElements_firstOccurrencesOf; intros;
        first [apply String.eqb_sym | rewrite String.eqb_eq in *; congruence]. }
    split; [done|]. apply Hfirst. intros x _. apply String.eqb_refl.
  - destruct (parseAnyToSlice "int64" _ _ mapped) as [l|e|p] eqn:Hparse;
      simpl; try done.
    intros [= <-]. exists l, (uniqueSliceElements Z.eqb l).
    split; [by eapply mappedElements_Int64|]. split; [done|].
    assert (firstOccurrencesOf Z.eqb l (uniqueSliceElements Z.eqb l)) as Hfirst.
    { apply uniqueSliceElements_firstOccurrencesOf; intros;
        first [apply Z.eqb_sym | rewrite Z.eqb_eq in *; congruence]. }
    split; [done|]. apply Hfirst. intros x _. apply Z.eqb_refl.
  - destruct (parseAnyToSlice "float64" _ _ mapped) as [l|e|p] eqn:Hparse;
      simpl; try done.
    intros [= <-]. exists l, (uniqueSliceElements float_eqb l).
    split; [by eapply mappedElements_Float64|]. split; [done|].
    apply uniqueSliceElements_firstOccurrencesOf;
      [apply float_eqb_sym | apply float_eqb_trans].
  - destruct (parseAnyToSlice "time.Time" _ _ mapped) as [l|e|p] eqn:Hparse;
      simpl; try done.
    intros [= <-]. exists l, (uniqueSliceElements time_eqb l).
    split; [by eapply mappedElements_Timestamp|]. split; [done|].
    apply uniqueSliceElements_firstOccurrencesOf;
      [apply time_eqb_sym | apply time_eqb_trans].
Qed.

(** C9: in a successful call, the placeholder of an [IN] clause over a STRING,
    INT64, FLOAT64 or TIMESTAMP column is bound to an array that lists the
    first occurrences, under Go's [==] of the element type, of the clause's
    mapped and coerced values, in their order; no two elements of the array
    are equal under [==].  For strings and integers the array has no
    duplicates; for floats and timestamps it has none when every value
    equals itself under [==], which a NaN does not.  Over another column
    type the call does not succeed. *)
Theorem C9_in_array_deduplicated (f : Filter) (fieldConfigs : FieldConfigs)
    (conds : list string) (ps : gmap string Value) (pre post : list Clause) (c : Clause)
    (fieldConfig : FilterToSpannerFieldConfig) :
  Clauses f = pre ++ c :: post ->
  Operator c = "IN" ->
  resolveFieldConfig fieldConfigs c = Ok fieldConfig ->
  Ignore fieldConfig = false ->
  ToSpannerSQL f fieldConfigs = Ok (conds, ps) ->
  let P := paramNameOf (placeholderIndex fieldConfigs pre) in
  exists mapped arr,
    mapValues fieldConfig (Values c) = Ok mapped
    /\ arrayParameter fieldConfig "IN" mapped = Ok arr
    /\ ps !! P = Some arr
    /\ deduplicatedArray fieldConfig (Values c) arr.
Proof.
  intros Hf Hop Hres Hign Hok P.
  destruct (ToSpannerSQL_lowered_clause _ _ _ _ _ _ _ _ Hf Hok Hres Hign)
    as (newConds & v & Hcond & Hps & _).
  fold P in Hcond, Hps. rewrite clauseCondition_IN in Hcond by done.
  destruct (mapValues fieldConfig (Values c)) as [mapped|e|p] eqn:Hmap; try done.
  destruct (arrayParameter fieldConfig "IN" mapped) as [arr|e|p] eqn:Harr;
    simpl in Hcond; try done.
  injection Hcond as _ <-. exists mapped, arr.
  split; [done|]. split; [done|]. split; [done|].
  by eapply arrayParameter_deduplicated.
Qed.

(** C4, amended: an [IN] clause that is lowered in a successful call has the
    condition [col IN UNNEST(@P)] and a bound placeholder; if its number of
    values is not one, one of allow_multiple_values, allow_contains and
    allow_contained_by is set.  With none of them set such a clause makes the
    call fail, with the error [multiple values are not allowed] on the field
    when the clause is reached, its required fields are there and it has no
    map_value hook.  (A clause with one value needs no flag.) *)
Theorem C4_in_clause_multiple_values (f : Filter) (fieldConfigs : FieldConfigs)
    (pre post : list Clause) (c : Clause) (fieldConfig : FilterToSpannerFieldConfig) :
  Clauses f = pre ++ c :: post ->
  Operator c = "IN" ->
  resolveFieldConfig fieldConfigs c = Ok fieldConfig ->
  Ignore fieldConfig = false ->
  let P := paramNameOf (placeholderIndex fieldConfigs pre) in
  (forall conds ps,
     ToSpannerSQL f fieldConfigs = Ok (conds, ps) ->
     (columnNameOf fieldConfig c +:+ " IN UNNEST(@" +:+ P +:+ ")") ∈ conds
     /\ is_Some (ps !! P)
     /\ (length (Values c) <> 1 -> noMultipleFlag fieldConfig = false))
  /\ (length (Values c) <> 1 ->
      noMultipleFlag fieldConfig = true ->
      isOk (ToSpannerSQL f fieldConfigs) = false
      /\ (MapValue fieldConfig = None ->
          forall st,
            ToSpannerSQL_loop fieldConfigs f pre (mkLoopState [] ∅ 0) = Ok st ->
            checkRequires fieldConfig (Clauses f) c (Requires fieldConfig) = Ok tt ->
            ToSpannerSQL f fieldConfigs
            = Err ("field " +:+ Field c +:+ ": multiple values are not allowed"))).
Proof.
  intros Hf Hop Hres Hign P.
  assert (forall conds ps,
     ToSpannerSQL f fieldConfigs = Ok (conds, ps) ->
     (columnNameOf fieldConfig c +:+ " IN UNNEST(@" +:+ P +:+ ")") ∈ conds
     /\ is_Some (ps !! P)
     /\ (length (Values c) <> 1 -> noMultipleFlag fieldConfig = false)) as Hsucc.
  { intros conds ps Hok.
    destruct (ToSpannerSQL_lowered_clause _ _ _ _ _ _ _ _ Hf Hok Hres Hign)
      as (newConds & v & Hcond & Hps & Hin & _).
    fold P in Hcond, Hps. rewrite clauseCondition_IN in Hcond by done.
    destruct (mapValues fieldConfig (Values c)) as [mapped|e|p] eqn:Hmap; try done.
    destruct (arrayParameter fieldConfig "IN" mapped) as [arr|e|p];
      simpl in Hcond; try done.
    injection Hcond as <- <-.
    split; [apply Hin; constructor|]. split; [by eexists|].
    intros Hlen. unfold noMultipleFlag.
    destruct (AllowMultipleValues fieldConfig || AllowContains fieldConfig
              || AllowContainedBy fieldConfig) eqn:Hflags; [done|].
    by destruct (mapValues_multiple_refused fieldConfig (Values c) mapped Hflags Hlen). }
  split; [exact Hsucc|].
  intros Hlen Hflags. split.
  - destruct (ToSpannerSQL f fieldConfigs) as [[conds ps]|e|p] eqn:Hok; try done.
    destruct (Hsucc conds ps eq_refl) as (_ & _ & Hno).
    rewrite Hno in Hflags by done. done.
  - intros Hhook st Hpre Hreq.
    eapply ToSpannerSQL_clause_error; [exact Hf | exact Hpre |].
    eapply ToSpannerSQL_clause_condition_error; eauto.
    unfold noMultipleFlag in Hflags. apply negb_true_iff in Hflags.
    rewrite clauseCondition_IN by done.
    by rewrite mapValues_multiple_error.
Qed.

(** C5, amended: a range clause that is lowered in a successful call is on a
    config with allow_ranges set and an INT64, FLOAT64 or TIMESTAMP column,
    has the condition [col op @P] and binds the coerced value.  When the
    clause is reached, its required fields are there and its single value is
    coerced, the call fails with [operator op not supported for field: f] if
    allow_ranges is unset, and with [operator op not supported for field type
    T] if allow_ranges is set and the column type [T] is another one. *)
Theorem C5_range_clause (f : Filter) (fieldConfigs : FieldConfigs)
    (pre post : list Clause) (c : Clause) (fieldConfig : FilterToSpannerFieldConfig) :
  Clauses f = pre ++ c :: post ->
  Contains [">="; "<="; ">"; "<"] (Operator c) = true ->
  resolveFieldConfig fieldConfigs c = Ok fieldConfig ->
  Ignore fieldConfig = false ->
  let P := paramNameOf (placeholderIndex fieldConfigs pre) in
  (forall conds ps,
     ToSpannerSQL f fieldConfigs = Ok (conds, ps) ->
     AllowRanges fieldConfig = true
     /\ supportsRanges (ColumnType fieldConfig) = true
     /\ (columnNameOf fieldConfig c +:+ Operator c +:+ "@" +:+ P) ∈ conds
     /\ exists v, mapValues fieldConfig (Values c) = Ok v /\ ps !! P = Some v)
  /\ (forall st v,
        ToSpannerSQL_loop fieldConfigs f pre (mkLoopState [] ∅ 0) = Ok st ->
        checkRequires fieldConfig (Clauses f) c (Requires fieldConfig) = Ok tt ->
        mapValues fieldConfig (Values c) = Ok v ->
        length (Values c) <= 1 ->
        (AllowRanges fieldConfig = false ->
         ToSpannerSQL f fieldConfigs
         = Err ("operator " +:+ Operator c +:+ " not supported for field: " +:+ Field c))
        /\ (AllowRanges fieldConfig = true ->
            supportsRanges (ColumnType fieldConfig) = false ->
            ToSpannerSQL f fieldConfigs
            = Err ("operator " +:+ Operator c +:+ " not supported for field type "
                   +:+ FilterToSpannerFieldColumnType_String (ColumnType fieldConfig)))).
Proof.
  intros Hf Hop Hres Hign P. split.
  - intros conds ps Hok.
    destruct (ToSpannerSQL_lowered_clause _ _ _ _ _ _ _ _ Hf Hok Hres Hign)
      as (newConds & v & Hcond & Hps & Hin & _).
    fold P in Hcond, Hps. rewrite clauseCondition_range in Hcond by done.
    destruct (mapValues fieldConfig (Values c)) as [mapped|e|p] eqn:Hmap; try done.
    destruct (1 <? length (Values c))%nat; [done|].
    destruct (AllowRanges fieldConfig); [|done]. simpl in Hcond.
    destruct (ColumnType fieldConfig); try done;
      injection Hcond as <- <-;
      (split; [done|]; split; [done|]; split; [apply Hin; constructor|]; eauto).
  - intros st v Hpre Hreq Hmap Hlen.
    assert ((1 <? length (Values c))%nat = false) as Hone by (apply Nat.ltb_ge; lia).
    split.
    + intros Hranges.
      eapply ToSpannerSQL_clause_error; [exact Hf | exact Hpre |].
      eapply ToSpannerSQL_clause_condition_error; eauto.
      rewrite clauseCondition_range by done. by rewrite Hmap, Hone, Hranges.
    + intros Hranges Htype.
      eapply ToSpannerSQL_clause_error; [exact Hf | exact Hpre |].
      eapply ToSpannerSQL_clause_condition_error; eauto.
      rewrite clauseCondition_range by done. rewrite Hmap, Hone, Hranges. simpl.
      by destruct (ColumnType fieldConfig).
Qed.

End SpannerClauses.

(** ** Strings *)

Lemma string_app_cons (x : ascii) (a b : string) :
  String x a +:+ b = String x (a +:+ b).
Proof. reflexivity. Qed.

Lemma string_app_assoc (a b c : string) : (a +:+ b) +:+ c = a +:+ (b +:+ c).
Proof.
  induction a as [|x a IH]; [done|]. rewrite !string_app_cons. by rewrite IH.
Qed.

Lemma string_length_app (a b : string) :
  String.length (a +:+ b) = String.length a + String.length b.
Proof.
  induction a as [|x a IH]; [done|]. rewrite string_app_cons. simpl. by rewrite IH.
Qed.

Lemma substring_all (s : string) : substring 0 (String.length s) s = s.
Proof. induction s as [|x s IH]; simpl; [done|]. by rewrite IH. Qed.

Lemma substring_app_prefix (a b : string) :
  substring 0 (String.length a) (a +:+ b) = a.
Proof.
  induction a as [|x a IH].
  - by destruct b.
  - rewrite string_app_cons. simpl. by rewrite IH.
Qed.

Lemma substring_app_suffix (a b : string) :
  substring (String.length a) (String.length b) (a +:+ b) = b.
Proof.
  induction a as [|x a IH]; [apply substring_all|].
  rewrite string_app_cons. simpl. exact IH.
Qed.

Lemma HasSuffix_app (a suf : string) : HasSuffix (a +:+ suf) suf = true.
Proof.
  unfold HasSuffix. rewrite string_length_app.
  replace (String.length a + String.length suf - String.length suf)
    with (String.length a) by lia.
  rewrite substring_app_suffix, String.eqb_refl, andb_true_r.
  apply Nat.leb_le. lia.
Qed.

Lemma ReplaceAll_app (a b : string) (old : ascii) (new : string) :
  ReplaceAll (a +:+ b) old new = ReplaceAll a old new +:+ ReplaceAll b old new.
Proof.
  induction a as [|x a IH]; [done|].
  rewrite string_app_cons. cbn [ReplaceAll].
  destruct (Ascii.eqb x old); rewrite IH; [|done].
  by rewrite string_app_assoc.
Qed.

Lemma escapeEvery_app (a b : string) :
  escapeEvery (a +:+ b) = escapeEvery a +:+ escapeEvery b.
Proof.
  induction a as [|x a IH]; [done|].
  rewrite string_app_cons. cbn [escapeEvery]. by rewrite IH, string_app_assoc.
Qed.

(** The three replacements of [escapePrefixSuffixSpecialChars], one after the
    other, escape every backslash, underscore and percent sign once. *)
Lemma escapePrefixSuffixSpecialChars_escapeEvery (s : string) :
  escapePrefixSuffixSpecialChars s = escapeEvery s.
Proof.
  unfold escapePrefixSuffixSpecialChars.
  induction s as [|c s IH]; [done|].
  cbn [ReplaceAll escapeEvery]. unfold escapeByte.
  destruct (Ascii.eqb_spec c "\") as [->|H1].
  { rewrite !ReplaceAll_app, IH. reflexivity. }
  cbn [ReplaceAll orb].
  destruct (Ascii.eqb_spec c "_") as [->|H2].
  { rewrite !ReplaceAll_app, IH. reflexivity. }
  cbn [ReplaceAll orb].
  destruct (Ascii.eqb_spec c "%") as [->|H3].
  { rewrite IH. reflexivity. }
  by rewrite IH.
Qed.

Section SpannerLike.
Context `{GoRuntime}.

(** On a STRING column without map_value hook the mapped value of a single
    value is the value. *)
Lemma mapValues_string_column (fieldConfig : FilterToSpannerFieldConfig) (v : string) :
  MapValue fieldConfig = None ->
  ColumnType fieldConfig = FilterToSpannerFieldColumnTypeString ->
  mapValues fieldConfig [v] = Ok (VString v).
Proof.
  intros Hhook Htype. unfold mapValues. rewrite Hhook. simpl.
  destruct (negb _); simpl; unfold convertValue; by rewrite Htype.
Qed.

(** C6, amended: for a lowered clause with operator [=] whose mapped value is
    a string [v'*] that does not end in backslash-star, on a config with
    allow_prefix_match and without allow_case_insensitive, and when the
    suffix rewrite does not apply (allow_suffix_match unset or no leading
    star), a successful call has the condition [col LIKE @P] and binds [P] to
    [v'] with every backslash, underscore and percent sign escaped, followed
    by [%]. *)
Theorem C6_prefix_match_like (f : Filter) (fieldConfigs : FieldConfigs)
    (conds : list string) (ps : gmap string Value) (pre post : list Clause) (c : Clause)
    (fieldConfig : FilterToSpannerFieldConfig) (v' : string) :
  Clauses f = pre ++ c :: post ->
  Operator c = "=" ->
  resolveFieldConfig fieldConfigs c = Ok fieldConfig ->
  Ignore fieldConfig = false ->
  mapValues fieldConfig (Values c) = Ok (VString (v' +:+ "*")) ->
  AllowPrefixMatch fieldConfig = true ->
  AllowCaseInsensitiveMatch fieldConfig = false ->
  HasSuffix (v' +:+ "*") "\*" = false ->
  AllowSuffixMatch fieldConfig && HasPrefix (v' +:+ "*") "*" = false ->
  ToSpannerSQL f fieldConfigs = Ok (conds, ps) ->
  let P := paramNameOf (placeholderIndex fieldConfigs pre) in
  (columnNameOf fieldConfig c +:+ " LIKE @" +:+ P) ∈ conds
  /\ ps !! P = Some (VString (escapeEvery v' +:+ "%")).
Proof.
  intros Hf Hop Hres Hign Hmap Hprefix Hci Hesc Hsuffix Hok P.
  destruct (ToSpannerSQL_lowered_clause _ _ _ _ _ _ _ _ Hf Hok Hres Hign)
    as (newConds & v & Hcond & Hps & Hin & _).
  fold P in Hcond, Hps. rewrite clauseCondition_eq in Hcond by done.
  rewrite Hmap in Hcond. destruct (1 <? length (Values c))%nat; [done|].
  unfold prefixSuffixMatch in Hcond.
  rewrite Hprefix, Hsuffix, Hesc, HasSuffix_app in Hcond. cbn [andb negb] in Hcond.
  rewrite escapePrefixSuffixSpecialChars_escapeEvery, escapeEvery_app in Hcond.
  change (escapeEvery "*") with "*" in Hcond.
  unfold sliceString in Hcond. rewrite string_length_app in Hcond.
  cbn [String.length] in Hcond.
  replace (Z.of_nat (String.length (escapeEvery v') + 1) - 1)%Z
    with (Z.of_nat (String.length (escapeEvery v'))) in Hcond by lia.
  replace ((0 <=? 0)%Z && (0 <=? Z.of_nat (String.length (escapeEvery v')))%Z
           && (Z.of_nat (String.length (escapeEvery v'))
               <=? Z.of_nat (String.length (escapeEvery v') + 1))%Z)
    with true in Hcond
    by (symmetry; rewrite !andb_true_iff, !Z.leb_le; lia).
  rewrite Z.sub_0_r, Nat2Z.id in Hcond. simpl Z.to_nat in Hcond.
  rewrite substring_app_prefix in Hcond. simpl in Hcond. rewrite Hci in Hcond.
  simpl in Hcond. injection Hcond as <- <-.
  split; [apply Hin; constructor | exact Hps].
Qed.

(** C10, amended: for a lowered clause with operator [=] whose mapped value is
    a string [v] that ends in backslash-star, the prefix rewrite is not
    applied whatever allow_prefix_match is; when the suffix rewrite does not
    apply either (allow_suffix_match unset or no leading star), a successful
    call has the condition [col=@P] and binds [P] to [v] itself. *)
Theorem C10_escaped_star_plain_equality (f : Filter) (fieldConfigs : FieldConfigs)
    (conds : list string) (ps : gmap string Value) (pre post : list Clause) (c : Clause)
    (fieldConfig : FilterToSpannerFieldConfig) (v : string) :
  Clauses f = pre ++ c :: post ->
  Operator c = "=" ->
  resolveFieldConfig fieldConfigs c = Ok fieldConfig ->
  Ignore fieldConfig = false ->
  mapValues fieldConfig (Values c) = Ok (VString v) ->
  HasSuffix v "\*" = true ->
  AllowSuffixMatch fieldConfig && HasPrefix v "*" = false ->
  ToSpannerSQL f fieldConfigs = Ok (conds, ps) ->
  let P := paramNameOf (placeholderIndex fieldConfigs pre) in
  (columnNameOf fieldConfig c +:+ "=@" +:+ P) ∈ conds
  /\ ps !! P = Some (VString v).
Proof.
  intros Hf Hop Hres Hign Hmap Hesc Hsuffix Hok P.
  destruct (ToSpannerSQL_lowered_clause _ _ _ _ _ _ _ _ Hf Hok Hres Hign)
    as (newConds & v0 & Hcond & Hps & Hin & _).
  fold P in Hcond, Hps. rewrite clauseCondition_eq in Hcond by done.
  rewrite Hmap in Hcond. destruct (1 <? length (Values c))%nat; [done|].
  unfold prefixSuffixMatch in Hcond.
  rewrite Hsuffix, Hesc in Hcond. cbn [negb] in Hcond.
  rewrite !andb_false_r in Hcond. simpl in Hcond.
  injection Hcond as <- <-.
  split; [apply Hin; constructor | exact Hps].
Qed.

(** C7: a bare literal at the top projects to the clause [("1", "=", ["1"])]
    when it is [true], to [("1", "=", ["0"])] when it is [false], and is
    refused otherwise.  A clause [("1", "=", [b])], [b] being ["0"] or ["1"],
    that no config key or alias resolves appends the condition [1=@P] and
    binds [P] to the integer 0 or 1; a clause on another field that nothing
    resolves fails with [unknown field]. *)
Theorem C7_boolean_literal_clause (f : Filter) (fieldConfigs : FieldConfigs)
    (pre post : list Clause) (c : Clause) :
  Clauses f = pre ++ c :: post ->
  lookupFieldConfig fieldConfigs (Field c) = None ->
  lookupAlias fieldConfigs (Field c) = None ->
  (convertToFilter (LiteralNode "true") = Ok (mkFilter [mkClause "1" "=" ["1"]])
   /\ convertToFilter (LiteralNode "false") = Ok (mkFilter [mkClause "1" "=" ["0"]])
   /\ forall v, v <> "true" -> v <> "false" ->
        convertToFilter (LiteralNode v)
        = Err ("only boolean literals are supported; " +:+ v))
  /\ (forall b,
        Field c = "1" -> Operator c = "=" -> Values c = [b] -> b = "0" \/ b = "1" ->
        let n := if String.eqb b "1" then 1%Z else 0%Z in
        (forall st,
           ToSpannerSQL_clause fieldConfigs f st c
           = Ok {| condAnds := condAnds st ++ ["1=@" +:+ paramNameOf (paramIndex st)];
                   params := <[paramNameOf (paramIndex st) := VInt64 n]> (params st);
                   paramIndex := S (paramIndex st) |})
        /\ (forall conds ps,
              ToSpannerSQL f fieldConfigs = Ok (conds, ps) ->
              let P := paramNameOf (placeholderIndex fieldConfigs pre) in
              ("1=@" +:+ P) ∈ conds /\ ps !! P = Some (VInt64 n)))
  /\ (Field c <> "1" ->
      (forall st,
         ToSpannerSQL_clause fieldConfigs f st c = Err ("unknown field: " +:+ Field c))
      /\ (forall st,
            ToSpannerSQL_loop fieldConfigs f pre (mkLoopState [] ∅ 0) = Ok st ->
            ToSpannerSQL f fieldConfigs = Err ("unknown field: " +:+ Field c))
      /\ isOk (ToSpannerSQL f fieldConfigs) = false).
Proof.
  intros Hf Hkey Halias. split; [|split].
  - split; [done|]. split; [done|]. intros v Ht Hfalse.
    simpl. unfold convertLiteralNode, Contains. simpl.
    destruct (String.eqb_spec v "true"); [done|].
    destruct (String.eqb_spec v "false"); done.
  - intros b HField Hop Hvals Hb n.
    assert (resolveFieldConfig fieldConfigs c = Ok zeroFieldConfig) as Hres.
    { unfold resolveFieldConfig, isBooleanLiteralClause.
      rewrite Hkey, Halias, HField, Hop, Hvals. destruct Hb as [Hb | Hb]; by rewrite Hb. }
    assert (forall name,
              clauseCondition zeroFieldConfig c name = Ok (["1=@" +:+ name], VInt64 n))
      as Hcond.
    { intros name. rewrite clauseCondition_eq by done. rewrite Hvals.
      unfold columnNameOf. rewrite HField. subst n.
      destruct Hb as [Hb | Hb]; by rewrite Hb. }
    split.
    + intros st. unfold ToSpannerSQL_clause. rewrite Hres. simpl. by rewrite Hcond.
    + intros conds ps Hok P.
      destruct (ToSpannerSQL_lowered_clause _ _ _ _ _ _ _ _ Hf Hok Hres eq_refl)
        as (newConds & v & Hc & Hps & Hin & _).
      fold P in Hc, Hps. rewrite Hcond in Hc. injection Hc as <- <-.
      split; [apply Hin; constructor | exact Hps].
  - intros HField.
    assert (resolveFieldConfig fieldConfigs c = Err ("unknown field: " +:+ Field c))
      as Hres.
    { unfold resolveFieldConfig, isBooleanLiteralClause. rewrite Hkey, Halias.
      destruct (String.eqb_spec (Field c) "1"); done. }
    assert (forall st,
              ToSpannerSQL_clause fieldConfigs f st c
              = Err ("unknown field: " +:+ Field c)) as Hc.
    { intros st. unfold ToSpannerSQL_clause. by rewrite Hres. }
    split; [exact Hc|]. split.
    + intros st Hpre. eapply ToSpannerSQL_clause_error; eauto.
    + destruct (ToSpannerSQL f fieldConfigs) as [[conds ps]|e|p] eqn:Hok; try done.
      destruct (ToSpannerSQL_resolves _ _ _ _ _ _ _ Hf Hok) as [fc Hfc].
      congruence.
Qed.

End SpannerLike.

(** ** The statements at concrete filters *)

Section Examples.
Existing Instance exampleRuntime.

(** Scenario 7 of the spec and the tests of the probe. *)
Example HasMustEqual_nested_query :
  HasMustEqual
    (AndNode [IsNode "type_id" (LiteralNode "team");
              OrNode [IsNode "active" (LiteralNode "false");
                      IsNode "disabled" (LiteralNode "true")]]) "type_id"
  = ["team"].
Proof. reflexivity. Qed.

Example HasMustEqual_or_same_field :
  HasMustEqual
    (OrNode [IsNode "type_id" (LiteralNode "team");
             IsNode "type_id" (LiteralNode "player")]) "type_id"
  = ["team"; "player"].
Proof. reflexivity. Qed.

(** Scenarios 1, 2 and 5. *)
Example ToSpannerSQL_name_age :
  ToSpannerSQL (mkFilter [mkClause "name" "=" ["Beau"]; mkClause "age" "=" ["30"]])
    [("name", plainColumn FilterToSpannerFieldColumnTypeString);
     ("age", plainColumn FilterToSpannerFieldColumnTypeInt64)]
  = Ok (["name=@KQL0"; "age=@KQL1"],
        <["KQL1" := VInt64 30]> {["KQL0" := VString "Beau"]}).
Proof. reflexivity. Qed.

Example ToSpannerSQL_favorite_day :
  ToSpannerSQL (mkFilter [mkClause "favorite_day" "IN" ["Monday"; "Tuesday"]])
    [("favorite_day", multipleValuesColumn FilterToSpannerFieldColumnTypeString)]
  = Ok (["favorite_day IN UNNEST(@KQL0)"],
        {["KQL0" := VStrings ["Monday"; "Tuesday"]]}).
Proof. reflexivity. Qed.

(** Outside the nine operators the switch has no case: the placeholder is
    bound and no condition is appended. *)
Example ToSpannerSQL_operator_without_case :
  ToSpannerSQL (mkFilter [mkClause "name" "~" ["Beau"]])
    [("name", plainColumn FilterToSpannerFieldColumnTypeString)]
  = Ok ([], {["KQL0" := VString "Beau"]}).
Proof. reflexivity. Qed.

(** Both rewrites on the single star: the slice [1:0] is out of range. *)
Example ToSpannerSQL_single_star_panics :
  ToSpannerSQL (mkFilter [mkClause "name" "=" ["*"]]) [("name", prefixSuffixMatchColumn)]
  = Panic "slice bounds out of range".
Proof. reflexivity. Qed.

(** C3: the claim counts the keys by the predicates returned.  A clause whose
    operator is none of the nine is lowered with success: its placeholder is
    bound and no predicate is returned for it, one key for no predicate. *)
Lemma C3_operator_without_case_counterexample :
  let f := mkFilter [mkClause "userId" "~" ["12345"]] in
  let fieldConfigs := [("userId", plainColumn FilterToSpannerFieldColumnTypeInt64)] in
  let conds : list string := [] in
  let ps : gmap string Value := {["KQL0" := VInt64 12345]} in
  ToSpannerSQL f fieldConfigs = Ok (conds, ps)
  /\ dom ps <> list_to_set (paramNameOf <$> seq 0 (length conds)).
Proof.
  intros f fieldConfigs conds ps. split; [reflexivity|].
  intros Hdom. assert ("KQL0" ∈ dom ps) as Hin by (apply elem_of_dom; by eexists).
  rewrite Hdom in Hin. simpl in Hin. by apply elem_of_empty in Hin.
Qed.

(** An ignored clause between two lowered ones: two placeholders. *)
Lemma C3_placeholders_consecutive_witness :
  let f := mkFilter [mkClause "userId" "=" ["12345"];
                     mkClause "password" "=" ["qwertyuiop"];
                     mkClause "1" "=" ["1"]] in
  let fieldConfigs := [("userId", plainColumn FilterToSpannerFieldColumnTypeInt64);
                       ("password", ignoredColumn)] in
  let ps : gmap string Value := <["KQL1" := VInt64 1]> (<["KQL0" := VInt64 12345]> ∅) in
  ToSpannerSQL f fieldConfigs = Ok (["userId=@KQL0"; "1=@KQL1"], ps)
  /\ dom ps = list_to_set (paramNameOf <$> seq 0 2)
  /\ size ps = 2.
Proof.
  intros f fieldConfigs ps.
  assert (ToSpannerSQL f fieldConfigs = Ok (["userId=@KQL0"; "1=@KQL1"], ps)) as Hok
    by reflexivity.
  split; [exact Hok|].
  destruct (C3_placeholders_consecutive f fieldConfigs _ _ Hok)
    as (Hdom & Hsize & _).
  split; [exact Hdom | exact Hsize].
Defined.

(** C4: the claim says an [IN] clause of any number of values, one included,
    fails on a config without allow_multiple_values.  A clause with one value
    on a STRING column with no option set is lowered. *)
Lemma C4_single_value_in_counterexample :
  AllowMultipleValues (plainColumn FilterToSpannerFieldColumnTypeString) = false
  /\ ToSpannerSQL (mkFilter [mkClause "state" "IN" ["active"]])
       [("state", plainColumn FilterToSpannerFieldColumnTypeString)]
     = Ok (["state IN UNNEST(@KQL0)"], {["KQL0" := VStrings ["active"]]}).
Proof. split; reflexivity. Qed.

Lemma C4_in_clause_multiple_values_witness :
  ToSpannerSQL (mkFilter [mkClause "state" "IN" ["active"; "canceled"]])
    [("state", plainColumn FilterToSpannerFieldColumnTypeString)]
  = Err "field state: multiple values are not allowed".
Proof.
  refine (proj2 (proj2 (C4_in_clause_multiple_values
                          (mkFilter [mkClause "state" "IN" ["active"; "canceled"]])
                          [("state", plainColumn FilterToSpannerFieldColumnTypeString)]
                          [] [] (mkClause "state" "IN" ["active"; "canceled"])
                          (plainColumn FilterToSpannerFieldColumnTypeString)
                          eq_refl eq_refl eq_refl eq_refl) _ eq_refl)
                eq_refl (mkLoopState [] ∅ 0) eq_refl eq_refl).
  simpl. lia.
Defined.

(** C5: the claim says a range clause succeeds only with allow_ranges and
    that, without it or on another column type, the error is the
    operator-not-allowed error that names field and operator.  A clause on an
    ignored field succeeds; a value the column refuses is reported first; on
    a STRING column with allow_ranges the error names the operator and the
    type, the same for every field. *)
Lemma C5_range_clause_counterexample :
  ToSpannerSQL (mkFilter [mkClause "password" ">=" ["1"]]) [("password", ignoredColumn)]
  = Ok ([], ∅)
  /\ ToSpannerSQL (mkFilter [mkClause "userId" ">=" ["abc"]])
       [("userId", plainColumn FilterToSpannerFieldColumnTypeInt64)]
     = Err ("field userId: invalid INT64 value: strconv.ParseInt: parsing "
            +:+ dquote +:+ "abc" +:+ dquote +:+ ": invalid syntax")
  /\ ToSpannerSQL (mkFilter [mkClause "userId" ">=" ["12345"]])
       [("userId", rangesColumn FilterToSpannerFieldColumnTypeString)]
     = Err "operator >= not supported for field type STRING"
  /\ ToSpannerSQL (mkFilter [mkClause "name" ">=" ["12345"]])
       [("name", rangesColumn FilterToSpannerFieldColumnTypeString)]
     = Err "operator >= not supported for field type STRING".
Proof. repeat split; reflexivity. Qed.

(** Scenario 8: [userId>=12345 and birthdate>"1993-11-26T07:00:00Z"] with
    allow_ranges unset on [userId]. *)
Lemma C5_range_clause_witness :
  ToSpannerSQL
    (mkFilter [mkClause "userId" ">=" ["12345"];
               mkClause "birthdate" ">" ["1993-11-26T07:00:00Z"]])
    [("userId", plainColumn FilterToSpannerFieldColumnTypeInt64);
     ("birthdate", rangesColumn FilterToSpannerFieldColumnTypeTimestamp)]
  = Err "operator >= not supported for field: userId".
Proof.
  refine (proj1 (proj2 (C5_range_clause
                          (mkFilter [mkClause "userId" ">=" ["12345"];
                                     mkClause "birthdate" ">" ["1993-11-26T07:00:00Z"]])
                          [("userId", plainColumn FilterToSpannerFieldColumnTypeInt64);
                           ("birthdate",
                            rangesColumn FilterToSpannerFieldColumnTypeTimestamp)]
                          [] [mkClause "birthdate" ">" ["1993-11-26T07:00:00Z"]]
                          (mkClause "userId" ">=" ["12345"])
                          (plainColumn FilterToSpannerFieldColumnTypeInt64)
                          eq_refl eq_refl eq_refl eq_refl)
                  (mkLoopState [] ∅ 0) (VInt64 12345) eq_refl eq_refl eq_refl _)
            eq_refl).
  simpl. lia.
Defined.

(** C6: the claim binds the value with its trailing star replaced, whatever
    else the config allows.  With allow_suffix_match also set and a leading
    star (the test "email prefix and suffix"), the leading star is replaced
    as well. *)
Lemma C6_leading_star_counterexample :
  ToSpannerSQL (mkFilter [mkClause "email" "=" ["*@example.*"]])
    [("email", prefixSuffixMatchColumn)]
  = Ok (["email LIKE @KQL0"], {["KQL0" := VString "%@example.%"]})
  /\ VString "%@example.%" <> VString (escapeEvery "*@example." +:+ "%").
Proof. split; [reflexivity | discriminate]. Qed.

(** Scenario 4: [Monday_%a\_\%\**] under allow_prefix_match. *)
Lemma C6_prefix_match_like_witness :
  let ps : gmap string Value := {["KQL0" := VString "Monday\_\%a\\\_\\\%\\*%"]} in
  ToSpannerSQL (mkFilter [mkClause "self_intro" "=" ["Monday_%a\_\%\**"]])
    [("self_intro", prefixMatchColumn)]
  = Ok (["self_intro LIKE @KQL0"], ps)
  /\ "self_intro LIKE @KQL0" ∈ ["self_intro LIKE @KQL0"]
  /\ ps !! "KQL0" = Some (VString (escapeEvery "Monday_%a\_\%\*" +:+ "%")).
Proof.
  intros ps. split; [reflexivity|].
  exact (C6_prefix_match_like
           (mkFilter [mkClause "self_intro" "=" ["Monday_%a\_\%\**"]])
           [("self_intro", prefixMatchColumn)]
           ["self_intro LIKE @KQL0"] ps [] []
           (mkClause "self_intro" "=" ["Monday_%a\_\%\**"]) prefixMatchColumn
           "Monday_%a\_\%\*"
           eq_refl eq_refl eq_refl eq_refl eq_refl eq_refl eq_refl eq_refl eq_refl
           eq_refl).
Defined.

(** The sentinel of [false and userId:123]. *)
Lemma C7_boolean_literal_clause_witness :
  let f := mkFilter [mkClause "1" "=" ["0"]; mkClause "userId" "=" ["123"]] in
  let fieldConfigs := [("userId", plainColumn FilterToSpannerFieldColumnTypeInt64)] in
  let ps : gmap string Value := <["KQL1" := VInt64 123]> (<["KQL0" := VInt64 0]> ∅) in
  ToSpannerSQL f fieldConfigs = Ok (["1=@KQL0"; "userId=@KQL1"], ps)
  /\ "1=@KQL0" ∈ ["1=@KQL0"; "userId=@KQL1"]
  /\ ps !! "KQL0" = Some (VInt64 0).
Proof.
  intros f fieldConfigs ps. split; [reflexivity|].
  exact (proj2 (proj1 (proj2 (C7_boolean_literal_clause f fieldConfigs []
                                [mkClause "userId" "=" ["123"]]
                                (mkClause "1" "=" ["0"]) eq_refl eq_refl eq_refl))
                  "0" eq_refl eq_refl eq_refl (or_introl eq_refl))
           ["1=@KQL0"; "userId=@KQL1"] ps eq_refl).
Defined.

(** C9: the claim says the array contains no duplicate elements.  It holds
    no two elements that [==] makes equal: [strconv.ParseFloat] reads ["NaN"]
    as the NaN, which [==] makes different from itself, so that the lookup
    [seen[element]] of [uniqueSliceElements] never finds it, and the array of
    [score IN (NaN, NaN)] holds it twice. *)
Lemma C9_nan_counterexample :
  let f := mkFilter [mkClause "score" "IN" ["NaN"; "NaN"]] in
  let fieldConfigs := [("score", nanFloatColumn)] in
  let ps : gmap string (@Value nanRuntime) :=
    {["KQL0" := @VFloat64s nanRuntime [None; None]]} in
  @ToSpannerSQL nanRuntime f fieldConfigs = Ok (["score IN UNNEST(@KQL0)"], ps)
  /\ ~ NoDup [@None Z; None].
Proof.
  intros f fieldConfigs ps. split; [reflexivity|].
  intros Hnodup. inversion Hnodup as [|? ? Hnotin _]. apply Hnotin. constructor.
Qed.

(** The test "in query deduplication of identical values", a third value
    added. *)
Lemma C9_in_array_deduplicated_witness :
  let f := mkFilter [mkClause "state" "IN" ["active"; "canceled"; "active"]] in
  let fieldConfigs :=
    [("state", multipleValuesColumn FilterToSpannerFieldColumnTypeString)] in
  let ps : gmap string Value := {["KQL0" := VStrings ["active"; "canceled"]]} in
  ToSpannerSQL f fieldConfigs = Ok (["state IN UNNEST(@KQL0)"], ps)
  /\ exists arr,
       ps !! "KQL0" = Some arr
       /\ deduplicatedArray (multipleValuesColumn FilterToSpannerFieldColumnTypeString)
            ["active"; "canceled"; "active"] arr.
Proof.
  intros f fieldConfigs ps. split; [reflexivity|].
  destruct (C9_in_array_deduplicated f fieldConfigs ["state IN UNNEST(@KQL0)"] ps
              [] [] (mkClause "state" "IN" ["active"; "canceled"; "active"])
              (multipleValuesColumn FilterToSpannerFieldColumnTypeString)
              eq_refl eq_refl eq_refl eq_refl eq_refl)
    as (mapped & arr & _ & _ & Hps & Hded).
  exists arr. split; [exact Hps | exact Hded].
Defined.

(** C10: the claim says a value that ends in backslash-star is bound
    unchanged under plain equality.  With allow_suffix_match set and a leading
    star the suffix rewrite applies: [LIKE], the value escaped. *)
Lemma C10_leading_star_counterexample :
  HasSuffix "*a\*" "\*" = true
  /\ ToSpannerSQL (mkFilter [mkClause "name" "=" ["*a\*"]])
       [("name", prefixSuffixMatchColumn)]
     = Ok (["name LIKE @KQL0"], {["KQL0" := VString "%a\\*"]}).
Proof. split; reflexivity. Qed.

Lemma C10_escaped_star_plain_equality_witness :
  let ps : gmap string Value := {["KQL0" := VString "100\*"]} in
  ToSpannerSQL (mkFilter [mkClause "discount" "=" ["100\*"]])
    [("discount", prefixMatchColumn)]
  = Ok (["discount=@KQL0"], ps)
  /\ "discount=@KQL0" ∈ ["discount=@KQL0"]
  /\ ps !! "KQL0" = Some (VString "100\*").
Proof.
  intros ps. split; [reflexivity|].
  exact (C10_escaped_star_plain_equality
           (mkFilter [mkClause "discount" "=" ["100\*"]])
           [("discount", prefixMatchColumn)]
           ["discount=@KQL0"] ps [] []
           (mkClause "discount" "=" ["100\*"]) prefixMatchColumn "100\*"
           eq_refl eq_refl eq_refl eq_refl eq_refl eq_refl eq_refl eq_refl).
Defined.

End Examples.

(** * Further properties *)

(** ** The probe *)

Lemma hasMustEqualAndNode_loop_spec (nodes : list Node) (field : string)
    (values : list string) :
  fold_left (fun values node =>
               match node with
               | IsNode id v => values ++ hasMustEqualIsNode id v field
               | _ => values
               end) nodes values
  = values ++ concat (map (isNodeValues field) nodes).
Proof.
  revert values. induction nodes as [|node rest IH]; intros values; simpl.
  - by rewrite app_nil_r.
  - rewrite IH. destruct node; simpl; try done. by rewrite <- app_assoc.
Qed.

(** X1: the probe of an and-list is the values of its [Is] children on the
    field, child after child; a child of any other kind adds nothing. *)
Theorem X1_HasMustEqual_and_concat (nodes : list Node) (field : string) :
  HasMustEqual (AndNode nodes) field = concat (map (isNodeValues field) nodes).
Proof. simpl. unfold hasMustEqualAndNode. apply hasMustEqualAndNode_loop_spec. Qed.

Lemma hasMustEqualOrNode_loop_spec (nodes : list Node) (field : string)
    (values : list string) :
  hasMustEqualOrNode_loop nodes field values
  = if existsb (isNodeWithoutValue field) nodes then []
    else values ++ concat (map (isNodeValues field) nodes).
Proof.
  revert values. induction nodes as [|node rest IH]; intros values; simpl.
  - by rewrite app_nil_r.
  - destruct node; simpl; rewrite ?IH; try done.
    destruct (length _ =? 0)%nat; simpl; [done|].
    destruct (existsb _ rest); [done|]. by rewrite <- app_assoc.
Qed.

(** X2: the probe of an or-list is empty as soon as one [Is] child puts no
    value on the field; otherwise it is the values of the [Is] children,
    child after child, the children of other kinds being passed over. *)
Theorem X2_HasMustEqual_or_spec (nodes : list Node) (field : string) :
  HasMustEqual (OrNode nodes) field
  = if existsb (isNodeWithoutValue field) nodes then []
    else concat (map (isNodeValues field) nodes).
Proof. simpl. unfold hasMustEqualOrNode. apply hasMustEqualOrNode_loop_spec. Qed.

(** ** The projector *)

Lemma convertIsNode_values_spec (nodes : list Node) (acc values : list string) :
  convertIsNode_values nodes acc = Ok values ->
  fold_left (fun values node =>
               match node with
               | LiteralNode v => values ++ [v]
               | _ => values
               end) nodes acc = values.
Proof.
  revert acc. induction nodes as [|node rest IH]; intros acc; simpl.
  - by intros [= <-].
  - destruct node; try done. apply IH.
Qed.

(** X3: the projector and the probe agree on an [Is] node: when the node
    projects, it projects to one clause on its identifier, whose values are
    those the probe reports for that identifier. *)
Theorem X3_convertIsNode_agrees_with_probe (id : string) (v : Node) (f : Filter) :
  convertIsNode id v = Ok f ->
  exists clause,
    Clauses f = [clause]
    /\ Field clause = id
    /\ Values clause = HasMustEqual (IsNode id v) id.
Proof.
  unfold convertIsNode. simpl. unfold hasMustEqualIsNode. rewrite String.eqb_refl. simpl.
  destruct v as [| lit | | | | nodes | |]; try done.
  - intros [= <-]. by eexists.
  - destruct (convertIsNode_values nodes []) as [values|e|p] eqn:Hv; simpl; try done.
    intros [= <-]. eexists. split; [done|]. split; [done|]. simpl.
    symmetry. by apply convertIsNode_values_spec.
Qed.

Lemma X3_convertIsNode_agrees_with_probe_witness :
  exists clause,
    [mkClause "type_id" "IN" ["team"; "player"]] = [clause]
    /\ Field clause = "type_id"
    /\ Values clause
       = HasMustEqual
           (IsNode "type_id" (OrNode [LiteralNode "team"; LiteralNode "player"]))
           "type_id".
Proof.
  exact (X3_convertIsNode_agrees_with_probe "type_id"
           (OrNode [LiteralNode "team"; LiteralNode "player"])
           (mkFilter [mkClause "type_id" "IN" ["team"; "player"]]) eq_refl).
Defined.

(** Each child of an and-node that projects gives one clause. *)
Lemma convertAndNode_child_clause (node : Node) (f : Filter) :
  convertAndNode_child node = Ok f ->
  exists c, Clauses f = [c] /\ projectedClause c.
Proof.
  unfold projectedClause, projectedOperators.
  destruct node as [| lit | id v | id op v | | | e |]; simpl; try done.
  - unfold convertLiteralNode.
    destruct (negb _); [done|]. destruct (String.eqb lit "true"); intros [= <-];
      eexists; (split; [done|]); simpl; set_solver.
  - unfold convertIsNode. destruct v as [| lit | | | | nodes | |]; try done.
    + intros [= <-]. eexists. split; [done|]. simpl. set_solver.
    + destruct (convertIsNode_values nodes []) as [values|?|?]; simpl; try done.
      intros [= <-]. eexists. split; [done|]. simpl. set_solver.
  - unfold convertRangeNode. destruct v as [| lit | | | | | |]; try done.
    destruct op; simpl; intros [= <-]; eexists; (split; [done|]); simpl; set_solver.
  - unfold convertNotNode. destruct e as [| | id v | | | | |]; try done.
    unfold convertIsNode. destruct v as [| lit | | | | nodes | |]; try done.
    + simpl. intros [= <-]. eexists. split; [done|]. simpl. set_solver.
    + destruct (convertIsNode_values nodes []) as [values|?|?]; simpl; done.
Qed.

Lemma convertAndNode_project_inv (nodes : list Node) (acc clauses : list Clause) :
  convertAndNode_project nodes acc = Ok clauses ->
  length clauses = length acc + length nodes
  /\ (Forall projectedClause acc -> Forall projectedClause clauses).
Proof.
  revert acc. induction nodes as [|node rest IH]; intros acc; simpl.
  - intros [= <-]. split; [lia | done].
  - destruct (convertAndNode_child node) as [f|?|?] eqn:Hchild; simpl; try done.
    apply convertAndNode_child_clause in Hchild as (c & -> & Hc).
    intros [Hlen Hall]%IH. rewrite length_app in Hlen. simpl in Hlen.
    split; [lia|]. intros Hacc. apply Hall, Forall_app. split; [done|]. by constructor.
Qed.

(** The four kinds a single node projects as are those of a child. *)
Lemma convertToFilter_single (ast : Node) (f : Filter) :
  convertToFilter ast = Ok f ->
  ast = NilNode /\ Clauses f = []
  \/ (exists nodes, ast = AndNode nodes /\ convertAndNode nodes = Ok f)
  \/ convertAndNode_child ast = Ok f.
Proof.
  destruct ast; simpl; try done; auto.
  - intros [= <-]. by left.
  - intros Hand. right. left. eauto.
Qed.

Lemma convertToFilter_projected (ast : Node) (f : Filter) :
  convertToFilter ast = Ok f -> Forall projectedClause (Clauses f).
Proof.
  intros [[_ ->] | [(nodes & _ & Hand) | Hchild]]%convertToFilter_single.
  - constructor.
  - unfold convertAndNode in Hand.
    destruct (convertAndNode_project nodes []) as [clauses|?|?] eqn:Hp;
      simpl in Hand; try done.
    destruct (convertAndNode_count clauses ∅) as [[]|?|?]; simpl in Hand; try done.
    injection Hand as <-. simpl.
    apply convertAndNode_project_inv in Hp as [_ Hall]. by apply Hall.
  - apply convertAndNode_child_clause in Hchild as (c & -> & Hc).
    constructor; [done | constructor].
Qed.

(** X4: every clause of a filter the projector returns carries one of the
    operators [=], [!=], [IN], [<], [<=], [>], [>=] (never [<@] or [>@]) and,
    unless the operator is [IN], exactly one value. *)
Theorem X4_convertToFilter_clauses_wellformed (ast : Node) (f : Filter) :
  convertToFilter ast = Ok f -> Forall projectedClause (Clauses f).
Proof. apply convertToFilter_projected. Qed.

Lemma X4_convertToFilter_clauses_wellformed_witness :
  Forall projectedClause
    [mkClause "a" "!=" ["1"]; mkClause "b" "IN" ["x"; "y"]; mkClause "c" "<=" ["5"]].
Proof.
  exact (X4_convertToFilter_clauses_wellformed
           (AndNode [NotNode (IsNode "a" (LiteralNode "1"));
                     IsNode "b" (OrNode [LiteralNode "x"; LiteralNode "y"]);
                     RangeNode "c" RangeOperatorLte (LiteralNode "5")])
           (mkFilter [mkClause "a" "!=" ["1"]; mkClause "b" "IN" ["x"; "y"];
                      mkClause "c" "<=" ["5"]]) eq_refl).
Defined.

(** X5: in every filter the projector returns, whatever the shape of the AST,
    no field name occurs in more than two clauses. *)
Theorem X5_convertToFilter_field_cap (ast : Node) (f : Filter) (field : string) :
  convertToFilter ast = Ok f ->
  count_occ string_dec (map Field (Clauses f)) field <= 2.
Proof.
  intros [[_ ->] | [(nodes & _ & Hand) | Hchild]]%convertToFilter_single.
  - simpl. lia.
  - unfold convertAndNode in Hand.
    destruct (convertAndNode_project nodes []) as [clauses|?|?]; simpl in Hand; try done.
    destruct (convertAndNode_count_spec clauses ∅) as [[Hc _] | [_ Hle]].
    + intros k n. by rewrite lookup_empty.
    + rewrite Hc in Hand. done.
    + destruct (convertAndNode_count clauses ∅) as [[]|?|?]; simpl in Hand; try done.
      injection Hand as <-. specialize (Hle field). rewrite lookup_empty in Hle.
      simpl in *. lia.
  - apply convertAndNode_child_clause in Hchild as (c & -> & _). simpl.
    destruct (string_dec (Field c) field); lia.
Qed.

Lemma X5_convertToFilter_field_cap_witness :
  count_occ string_dec
    (map Field [mkClause "amount" ">=" ["1"]; mkClause "amount" "<" ["5"]]) "amount" <= 2.
Proof.
  exact (X5_convertToFilter_field_cap
           (AndNode [RangeNode "amount" RangeOperatorGte (LiteralNode "1");
                     RangeNode "amount" RangeOperatorLt (LiteralNode "5")])
           (mkFilter [mkClause "amount" ">=" ["1"]; mkClause "amount" "<" ["5"]])
           "amount" eq_refl).
Defined.

(** X6: an and-node that projects gives as many clauses as it has children:
    a child is never dropped and never gives two clauses. *)
Theorem X6_convertAndNode_one_clause_per_child (nodes : list Node) (f : Filter) :
  convertToFilter (AndNode nodes) = Ok f ->
  length (Clauses f) = length nodes.
Proof.
  simpl. unfold convertAndNode.
  destruct (convertAndNode_project nodes []) as [clauses|?|?] eqn:Hp; simpl; try done.
  destruct (convertAndNode_count clauses ∅) as [[]|?|?]; simpl; try done.
  intros [= <-]. simpl. by apply convertAndNode_project_inv in Hp as [-> _].
Qed.

Lemma X6_convertAndNode_one_clause_per_child_witness :
  length [mkClause "a" "=" ["1"]; mkClause "1" "=" ["1"]] = 2.
Proof.
  exact (X6_convertAndNode_one_clause_per_child
           [IsNode "a" (LiteralNode "1"); LiteralNode "true"]
           (mkFilter [mkClause "a" "=" ["1"]; mkClause "1" "=" ["1"]]) eq_refl).
Defined.

(** X7: a negation projects exactly when it negates an [Is] on a single
    literal, and then to the one clause [field != value]; the negation of a
    value list, of a range or of anything else is refused. *)
Theorem X7_convertNotNode_only_single_literal (e : Node) (f : Filter) :
  convertToFilter (NotNode e) = Ok f
  <-> exists id v, e = IsNode id (LiteralNode v) /\ f = mkFilter [mkClause id "!=" [v]].
Proof.
  simpl. unfold convertNotNode. split.
  - destruct e as [| | id v | | | | |]; try done.
    unfold convertIsNode. destruct v as [| lit | | | | nodes | |]; try done.
    + simpl. intros [= <-]. eauto.
    + destruct (convertIsNode_values nodes []) as [values|?|?]; simpl; done.
  - intros (id & v & -> & ->). done.
Qed.

(** ** The parameter map *)

Section SpannerKeys.
Context `{GoRuntime}.

(** A clause appends at most one condition, whatever its operator. *)
Lemma clauseCondition_at_most_one (fieldConfig : FilterToSpannerFieldConfig)
    (clause : Clause) (paramName : string) (conds : list string) (v : Value) :
  clauseCondition fieldConfig clause paramName = Ok (conds, v) ->
  length conds <= 1.
Proof.
  unfold clauseCondition.
  destruct (mapValues fieldConfig (Values clause)) as [mapped|e|p]; simpl; try done.
  destruct (_ && negb _); [done|].
  destruct (Contains ["IN"; "<@"; ">@"] (Operator clause)).
  { destruct (arrayParameter _ _ _); simpl; try done.
    repeat case_match; intros; simplify_eq; simpl; lia. }
  destruct (Contains ["="; "!="] (Operator clause)).
  { destruct (_ && _); [done|].
    destruct (prefixSuffixMatch _ _ _) as [[[op fl] mv]|e|p]; simpl; try done.
    repeat case_match; intros; simplify_eq; simpl; lia. }
  destruct (Contains [">="; "<="; ">"; "<"] (Operator clause)).
  - repeat case_match; intros; simplify_eq; simpl; lia.
  - intros [= <- <-]. simpl. lia.
Qed.

Lemma ToSpannerSQL_loop_conds_le (fieldConfigs : FieldConfigs) (f : Filter)
    (clauses : list Clause) (st st' : LoopState) :
  ToSpannerSQL_loop fieldConfigs f clauses st = Ok st' ->
  length (condAnds st') <= length (condAnds st) + placeholderIndex fieldConfigs clauses.
Proof.
  revert st. induction clauses as [|c rest IH]; intros st; simpl.
  - intros [= <-]. lia.
  - destruct (ToSpannerSQL_clause fieldConfigs f st c) as [st1|e|p] eqn:Hc;
      simpl; try done.
    intros Hle%IH. apply ToSpannerSQL_clause_inv in Hc as (fc & Hres & Hc).
    assert (lowered fieldConfigs c = negb (Ignore fc)) as Hlow
      by (unfold lowered; by rewrite Hres).
    unfold placeholderIndex in *. simpl. rewrite Hlow.
    destruct (Ignore fc); simpl; [by subst st1|].
    destruct Hc as (conds & v & _ & Hcond%clauseCondition_at_most_one & ->).
    simpl in Hle. rewrite length_app in Hle. lia.
Qed.

Lemma ToSpannerSQL_keys (f : Filter) (fieldConfigs : FieldConfigs)
    (conds : list string) (ps : gmap string Value) :
  ToSpannerSQL f fieldConfigs = Ok (conds, ps) ->
  let M := placeholderIndex fieldConfigs (Clauses f) in
  dom ps = list_to_set (paramNameOf <$> seq 0 M)
  /\ size ps = M
  /\ length conds <= M
  /\ (Forall (fun c => knownOperator (Operator c) = true) (Clauses f) ->
      length conds = M).
Proof.
  intros Hok M. unfold ToSpannerSQL in Hok.
  destruct (ToSpannerSQL_loop fieldConfigs f (Clauses f) _) as [st|e|p] eqn:Hloop;
    simpl in Hok; try done.
  destruct (checkRequired fieldConfigs f) as [[]|e|p]; simpl in Hok; try done.
  injection Hok as <- <-.
  pose proof (ToSpannerSQL_loop_conds_le _ _ _ _ _ Hloop) as Hle.
  apply ToSpannerSQL_loop_inv in Hloop as (Hidx & (new & Hc & Hlen) & _ & Hdom).
  simpl in *. fold M in Hidx, Hlen, Hle.
  assert (dom (params st) = list_to_set (paramNameOf <$> seq 0 M)) as Hd.
  { apply set_eq. intros key.
    rewrite elem_of_dom, Hdom, lookup_empty, elem_of_list_to_set, list_elem_of_fmap.
    split.
    - intros [[? ?]|(i & Hi & ->)]; [done|]. exists i. split; [done|].
      apply elem_of_seq. lia.
    - intros (i & -> & Hi%elem_of_seq). right. exists i. split; [lia|done]. }
  split; [exact Hd|]. split.
  { rewrite <- size_dom, Hd, size_list_to_set.
    - by rewrite length_fmap, length_seq.
    - apply NoDup_fmap_2; [intros i j; apply paramNameOf_inj | apply NoDup_seq]. }
  split; [exact Hle|].
  intros Hknown. rewrite Hc. by apply Hlen.
Qed.

(** X8: whatever the operators of the clauses, a successful call binds
    exactly the placeholders [KQL0 .. KQL(M-1)], [M] being the number of
    clauses whose config is resolved and not ignored, and returns at most
    [M] conditions. *)
Theorem X8_ToSpannerSQL_keys_of_lowered_clauses (f : Filter) (fieldConfigs : FieldConfigs)
    (conds : list string) (ps : gmap string Value) :
  ToSpannerSQL f fieldConfigs = Ok (conds, ps) ->
  let M := placeholderIndex fieldConfigs (Clauses f) in
  dom ps = list_to_set (paramNameOf <$> seq 0 M)
  /\ size ps = M
  /\ length conds <= M.
Proof.
  intros Hok M. destruct (ToSpannerSQL_keys _ _ _ _ Hok) as (Hd & Hs & Hle & _).
  done.
Qed.

Lemma projectedClause_known (c : Clause) :
  projectedClause c -> knownOperator (Operator c) = true.
Proof.
  intros [Hop _]. unfold projectedOperators in Hop.
  repeat (apply elem_of_cons in Hop as [-> | Hop]; [done|]).
  by apply elem_of_nil in Hop.
Qed.

(** X9: projecting an AST and lowering the filter, when both succeed, gives
    as many conditions as parameters, the parameters being
    [KQL0 .. KQL(N-1)], and no more conditions than the filter has clauses. *)
Theorem X9_project_then_lower (ast : Node) (f : Filter) (fieldConfigs : FieldConfigs)
    (conds : list string) (ps : gmap string Value) :
  convertToFilter ast = Ok f ->
  ToSpannerSQL f fieldConfigs = Ok (conds, ps) ->
  size ps = length conds
  /\ dom ps = list_to_set (paramNameOf <$> seq 0 (length conds))
  /\ length conds <= length (Clauses f).
Proof.
  intros Hproj Hok. destruct (ToSpannerSQL_keys _ _ _ _ Hok) as (Hd & Hs & _ & Hlen).
  rewrite Hlen.
  - split; [done|]. split; [done|]. unfold placeholderIndex. apply List.filter_length_le.
  - eapply Forall_impl; [exact (convertToFilter_projected ast f Hproj)|].
    intros c. apply projectedClause_known.
Qed.

End SpannerKeys.

(** ** Removing repetitions, further *)

Section UniqueMore.
Context {T : Type} (eqb : T -> T -> bool).

Lemma uniqueSliceElements_loop_sublist (inputSlice uniqueSlice seen : list T) :
  exists kept,
    uniqueSliceElements_loop eqb inputSlice uniqueSlice seen = uniqueSlice ++ kept
    /\ kept `sublist_of` inputSlice.
Proof.
  revert uniqueSlice seen.
  induction inputSlice as [|x rest IH]; intros u seen; simpl.
  - exists []. by rewrite app_nil_r.
  - destruct (existsb _ seen); simpl.
    + destruct (IH u seen) as (kept & -> & Hsub). exists kept.
      split; [done|]. by apply sublist_cons.
    + destruct (IH (u ++ [x]) (x :: seen)) as (kept & -> & Hsub). exists (x :: kept).
      rewrite <- app_assoc. split; [done|]. by apply sublist_skip.
Qed.

(** X10: [uniqueSliceElements] only drops elements: what it returns is a
    subsequence of its input, in the order of the input. *)
Theorem X10_uniqueSliceElements_sublist (inputSlice : list T) :
  uniqueSliceElements eqb inputSlice `sublist_of` inputSlice.
Proof.
  unfold uniqueSliceElements.
  destruct (uniqueSliceElements_loop_sublist inputSlice [] []) as (kept & -> & Hsub).
  done.
Qed.

Lemma uniqueSliceElements_loop_id (inputSlice uniqueSlice seen : list T) :
  noDuplicates eqb inputSlice ->
  (forall k x, k ∈ seen -> x ∈ inputSlice -> eqb k x = false) ->
  uniqueSliceElements_loop eqb inputSlice uniqueSlice seen = uniqueSlice ++ inputSlice.
Proof.
  revert uniqueSlice seen.
  induction inputSlice as [|x rest IH]; intros u seen Hnd Hseen; simpl.
  - by rewrite app_nil_r.
  - assert (existsb (fun k => eqb k x) seen = false) as ->.
    { apply not_true_iff_false. intros (k & Hk%list_elem_of_In & Hkx)%existsb_exists.
      rewrite Hseen in Hkx; [done | done | by left]. }
    simpl. rewrite IH.
    + by rewrite <- app_assoc.
    + intros i j a b Hij Hi Hj. apply (Hnd (S i) (S j) a b); [lia | done | done].
    + intros k y [-> | Hk]%elem_of_cons Hy.
      * apply list_elem_of_lookup in Hy as [j Hj].
        apply (Hnd 0 (S j) x y); [lia | done | done].
      * apply Hseen; [done | by right].
Qed.

(** X11: a slice in which no two elements are equal under [==] is returned as
    it is; so applying [uniqueSliceElements] a second time changes
    nothing. *)
Theorem X11_uniqueSliceElements_idempotent (inputSlice : list T) :
  (noDuplicates eqb inputSlice -> uniqueSliceElements eqb inputSlice = inputSlice)
  /\ uniqueSliceElements eqb (uniqueSliceElements eqb inputSlice)
     = uniqueSliceElements eqb inputSlice.
Proof.
  assert (forall l, noDuplicates eqb l -> uniqueSliceElements eqb l = l) as Hid.
  { intros l Hl. unfold uniqueSliceElements.
    rewrite uniqueSliceElements_loop_id; [done | done |].
    intros k x Hk. by apply elem_of_nil in Hk. }
  split; [apply Hid|]. apply Hid, uniqueSliceElements_noDuplicates.
Qed.

End UniqueMore.

(** ** Escaping *)

Lemma escapeEvery_inj (a b : string) : escapeEvery a = escapeEvery b -> a = b.
Proof.
  revert b. induction a as [|c1 a IH]; intros [|c2 b]; cbn [escapeEvery].
  - done.
  - unfold escapeByte. destruct (_ || _); done.
  - unfold escapeByte. destruct (_ || _); done.
  - unfold escapeByte.
    destruct (Ascii.eqb c1 "\" || Ascii.eqb c1 "_" || Ascii.eqb c1 "%") eqn:H1;
      destruct (Ascii.eqb c2 "\" || Ascii.eqb c2 "_" || Ascii.eqb c2 "%") eqn:H2;
      rewrite ?string_app_cons; intros Heq; simplify_eq.
    + f_equal. by apply IH.
    + f_equal. by apply IH.
Qed.

(** X12: the escaping of [LIKE] patterns loses nothing: two strings with the
    same escaped form are the same string. *)
Theorem X12_escapePrefixSuffixSpecialChars_injective (a b : string) :
  escapePrefixSuffixSpecialChars a = escapePrefixSuffixSpecialChars b -> a = b.
Proof.
  rewrite !escapePrefixSuffixSpecialChars_escapeEvery. apply escapeEvery_inj.
Qed.

Lemma X12_escapePrefixSuffixSpecialChars_injective_witness : "70%" = "70%".
Proof.
  exact (X12_escapePrefixSuffixSpecialChars_injective "70%" "70%" eq_refl).
Defined.

Lemma string_app_nil_l (s : string) : "" +:+ s = s.
Proof. reflexivity. Qed.

Lemma escapeEvery_length (s : string) :
  String.length (escapeEvery s)
  = String.length s
    + length (List.filter specialByte (list_ascii_of_string s)).
Proof.
  induction s as [|c s IH]; [done|].
  cbn [escapeEvery list_ascii_of_string List.filter String.length].
  unfold escapeByte, specialByte in *.
  destruct (Ascii.eqb c "\" || Ascii.eqb c "_" || Ascii.eqb c "%");
    rewrite ?string_app_cons, ?string_app_nil_l; simpl; rewrite IH; lia.
Qed.

(** X13: escaping adds one byte for each backslash, underscore and percent
    sign of the string, and leaves a string without any of them as it is. *)
Theorem X13_escapePrefixSuffixSpecialChars_length (s : string) :
  String.length (escapePrefixSuffixSpecialChars s)
  = String.length s + length (List.filter specialByte (list_ascii_of_string s))
  /\ (hasSpecialByte s = false -> escapePrefixSuffixSpecialChars s = s).
Proof.
  rewrite escapePrefixSuffixSpecialChars_escapeEvery. split; [apply escapeEvery_length|].
  induction s as [|c s IH]; [done|]. cbn [hasSpecialByte escapeEvery].
  intros [Hc Hs]%orb_false_iff. unfold escapeByte. unfold specialByte in Hc.
  rewrite Hc, string_app_cons, string_app_nil_l. by rewrite IH.
Qed.

(** ** Values, aliases and required fields *)

Section SpannerConfigs.
Context `{GoRuntime}.

Lemma convertValue_typed (fieldConfig : FilterToSpannerFieldConfig) (value : string)
    (v : Value) :
  convertValue fieldConfig value = Ok v ->
  valueOfColumnType (ColumnType fieldConfig) v = true /\ isSliceValue v = false.
Proof.
  unfold convertValue. destruct (ColumnType fieldConfig); simpl.
  - repeat case_match; intros; by simplify_eq.
  - by intros [= <-].
  - destruct (ParseInt value); try done. by intros [= <-].
  - destruct (ParseFloat value); try done. by intros [= <-].
  - destruct (ParseBool value); try done. by intros [= <-].
  - destruct (ParseTime value); try done. by intros [= <-].
Qed.

(** X14: without a map_value hook, the value a clause binds has the Go type
    of its column: a scalar of that type for a single value, a slice of it
    for any other number of values (with no column type: the integers 0 and
    1 for ["0"] and ["1"], strings otherwise). *)
Theorem X14_mapValues_typed (fieldConfig : FilterToSpannerFieldConfig)
    (values : list string) (v : Value) :
  MapValue fieldConfig = None ->
  mapValues fieldConfig values = Ok v ->
  valueOfColumnType (ColumnType fieldConfig) v = true
  /\ isSliceValue v = negb (length values =? 1)%nat.
Proof.
  intros Hhook. unfold mapValues. rewrite Hhook. simpl.
  destruct (decide (length values = 1)) as [Hone | Hmany].
  - destruct values as [|x [|y rest]]; try done. unfold unwrapSlice. simpl.
    destruct (negb _); simpl; apply convertValue_typed.
  - rewrite unwrapSlice_VStrings by done. simpl.
    apply Nat.eqb_neq in Hmany. rewrite Hmany.
    destruct (negb _); simpl; [done|].
    destruct (ColumnType fieldConfig); try by intros [= <-].
    all: destruct (mapValues_convertEach _ fieldConfig values) as [l|?|?];
      simpl; try done; by intros [= <-].
Qed.

Lemma checkRequires_field_free (fieldConfig : FilterToSpannerFieldConfig)
    (clauses : list Clause) (c c' : Clause) (requires : list string) :
  checkRequires fieldConfig clauses c requires = Ok tt ->
  checkRequires fieldConfig clauses c' requires = Ok tt.
Proof.
  induction requires as [|r rest IH]; simpl; [done|].
  destruct (existsb _ clauses); [exact IH | done].
Qed.

Lemma clauseCondition_field_free (fieldConfig : FilterToSpannerFieldConfig)
    (c c' : Clause) (paramName : string) (r : list string * Value) :
  ColumnName fieldConfig <> "" ->
  Operator c' = Operator c ->
  Values c' = Values c ->
  clauseCondition fieldConfig c paramName = Ok r ->
  clauseCondition fieldConfig c' paramName = Ok r.
Proof.
  intros Hcol Hop Hvals. unfold clauseCondition, columnNameOf. rewrite Hop, Hvals.
  destruct (String.eqb_spec (ColumnName fieldConfig) ""); [done|].
  destruct (mapValues fieldConfig (Values c)) as [mapped|e|p]; simpl; try done.
  destruct (_ && negb _); [done|].
  destruct (Contains ["IN"; "<@"; ">@"] (Operator c)).
  { destruct (arrayParameter _ _ _); simpl; try done.
    repeat case_match; intros; by simplify_eq. }
  destruct (Contains ["="; "!="] (Operator c)).
  { destruct (_ && _); [done|].
    destruct (prefixSuffixMatch _ _ _) as [[[op fl] mv]|e|p]; simpl; done. }
  destruct (Contains [">="; "<="; ">"; "<"] (Operator c)); [|done].
  repeat case_match; intros; by simplify_eq.
Qed.

(** X15: when a config names its column, the field name under which a clause
    reaches it, key or alias, changes nothing in what a successful
    iteration does: two clauses with the same operator and values that
    resolve to the config append the same condition and bind the same
    value. *)
Theorem X15_alias_same_condition (fieldConfigs : FieldConfigs) (f : Filter)
    (st st' : LoopState) (c c' : Clause) (fieldConfig : FilterToSpannerFieldConfig) :
  resolveFieldConfig fieldConfigs c = Ok fieldConfig ->
  resolveFieldConfig fieldConfigs c' = Ok fieldConfig ->
  ColumnName fieldConfig <> "" ->
  Operator c' = Operator c ->
  Values c' = Values c ->
  ToSpannerSQL_clause fieldConfigs f st c = Ok st' ->
  ToSpannerSQL_clause fieldConfigs f st c' = Ok st'.
Proof.
  intros Hres Hres' Hcol Hop Hvals. unfold ToSpannerSQL_clause.
  rewrite Hres, Hres'. simpl. destruct (Ignore fieldConfig); [done|].
  destruct (checkRequires fieldConfig (Clauses f) c (Requires fieldConfig))
    as [[]|?|?] eqn:Hreq; simpl; try done.
  rewrite (checkRequires_field_free _ _ c c' _ Hreq). simpl.
  destruct (clauseCondition fieldConfig c _) as [r|?|?] eqn:Hcond; simpl; try done.
  by rewrite (clauseCondition_field_free _ c c' _ r Hcol Hop Hvals Hcond).
Qed.

Lemma Contains_elem_of (l : list string) (x : string) :
  Contains l x = true <-> x ∈ l.
Proof.
  unfold Contains. rewrite existsb_exists. split.
  - intros (y & Hy%list_elem_of_In & ->%String.eqb_eq). done.
  - intros Hx. exists x. split; [by apply list_elem_of_In | apply String.eqb_refl].
Qed.

(** The test of the two presence checks: a clause on the field or on one of
    the aliases of the config. *)
Lemma presence_spec (fieldConfig : FilterToSpannerFieldConfig) (clauses : list Clause)
    (field : string) :
  existsb (fun c => String.eqb (Field c) field
                    || Contains (Aliases fieldConfig) (Field c)) clauses = true
  <-> exists c, c ∈ clauses /\ (Field c = field \/ Field c ∈ Aliases fieldConfig).
Proof.
  rewrite existsb_exists. split.
  - intros (c & Hc%list_elem_of_In & Hor). exists c. split; [done|].
    apply orb_true_iff in Hor as [->%String.eqb_eq | Ha%Contains_elem_of]; auto.
  - intros (c & Hc & Hor). exists c. split; [by apply list_elem_of_In|].
    apply orb_true_iff. destruct Hor as [-> | Ha].
    + left. apply String.eqb_refl.
    + right. by apply Contains_elem_of.
Qed.

Lemma checkRequired_ok (fieldConfigs : FieldConfigs) (f : Filter) :
  checkRequired fieldConfigs f = Ok tt
  <-> forall field fieldConfig,
        (field, fieldConfig) ∈ fieldConfigs ->
        Required fieldConfig = true ->
        exists c, c ∈ Clauses f /\ (Field c = field \/ Field c ∈ Aliases fieldConfig).
Proof.
  induction fieldConfigs as [|[k fc] rest IH]; simpl.
  - split; [|done]. intros _ field fc Hin. by apply elem_of_nil in Hin.
  - destruct (Required fc) eqn:Hreq; simpl.
    + destruct (existsb _ (Clauses f)) eqn:Hex; simpl.
      * rewrite IH. split.
        -- intros Hall field fc' [[= -> ->] | Hin]%elem_of_cons Hr; [|by eauto].
           by apply presence_spec.
        -- intros Hall field fc' Hin. apply Hall. by right.
      * split; [done|]. intros Hall.
        destruct (Hall k fc) as (c & Hc); [by left | done |].
        assert (existsb (fun c => String.eqb (Field c) k
                                  || Contains (Aliases fc) (Field c)) (Clauses f)
                = true) by (apply presence_spec; eauto).
        congruence.
    + rewrite IH. split.
      * intros Hall field fc' [[= -> ->] | Hin]%elem_of_cons Hr; [congruence | by eauto].
      * intros Hall field fc' Hin. apply Hall. by right.
Qed.

(** X16: a call succeeds only if every config marked required has, in the
    filter, a clause on its key or on one of its aliases. *)
Theorem X16_required_fields_present (f : Filter) (fieldConfigs : FieldConfigs)
    (conds : list string) (ps : gmap string Value) (field : string)
    (fieldConfig : FilterToSpannerFieldConfig) :
  ToSpannerSQL f fieldConfigs = Ok (conds, ps) ->
  (field, fieldConfig) ∈ fieldConfigs ->
  Required fieldConfig = true ->
  exists c, c ∈ Clauses f /\ (Field c = field \/ Field c ∈ Aliases fieldConfig).
Proof.
  unfold ToSpannerSQL.
  destruct (ToSpannerSQL_loop _ _ _ _) as [st|?|?]; simpl; try done.
  destruct (checkRequired fieldConfigs f) as [[]|?|?] eqn:Hreq; simpl; try done.
  intros _. by apply checkRequired_ok.
Qed.

Lemma checkRequires_ok (fieldConfig : FilterToSpannerFieldConfig)
    (clauses : list Clause) (c : Clause) (requires : list string) :
  checkRequires fieldConfig clauses c requires = Ok tt
  <-> forall r, r ∈ requires ->
        exists c', c' ∈ clauses /\ (Field c' = r \/ Field c' ∈ Aliases fieldConfig).
Proof.
  induction requires as [|r rest IH]; simpl.
  - split; [|done]. intros _ r Hr. by apply elem_of_nil in Hr.
  - destruct (existsb _ clauses) eqn:Hex.
    + rewrite IH. split.
      * intros Hall r' [-> | Hin]%elem_of_cons; [by apply presence_spec | by eauto].
      * intros Hall r' Hin. apply Hall. by right.
    + split; [done|]. intros Hall. destruct (Hall r) as (c' & Hc'); [by left|].
      assert (existsb (fun c => String.eqb (Field c) r
                                || Contains (Aliases fieldConfig) (Field c)) clauses
              = true) by (apply presence_spec; eauto).
      congruence.
Qed.

(** X17: in a successful call, for each clause that is lowered and each field
    its config requires, the filter has a clause on that field, or a clause
    on an alias of the config itself. *)
Theorem X17_requires_companions_present (f : Filter) (fieldConfigs : FieldConfigs)
    (conds : list string) (ps : gmap string Value) (pre post : list Clause) (c : Clause)
    (fieldConfig : FilterToSpannerFieldConfig) (requiredField : string) :
  Clauses f = pre ++ c :: post ->
  ToSpannerSQL f fieldConfigs = Ok (conds, ps) ->
  resolveFieldConfig fieldConfigs c = Ok fieldConfig ->
  Ignore fieldConfig = false ->
  requiredField ∈ Requires fieldConfig ->
  exists c', c' ∈ Clauses f
    /\ (Field c' = requiredField \/ Field c' ∈ Aliases fieldConfig).
Proof.
  intros Hf Hok Hres Hign Hin.
  destruct (ToSpannerSQL_split _ _ _ _ _ _ _ Hf Hok) as (st1 & st2 & st3 & _ & Hc & _).
  apply ToSpannerSQL_clause_inv in Hc as (fc & Hres' & Hc).
  rewrite Hres in Hres'. injection Hres' as <-. rewrite Hign in Hc.
  destruct Hc as (newConds & v & Hreq & _).
  exact (proj1 (checkRequires_ok _ _ _ _) Hreq requiredField Hin).
Qed.

End SpannerConfigs.

(** ** Equality, negation and the wildcard rewrites *)

Section SpannerWildcards.
Context `{GoRuntime}.

Lemma clauseCondition_eq_neq (fieldConfig : FilterToSpannerFieldConfig) (clause : Clause)
    (paramName : string) :
  Contains ["="; "!="] (Operator clause) = true ->
  clauseCondition fieldConfig clause paramName
  = match mapValues fieldConfig (Values clause) with
    | Ok mapped =>
        if (1 <? length (Values clause))%nat
        then Err ("operator " +:+ Operator clause
                  +:+ " doesn't support multiple values in field: " +:+ Field clause)
        else if negb (AllowNegation fieldConfig) && String.eqb (Operator clause) "!="
        then Err ("operator " +:+ Operator clause +:+ " not supported for field: "
                  +:+ Field clause)
        else
          '(operator, forceLowercase, mappedValue) ←
              prefixSuffixMatch fieldConfig (Operator clause) mapped;
          if (forceLowercase : bool) && AllowCaseInsensitiveMatch fieldConfig
          then Ok (["LOWER(" +:+ columnNameOf fieldConfig clause +:+ ")" +:+ operator
                    +:+ "LOWER(@" +:+ paramName +:+ ")"], mappedValue)
          else Ok ([columnNameOf fieldConfig clause +:+ operator +:+ "@" +:+ paramName],
                   mappedValue)
    | Err err => Err ("field " +:+ Field clause +:+ ": " +:+ err)
    | Panic p => Panic p
    end.
Proof.
  intros Hop. unfold clauseCondition.
  destruct (mapValues fieldConfig (Values clause)) as [mapped|e|p]; try done.
  assert (Contains ["IN"; "<@"; ">@"] (Operator clause) = false) as ->.
  { revert Hop. unfold Contains. cbn [existsb].
    destruct (String.eqb_spec (Operator clause) "=") as [->|_]; [done|].
    destruct (String.eqb_spec (Operator clause) "!=") as [->|_]; done. }
  rewrite Hop. simpl. rewrite andb_true_r. done.
Qed.

Lemma HasSuffix_length (s suf : string) :
  HasSuffix s suf = true -> String.length suf <= String.length s.
Proof. unfold HasSuffix. intros [Hle _]%andb_true_iff. by apply Nat.leb_le. Qed.

Lemma HasPrefix_length (s pre : string) :
  HasPrefix s pre = true -> String.length pre <= String.length s.
Proof. unfold HasPrefix. intros [Hle _]%andb_true_iff. by apply Nat.leb_le. Qed.

Lemma HasPrefix_app (pre s : string) : HasPrefix (pre +:+ s) pre = true.
Proof.
  unfold HasPrefix. rewrite string_length_app, substring_app_prefix, String.eqb_refl.
  rewrite andb_true_r. apply Nat.leb_le. lia.
Qed.

Lemma sliceString_middle (a b c : string) :
  sliceString (a +:+ b +:+ c) (Z.of_nat (String.length a))
    (Z.of_nat (String.length (a +:+ b +:+ c)) - Z.of_nat (String.length c))
  = Ok b.
Proof.
  unfold sliceString. rewrite !string_length_app.
  replace (_ && _ && _) with true
    by (symmetry; rewrite !andb_true_iff, !Z.leb_le; lia).
  rewrite Nat2Z.id.
  replace (Z.to_nat _) with (String.length b) by lia.
  f_equal. clear. induction a as [|x a IH].
  - rewrite string_app_nil_l. apply substring_app_prefix.
  - rewrite string_app_cons. simpl. exact IH.
Qed.

Lemma string_app_nil_r (s : string) : s +:+ "" = s.
Proof. induction s as [|x s IH]; [done|]. by rewrite string_app_cons, IH. Qed.

Lemma sliceString_drop_last (e : string) :
  sliceString (e +:+ "*") 0 (Z.of_nat (String.length (e +:+ "*")) - 1) = Ok e.
Proof.
  pose proof (sliceString_middle "" e "*") as Hs.
  rewrite !string_app_nil_l in Hs. exact Hs.
Qed.

Lemma sliceString_drop_first (e : string) :
  sliceString ("*" +:+ e) 1 (Z.of_nat (String.length ("*" +:+ e))) = Ok e.
Proof.
  pose proof (sliceString_middle "*" e "") as Hs.
  rewrite !string_app_nil_r in Hs.
  change (Z.of_nat (String.length "")) with 0%Z in Hs.
  rewrite Z.sub_0_r in Hs. exact Hs.
Qed.

Lemma sliceString_drop_both (e : string) :
  sliceString ("*" +:+ e +:+ "*") 1
    (Z.of_nat (String.length ("*" +:+ e +:+ "*")) - 1) = Ok e.
Proof. exact (sliceString_middle "*" e "*"). Qed.

(** The results of the four branches of the rewrite. *)
Lemma prefixSuffixMatch_none (fieldConfig : FilterToSpannerFieldConfig)
    (operator : string) (v : Value) :
  (forall s, v = VString s ->
     needsPrefixMatch fieldConfig s = false /\ needsSuffixMatch fieldConfig s = false) ->
  prefixSuffixMatch fieldConfig operator v = Ok (operator, false, v).
Proof.
  intros Hno. unfold prefixSuffixMatch. destruct v; try done.
  destruct (Hno s eq_refl) as [Hp Hs].
  unfold needsPrefixMatch, needsSuffixMatch in *. by rewrite Hp, Hs.
Qed.

Lemma prefixSuffixMatch_prefix (fieldConfig : FilterToSpannerFieldConfig)
    (operator v' : string) :
  needsPrefixMatch fieldConfig (v' +:+ "*") = true ->
  needsSuffixMatch fieldConfig (v' +:+ "*") = false ->
  prefixSuffixMatch fieldConfig operator (VString (v' +:+ "*"))
  = Ok (likeOperator operator, true, VString (escapeEvery v' +:+ "%")).
Proof.
  unfold needsPrefixMatch, needsSuffixMatch, prefixSuffixMatch. intros -> ->.
  cbn [andb]. rewrite escapePrefixSuffixSpecialChars_escapeEvery, escapeEvery_app.
  change (escapeEvery "*") with "*". by rewrite sliceString_drop_last.
Qed.

Lemma prefixSuffixMatch_suffix (fieldConfig : FilterToSpannerFieldConfig)
    (operator v' : string) :
  needsPrefixMatch fieldConfig ("*" +:+ v') = false ->
  needsSuffixMatch fieldConfig ("*" +:+ v') = true ->
  prefixSuffixMatch fieldConfig operator (VString ("*" +:+ v'))
  = Ok (likeOperator operator, true, VString ("%" +:+ escapeEvery v')).
Proof.
  unfold needsPrefixMatch, needsSuffixMatch, prefixSuffixMatch. intros -> ->.
  cbn [andb]. rewrite escapePrefixSuffixSpecialChars_escapeEvery, escapeEvery_app.
  change (escapeEvery "*") with "*". by rewrite sliceString_drop_first.
Qed.

Lemma prefixSuffixMatch_both (fieldConfig : FilterToSpannerFieldConfig)
    (operator inner : string) :
  needsPrefixMatch fieldConfig ("*" +:+ inner +:+ "*") = true ->
  needsSuffixMatch fieldConfig ("*" +:+ inner +:+ "*") = true ->
  prefixSuffixMatch fieldConfig operator (VString ("*" +:+ inner +:+ "*"))
  = Ok (likeOperator operator, true, VString ("%" +:+ escapeEvery inner +:+ "%")).
Proof.
  unfold needsPrefixMatch, needsSuffixMatch, prefixSuffixMatch. intros -> ->.
  cbn [andb]. rewrite escapePrefixSuffixSpecialChars_escapeEvery, !escapeEvery_app.
  change (escapeEvery "*") with "*". by rewrite sliceString_drop_both.
Qed.

(** What a successful call did for a lowered clause with [=] or [!=]. *)
Lemma ToSpannerSQL_equality_clause (f : Filter) (fieldConfigs : FieldConfigs)
    (conds : list string) (ps : gmap string Value) (pre post : list Clause) (c : Clause)
    (fieldConfig : FilterToSpannerFieldConfig) :
  Clauses f = pre ++ c :: post ->
  Contains ["="; "!="] (Operator c) = true ->
  resolveFieldConfig fieldConfigs c = Ok fieldConfig ->
  Ignore fieldConfig = false ->
  ToSpannerSQL f fieldConfigs = Ok (conds, ps) ->
  let P := paramNameOf (placeholderIndex fieldConfigs pre) in
  exists mapped operator forceLowercase v,
    mapValues fieldConfig (Values c) = Ok mapped
    /\ (Operator c = "!=" -> AllowNegation fieldConfig = true)
    /\ prefixSuffixMatch fieldConfig (Operator c) mapped = Ok (operator, forceLowercase, v)
    /\ ps !! P = Some v
    /\ (if forceLowercase then likeCondition fieldConfig c operator P
        else columnNameOf fieldConfig c +:+ operator +:+ "@" +:+ P) ∈ conds.
Proof.
  intros Hf Hop Hres Hign Hok P.
  destruct (ToSpannerSQL_lowered_clause _ _ _ _ _ _ _ _ Hf Hok Hres Hign)
    as (newConds & v & Hcond & Hps & Hin & _).
  fold P in Hcond, Hps. rewrite clauseCondition_eq_neq in Hcond by done.
  destruct (mapValues fieldConfig (Values c)) as [mapped|e|p]; try done.
  destruct (1 <? length (Values c))%nat; [done|].
  destruct (negb (AllowNegation fieldConfig) && String.eqb (Operator c) "!=") eqn:Hneg;
    [done|].
  destruct (prefixSuffixMatch fieldConfig (Operator c) mapped)
    as [[[op fl] mv]|e|p] eqn:Hmatch; simpl in Hcond; try done.
  exists mapped, op, fl, mv. split; [done|]. split.
  { intros Hne. rewrite Hne in Hneg. simpl in Hneg. rewrite andb_true_r in Hneg.
    by apply negb_false_iff in Hneg. }
  split; [done|]. unfold likeCondition.
  destruct fl; simpl in Hcond; [destruct (AllowCaseInsensitiveMatch fieldConfig)|];
    injection Hcond as <- <-; (split; [done|]); apply Hin; constructor.
Qed.

(** X18: a clause with [!=] is lowered only on a config with allow_negation;
    with no wildcard option on the config its condition is [col!=@P], bound
    to the mapped value.  Without allow_negation the call fails with
    [operator != not supported for field: f] when the clause is reached, its
    required fields are there and its single value is mapped. *)
Theorem X18_negation (f : Filter) (fieldConfigs : FieldConfigs)
    (pre post : list Clause) (c : Clause) (fieldConfig : FilterToSpannerFieldConfig) :
  Clauses f = pre ++ c :: post ->
  Operator c = "!=" ->
  resolveFieldConfig fieldConfigs c = Ok fieldConfig ->
  Ignore fieldConfig = false ->
  let P := paramNameOf (placeholderIndex fieldConfigs pre) in
  (forall conds ps,
     ToSpannerSQL f fieldConfigs = Ok (conds, ps) ->
     AllowNegation fieldConfig = true
     /\ (AllowPrefixMatch fieldConfig = false ->
         AllowSuffixMatch fieldConfig = false ->
         (columnNameOf fieldConfig c +:+ "!=@" +:+ P) ∈ conds
         /\ exists v, mapValues fieldConfig (Values c) = Ok v /\ ps !! P = Some v))
  /\ (AllowNegation fieldConfig = false ->
      forall st v,
        ToSpannerSQL_loop fieldConfigs f pre (mkLoopState [] ∅ 0) = Ok st ->
        checkRequires fieldConfig (Clauses f) c (Requires fieldConfig) = Ok tt ->
        mapValues fieldConfig (Values c) = Ok v ->
        length (Values c) <= 1 ->
        ToSpannerSQL f fieldConfigs
        = Err ("operator != not supported for field: " +:+ Field c)).
Proof.
  intros Hf Hop Hres Hign P.
  assert (Contains ["="; "!="] (Operator c) = true) as Hc by (by rewrite Hop).
  split.
  - intros conds ps Hok.
    destruct (ToSpannerSQL_equality_clause _ _ _ _ _ _ _ _ Hf Hc Hres Hign Hok)
      as (mapped & op & fl & v & Hmap & Hneg & Hmatch & Hps & Hin).
    split; [by apply Hneg|]. intros Hp Hs.
    rewrite prefixSuffixMatch_none in Hmatch.
    + injection Hmatch as <- <- <-. rewrite Hop in Hin. split; [exact Hin | eauto].
    + intros s _. unfold needsPrefixMatch, needsSuffixMatch. by rewrite Hp, Hs.
  - intros Hneg st v Hpre Hreq Hmap Hlen.
    eapply ToSpannerSQL_clause_error; [exact Hf | exact Hpre |].
    eapply ToSpannerSQL_clause_condition_error; eauto.
    rewrite clauseCondition_eq_neq by done. rewrite Hmap, Hop, Hneg.
    by replace (1 <? length (Values c))%nat with false
      by (symmetry; apply Nat.ltb_ge; lia).
Qed.

(** X19: a lowered clause with [=] or [!=] whose mapped value needs neither
    rewrite (no string, no wildcard option, or no star where the option looks
    for one) has the condition [col op @P] and binds the mapped value
    unchanged, stars and percent signs included. *)
Theorem X19_plain_comparison (f : Filter) (fieldConfigs : FieldConfigs)
    (conds : list string) (ps : gmap string Value) (pre post : list Clause) (c : Clause)
    (fieldConfig : FilterToSpannerFieldConfig) (v : Value) :
  Clauses f = pre ++ c :: post ->
  Contains ["="; "!="] (Operator c) = true ->
  resolveFieldConfig fieldConfigs c = Ok fieldConfig ->
  Ignore fieldConfig = false ->
  mapValues fieldConfig (Values c) = Ok v ->
  (forall s, v = VString s ->
     needsPrefixMatch fieldConfig s = false /\ needsSuffixMatch fieldConfig s = false) ->
  ToSpannerSQL f fieldConfigs = Ok (conds, ps) ->
  let P := paramNameOf (placeholderIndex fieldConfigs pre) in
  (columnNameOf fieldConfig c +:+ Operator c +:+ "@" +:+ P) ∈ conds
  /\ ps !! P = Some v.
Proof.
  intros Hf Hc Hres Hign Hmap Hno Hok P.
  destruct (ToSpannerSQL_equality_clause _ _ _ _ _ _ _ _ Hf Hc Hres Hign Hok)
    as (mapped & op & fl & v0 & Hmap' & _ & Hmatch & Hps & Hin).
  rewrite Hmap in Hmap'. injection Hmap' as <-.
  rewrite prefixSuffixMatch_none in Hmatch by done.
  injection Hmatch as <- <- <-. done.
Qed.

(** X20: a lowered clause with [=] or [!=] whose mapped value is a string
    [v'*] that needs the prefix rewrite only has the condition
    [col LIKE @P] or [col NOT LIKE @P], inside [LOWER( )] on both sides when
    the config is case-insensitive, and binds [v'] escaped, followed by
    [%]. *)
Theorem X20_prefix_rewrite (f : Filter) (fieldConfigs : FieldConfigs)
    (conds : list string) (ps : gmap string Value) (pre post : list Clause) (c : Clause)
    (fieldConfig : FilterToSpannerFieldConfig) (v' : string) :
  Clauses f = pre ++ c :: post ->
  Contains ["="; "!="] (Operator c) = true ->
  resolveFieldConfig fieldConfigs c = Ok fieldConfig ->
  Ignore fieldConfig = false ->
  mapValues fieldConfig (Values c) = Ok (VString (v' +:+ "*")) ->
  needsPrefixMatch fieldConfig (v' +:+ "*") = true ->
  needsSuffixMatch fieldConfig (v' +:+ "*") = false ->
  ToSpannerSQL f fieldConfigs = Ok (conds, ps) ->
  let P := paramNameOf (placeholderIndex fieldConfigs pre) in
  likeCondition fieldConfig c (likeOperator (Operator c)) P ∈ conds
  /\ ps !! P = Some (VString (escapePrefixSuffixSpecialChars v' +:+ "%")).
Proof.
  intros Hf Hc Hres Hign Hmap Hp Hs Hok P.
  rewrite escapePrefixSuffixSpecialChars_escapeEvery.
  destruct (ToSpannerSQL_equality_clause _ _ _ _ _ _ _ _ Hf Hc Hres Hign Hok)
    as (mapped & op & fl & v0 & Hmap' & _ & Hmatch & Hps & Hin).
  rewrite Hmap in Hmap'. injection Hmap' as <-.
  rewrite prefixSuffixMatch_prefix in Hmatch by done.
  injection Hmatch as <- <- <-. done.
Qed.

(** X21: a lowered clause with [=] or [!=] whose mapped value is a string
    [*v'] that needs the suffix rewrite only has the condition [LIKE] or
    [NOT LIKE] and binds [%] followed by [v'] escaped. *)
Theorem X21_suffix_rewrite (f : Filter) (fieldConfigs : FieldConfigs)
    (conds : list string) (ps : gmap string Value) (pre post : list Clause) (c : Clause)
    (fieldConfig : FilterToSpannerFieldConfig) (v' : string) :
  Clauses f = pre ++ c :: post ->
  Contains ["="; "!="] (Operator c) = true ->
  resolveFieldConfig fieldConfigs c = Ok fieldConfig ->
  Ignore fieldConfig = false ->
  mapValues fieldConfig (Values c) = Ok (VString ("*" +:+ v')) ->
  needsPrefixMatch fieldConfig ("*" +:+ v') = false ->
  needsSuffixMatch fieldConfig ("*" +:+ v') = true ->
  ToSpannerSQL f fieldConfigs = Ok (conds, ps) ->
  let P := paramNameOf (placeholderIndex fieldConfigs pre) in
  likeCondition fieldConfig c (likeOperator (Operator c)) P ∈ conds
  /\ ps !! P = Some (VString ("%" +:+ escapePrefixSuffixSpecialChars v')).
Proof.
  intros Hf Hc Hres Hign Hmap Hp Hs Hok P.
  rewrite escapePrefixSuffixSpecialChars_escapeEvery.
  destruct (ToSpannerSQL_equality_clause _ _ _ _ _ _ _ _ Hf Hc Hres Hign Hok)
    as (mapped & op & fl & v0 & Hmap' & _ & Hmatch & Hps & Hin).
  rewrite Hmap in Hmap'. injection Hmap' as <-.
  rewrite prefixSuffixMatch_suffix in Hmatch by done.
  injection Hmatch as <- <- <-. done.
Qed.

(** X22: a lowered clause with [=] or [!=] whose mapped value is a string
    [*inner*] that needs both rewrites has the condition [LIKE] or
    [NOT LIKE] and binds [%], [inner] escaped, [%]. *)
Theorem X22_prefix_and_suffix_rewrite (f : Filter) (fieldConfigs : FieldConfigs)
    (conds : list string) (ps : gmap string Value) (pre post : list Clause) (c : Clause)
    (fieldConfig : FilterToSpannerFieldConfig) (inner : string) :
  Clauses f = pre ++ c :: post ->
  Contains ["="; "!="] (Operator c) = true ->
  resolveFieldConfig fieldConfigs c = Ok fieldConfig ->
  Ignore fieldConfig = false ->
  mapValues fieldConfig (Values c) = Ok (VString ("*" +:+ inner +:+ "*")) ->
  needsPrefixMatch fieldConfig ("*" +:+ inner +:+ "*") = true ->
  needsSuffixMatch fieldConfig ("*" +:+ inner +:+ "*") = true ->
  ToSpannerSQL f fieldConfigs = Ok (conds, ps) ->
  let P := paramNameOf (placeholderIndex fieldConfigs pre) in
  likeCondition fieldConfig c (likeOperator (Operator c)) P ∈ conds
  /\ ps !! P = Some (VString ("%" +:+ escapePrefixSuffixSpecialChars inner +:+ "%")).
Proof.
  intros Hf Hc Hres Hign Hmap Hp Hs Hok P.
  rewrite escapePrefixSuffixSpecialChars_escapeEvery.
  destruct (ToSpannerSQL_equality_clause _ _ _ _ _ _ _ _ Hf Hc Hres Hign Hok)
    as (mapped & op & fl & v0 & Hmap' & _ & Hmatch & Hps & Hin).
  rewrite Hmap in Hmap'. injection Hmap' as <-.
  rewrite prefixSuffixMatch_both in Hmatch by done.
  injection Hmatch as <- <- <-. done.
Qed.

End SpannerWildcards.

(** ** The panic of the rewrite, the array operators, the empty filter *)

Section SpannerEdges.
Context `{GoRuntime}.

Lemma single_star (s : string) :
  HasSuffix s "*" = true -> String.length s <= 1 -> s = "*".
Proof.
  destruct s as [|c [|c' s']]; simpl.
  - done.
  - unfold HasSuffix. simpl. intros Heq _.
    destruct (Ascii.eqb_spec c "*") as [Hc|Hc]; [by rewrite Hc | done].
  - lia.
Qed.

Lemma escape_length_ge (s : string) :
  String.length s <= String.length (escapePrefixSuffixSpecialChars s).
Proof.
  rewrite escapePrefixSuffixSpecialChars_escapeEvery, escapeEvery_length. lia.
Qed.

Lemma sliceString_panic (s : string) (lo hi : Z) (p : string) :
  sliceString s lo hi = Panic p ->
  ~ (0 <= lo <= hi /\ hi <= Z.of_nat (String.length s))%Z.
Proof.
  unfold sliceString. destruct (_ && _ && _) eqn:Hb; [done|]. intros _ Hr.
  apply not_true_iff_false in Hb. apply Hb.
  rewrite !andb_true_iff, !Z.leb_le. lia.
Qed.

(** X23: the wildcard rewrite panics (slice bounds out of range) exactly on
    the string of one star under a config that allows both prefix and suffix
    match; on every other value it returns. *)
Theorem X23_rewrite_panics_on_single_star (fieldConfig : FilterToSpannerFieldConfig)
    (operator : string) (v : Value) :
  (exists p, prefixSuffixMatch fieldConfig operator v = Panic p)
  <-> v = VString "*"
      /\ AllowPrefixMatch fieldConfig = true
      /\ AllowSuffixMatch fieldConfig = true.
Proof.
  split.
  - intros [p Hp]. unfold prefixSuffixMatch in Hp. destruct v; try done.
    destruct (AllowPrefixMatch fieldConfig && HasSuffix s "*"
              && negb (HasSuffix s "\*")) eqn:Hpre;
      destruct (AllowSuffixMatch fieldConfig && HasPrefix s "*") eqn:Hsuf;
      cbn [andb] in Hp; try done.
    + apply andb_true_iff in Hpre as [[Hflag Hsuffix]%andb_true_iff _].
      apply andb_true_iff in Hsuf as [Hflag' Hprefix].
      destruct (sliceString _ 1 _) as [?|?|p'] eqn:Hslice; simpl in Hp; try done.
      apply sliceString_panic in Hslice.
      pose proof (escape_length_ge s) as Hge.
      pose proof (HasSuffix_length _ _ Hsuffix) as Hone. simpl in Hone.
      assert (String.length s <= 1) as Hlen by lia.
      by rewrite (single_star s Hsuffix Hlen).
    + apply andb_true_iff in Hpre as [[_ Hsuffix]%andb_true_iff _].
      destruct (sliceString _ 0 _) as [?|?|p'] eqn:Hslice; simpl in Hp; try done.
      apply sliceString_panic in Hslice.
      pose proof (escape_length_ge s) as Hge.
      pose proof (HasSuffix_length _ _ Hsuffix) as Hone. simpl in Hone. lia.
    + apply andb_true_iff in Hsuf as [_ Hprefix].
      destruct (sliceString _ 1 _) as [?|?|p'] eqn:Hslice; simpl in Hp; try done.
      apply sliceString_panic in Hslice.
      pose proof (escape_length_ge s) as Hge.
      pose proof (HasPrefix_length _ _ Hprefix) as Hone. simpl in Hone. lia.
  - intros (-> & Hp & Hs). unfold prefixSuffixMatch. rewrite Hp, Hs. by eexists.
Qed.

Lemma clauseCondition_array (fieldConfig : FilterToSpannerFieldConfig) (clause : Clause)
    (paramName : string) :
  Operator clause = "<@" \/ Operator clause = ">@" ->
  clauseCondition fieldConfig clause paramName
  = match mapValues fieldConfig (Values clause) with
    | Ok mapped =>
        arr ← arrayParameter fieldConfig (Operator clause) mapped;
        if String.eqb (Operator clause) "<@" then
          if negb (AllowContainedBy fieldConfig)
          then Err ("operator <@ not supported for field: " +:+ Field clause)
          else Ok (["ARRAY_LENGTH(" +:+ columnNameOf fieldConfig clause
                    +:+ ") = ARRAY_LENGTH(ARRAY(SELECT x FROM UNNEST("
                    +:+ columnNameOf fieldConfig clause
                    +:+ ") AS x WHERE x IN UNNEST(@" +:+ paramName +:+ ")))"], arr)
        else
          if negb (AllowContains fieldConfig)
          then Err ("operator >@ not supported for field: " +:+ Field clause)
          else Ok (["ARRAY_LENGTH(ARRAY(SELECT x FROM UNNEST(@" +:+ paramName
                    +:+ ") AS x WHERE x IN UNNEST(" +:+ columnNameOf fieldConfig clause
                    +:+ "))) = ARRAY_LENGTH(@" +:+ paramName +:+ ")"], arr)
    | Err err => Err ("field " +:+ Field clause +:+ ": " +:+ err)
    | Panic p => Panic p
    end.
Proof.
  intros Hop. unfold clauseCondition.
  destruct (mapValues fieldConfig (Values clause)) as [mapped|e|p]; try done.
  destruct Hop as [-> | ->]; unfold Contains; simpl; rewrite andb_false_r; done.
Qed.

(** X24: a clause with [<@] is lowered only on a config with
    allow_contained_by, a clause with [>@] only on one with allow_contains;
    the condition compares array lengths as the source writes it, and the
    placeholder is bound to the array of the first occurrences, under [==],
    of the clause's mapped and coerced values: no two of its elements are
    equal under [==], and for strings and integers it has no duplicates. *)
Theorem X24_array_operators (f : Filter) (fieldConfigs : FieldConfigs)
    (conds : list string) (ps : gmap string Value) (pre post : list Clause) (c : Clause)
    (fieldConfig : FilterToSpannerFieldConfig) :
  Clauses f = pre ++ c :: post ->
  Operator c = "<@" \/ Operator c = ">@" ->
  resolveFieldConfig fieldConfigs c = Ok fieldConfig ->
  Ignore fieldConfig = false ->
  ToSpannerSQL f fieldConfigs = Ok (conds, ps) ->
  let P := paramNameOf (placeholderIndex fieldConfigs pre) in
  let col := columnNameOf fieldConfig c in
  (exists mapped arr,
     mapValues fieldConfig (Values c) = Ok mapped
     /\ arrayParameter fieldConfig (Operator c) mapped = Ok arr
     /\ ps !! P = Some arr
     /\ deduplicatedArray fieldConfig (Values c) arr)
  /\ (Operator c = "<@" ->
      AllowContainedBy fieldConfig = true
      /\ ("ARRAY_LENGTH(" +:+ col +:+ ") = ARRAY_LENGTH(ARRAY(SELECT x FROM UNNEST("
          +:+ col +:+ ") AS x WHERE x IN UNNEST(@" +:+ P +:+ ")))") ∈ conds)
  /\ (Operator c = ">@" ->
      AllowContains fieldConfig = true
      /\ ("ARRAY_LENGTH(ARRAY(SELECT x FROM UNNEST(@" +:+ P
          +:+ ") AS x WHERE x IN UNNEST(" +:+ col +:+ "))) = ARRAY_LENGTH(@"
          +:+ P +:+ ")") ∈ conds).
Proof.
  intros Hf Hop Hres Hign Hok P col.
  destruct (ToSpannerSQL_lowered_clause _ _ _ _ _ _ _ _ Hf Hok Hres Hign)
    as (newConds & v & Hcond & Hps & Hin & _).
  fold P in Hcond, Hps. rewrite clauseCondition_array in Hcond by done.
  destruct (mapValues fieldConfig (Values c)) as [mapped|e|p] eqn:Hmap; try done.
  destruct (arrayParameter fieldConfig (Operator c) mapped) as [arr|e|p] eqn:Harr;
    simpl in Hcond; try done.
  pose proof (arrayParameter_deduplicated _ _ _ _ _ Hmap Harr) as Hded.
  destruct Hop as [Hop | Hop]; rewrite Hop in Hcond; simpl in Hcond.
  - destruct (AllowContainedBy fieldConfig); [|done]. simpl in Hcond.
    injection Hcond as <- <-.
    split; [by exists mapped, arr|]. split; [|by rewrite Hop].
    intros _. split; [done|]. apply Hin. constructor.
  - destruct (AllowContains fieldConfig); [|done]. simpl in Hcond.
    injection Hcond as <- <-.
    split; [by exists mapped, arr|]. split; [by rewrite Hop|].
    intros _. split; [done|]. apply Hin. constructor.
Qed.

(** X25: on the empty filter the call returns no condition and no parameter,
    unless some config is marked required: then it fails for the first such
    config in the order of iteration. *)
Theorem X25_empty_filter (fieldConfigs : FieldConfigs) :
  ToSpannerSQL (mkFilter []) fieldConfigs
  = match List.find (fun entry => Required (snd entry)) fieldConfigs with
    | Some (field, _) => Err ("required field " +:+ field +:+ " missing")
    | None => Ok ([], ∅)
    end.
Proof.
  unfold ToSpannerSQL. simpl.
  induction fieldConfigs as [|[k fc] rest IH]; simpl; [done|].
  destruct (Required fc); simpl; [done|].
  destruct (checkRequired rest (mkFilter [])) as [[]|?|?];
    destruct (List.find _ rest) as [[k' fc']|]; simpl in *; congruence.
Qed.

End SpannerEdges.

(** ** The order of the config map *)

Section SpannerOrder.
Context `{GoRuntime}.

Lemma lookupFieldConfig_elem_of (fieldConfigs : FieldConfigs) (field : string)
    (fieldConfig : FilterToSpannerFieldConfig) :
  lookupFieldConfig fieldConfigs field = Some fieldConfig ->
  (field, fieldConfig) ∈ fieldConfigs.
Proof.
  induction fieldConfigs as [|[k fc] rest IH]; simpl; [done|].
  destruct (String.eqb_spec k field) as [->|Hne].
  - intros [= ->]. by left.
  - intros Hin. right. by apply IH.
Qed.

Lemma lookupFieldConfig_of_elem (fieldConfigs : FieldConfigs) (field : string)
    (fieldConfig : FilterToSpannerFieldConfig) :
  NoDup fieldConfigs.*1 ->
  (field, fieldConfig) ∈ fieldConfigs ->
  lookupFieldConfig fieldConfigs field = Some fieldConfig.
Proof.
  induction fieldConfigs as [|[k fc] rest IH]; simpl.
  - intros _ Hin. by apply elem_of_nil in Hin.
  - intros [Hk Hnd]%NoDup_cons [[= -> ->] | Hin]%elem_of_cons.
    + by rewrite String.eqb_refl.
    + destruct (String.eqb_spec k field) as [->|Hne]; [|by apply IH].
      destruct Hk. apply list_elem_of_fmap. by exists (field, fieldConfig).
Qed.

Lemma lookupFieldConfig_None (fieldConfigs : FieldConfigs) (field : string) :
  lookupFieldConfig fieldConfigs field = None <-> field ∉ fieldConfigs.*1.
Proof.
  induction fieldConfigs as [|[k fc] rest IH]; simpl.
  - split; [|done]. intros _ Hin. by apply elem_of_nil in Hin.
  - rewrite not_elem_of_cons.
    destruct (String.eqb_spec k field) as [->|Hne]; [by split; [|intros []]|].
    rewrite IH. split; [by split | by intros []].
Qed.

Lemma lookupFieldConfig_perm (fieldConfigs fieldConfigs' : FieldConfigs) (field : string) :
  fieldConfigs ≡ₚ fieldConfigs' ->
  NoDup fieldConfigs.*1 ->
  lookupFieldConfig fieldConfigs field = lookupFieldConfig fieldConfigs' field.
Proof.
  intros Hperm Hnd.
  destruct (lookupFieldConfig fieldConfigs field) as [fc|] eqn:Hl; symmetry.
  - apply lookupFieldConfig_of_elem; [by rewrite <- Hperm|].
    rewrite <- Hperm. by apply lookupFieldConfig_elem_of.
  - apply lookupFieldConfig_None. rewrite <- Hperm. by apply lookupFieldConfig_None.
Qed.

Lemma alias_test (aliases : list string) (field : string) :
  existsb (fun alias => String.eqb alias field) aliases = true <-> field ∈ aliases.
Proof.
  rewrite existsb_exists. split.
  - intros (a & Ha%list_elem_of_In & ->%String.eqb_eq). done.
  - intros Hin. exists field. split; [by apply list_elem_of_In | apply String.eqb_refl].
Qed.

Lemma lookupAlias_Some (fieldConfigs : FieldConfigs) (field : string)
    (fieldConfig : FilterToSpannerFieldConfig) :
  lookupAlias fieldConfigs field = Some fieldConfig ->
  exists k, (k, fieldConfig) ∈ fieldConfigs /\ field ∈ Aliases fieldConfig.
Proof.
  induction fieldConfigs as [|[k fc] rest IH]; simpl; [done|].
  destruct (existsb _ (Aliases fc)) eqn:Hex.
  - intros [= ->]. exists k. split; [by left | by apply alias_test].
  - intros (k' & Hin & Ha)%IH. exists k'. split; [by right | done].
Qed.

Lemma lookupAlias_None (fieldConfigs : FieldConfigs) (field : string) :
  lookupAlias fieldConfigs field = None
  <-> forall entry, entry ∈ fieldConfigs -> field ∉ Aliases (snd entry).
Proof.
  induction fieldConfigs as [|[k fc] rest IH]; simpl.
  - split; [|done]. intros _ e He. by apply elem_of_nil in He.
  - destruct (existsb _ (Aliases fc)) eqn:Hex.
    + split; [done|]. intros Hall. apply alias_test in Hex.
      by destruct (Hall (k, fc) ltac:(by left)).
    + rewrite IH. split.
      * intros Hall e [-> | He]%elem_of_cons; [|by apply Hall].
        simpl. intros Ha%alias_test. congruence.
      * intros Hall e He. apply Hall. by right.
Qed.

Lemma lookupAlias_perm (fieldConfigs fieldConfigs' : FieldConfigs) (field : string) :
  fieldConfigs ≡ₚ fieldConfigs' ->
  uniqueAliases fieldConfigs ->
  lookupAlias fieldConfigs field = lookupAlias fieldConfigs' field.
Proof.
  intros Hperm Huniq.
  destruct (lookupAlias fieldConfigs field) as [fc|] eqn:Hl;
    destruct (lookupAlias fieldConfigs' field) as [fc'|] eqn:Hl'; try done.
  - apply lookupAlias_Some in Hl as (k & Hin & Ha).
    apply lookupAlias_Some in Hl' as (k' & Hin' & Ha'). rewrite <- Hperm in Hin'.
    f_equal. exact (Huniq (k, fc) (k', fc') field Hin Hin' Ha Ha').
  - apply lookupAlias_Some in Hl as (k & Hin & Ha). rewrite Hperm in Hin.
    by destruct (proj1 (lookupAlias_None _ _) Hl' (k, fc) Hin).
  - apply lookupAlias_Some in Hl' as (k & Hin & Ha). rewrite <- Hperm in Hin.
    by destruct (proj1 (lookupAlias_None _ _) Hl (k, fc') Hin).
Qed.

Lemma ToSpannerSQL_loop_perm (fieldConfigs fieldConfigs' : FieldConfigs) (f : Filter)
    (clauses : list Clause) (st : LoopState) :
  fieldConfigs ≡ₚ fieldConfigs' ->
  NoDup fieldConfigs.*1 ->
  uniqueAliases fieldConfigs ->
  ToSpannerSQL_loop fieldConfigs f clauses st = ToSpannerSQL_loop fieldConfigs' f clauses st.
Proof.
  intros Hperm Hnd Huniq. revert st.
  induction clauses as [|c rest IH]; intros st; simpl; [done|].
  assert (ToSpannerSQL_clause fieldConfigs f st c
          = ToSpannerSQL_clause fieldConfigs' f st c) as ->.
  { unfold ToSpannerSQL_clause, resolveFieldConfig.
    by rewrite (lookupFieldConfig_perm _ _ _ Hperm Hnd),
               (lookupAlias_perm _ _ _ Hperm Huniq). }
  destruct (ToSpannerSQL_clause fieldConfigs' f st c); simpl; auto.
Qed.

(** X26: the order in which the entries of the config map are visited does
    not change a successful result, when no field name is an alias of two
    different configs (the keys of a map are distinct). *)
Theorem X26_config_order_irrelevant (fieldConfigs fieldConfigs' : FieldConfigs)
    (f : Filter) (r : list string * gmap string Value) :
  fieldConfigs ≡ₚ fieldConfigs' ->
  NoDup fieldConfigs.*1 ->
  uniqueAliases fieldConfigs ->
  ToSpannerSQL f fieldConfigs = Ok r ->
  ToSpannerSQL f fieldConfigs' = Ok r.
Proof.
  intros Hperm Hnd Huniq. unfold ToSpannerSQL.
  rewrite <- (ToSpannerSQL_loop_perm _ _ _ _ _ Hperm Hnd Huniq).
  destruct (ToSpannerSQL_loop fieldConfigs f _ _) as [st|?|?]; simpl; try done.
  destruct (checkRequired fieldConfigs f) as [[]|?|?] eqn:Hreq; simpl; try done.
  assert (checkRequired fieldConfigs' f = Ok tt) as ->; [|done].
  apply checkRequired_ok. intros field fc Hin.
  rewrite <- Hperm in Hin. revert field fc Hin. by apply checkRequired_ok.
Qed.

End SpannerOrder.

(** ** The boolean-query lowering, further *)

Section ElasticMore.
Context `{GoRuntime}.
Import elastic.

(** X27: with a value mapper that hands every value back as it is, as the
    default mapper does, [ConvertAST] leaves the AST as it was, whether it
    succeeds or fails. *)
Theorem X27_ConvertAST_unchanged_without_value_mapping (q : QueryGenerator) (root : Node) :
  (forall id v, fst (mapFieldValue q id v) = v) ->
  fst (ConvertAST q root) = root.
Proof. intros Hid. by apply convertNodeToQuery_unchanged. Qed.

Lemma convertChildren_ok (convert : Node -> Node * Result Query)
    (children : list Node) (clauses r : list Query) :
  snd (convertChildren convert children clauses) = Ok r
  <-> exists qs, r = clauses ++ qs
        /\ Forall2 (fun child cq => snd (convert child) = Ok cq) children qs.
Proof.
  revert clauses. induction children as [|x l IH]; intros clauses; simpl.
  - split.
    + intros [= <-]. exists []. by rewrite app_nil_r.
    + intros (qs & -> & Hall). inversion Hall. by rewrite app_nil_r.
  - destruct (convert x) as [x' [cq|e|p]] eqn:Hx; simpl.
    + specialize (IH (clauses ++ [cq])).
      destruct (convertChildren convert l (clauses ++ [cq])) as [l' r']. simpl in *.
      rewrite IH. split.
      * intros (qs & -> & Hall). exists (cq :: qs). rewrite <- app_assoc.
        split; [done|]. constructor; [by rewrite Hx | done].
      * intros (qs & -> & Hall). inversion Hall as [|? cq' ? qs' Hcq Hrest]; subst.
        rewrite Hx in Hcq. simpl in Hcq. injection Hcq as <-.
        exists qs'. by rewrite <- app_assoc.
    + split; [done|]. intros (qs & _ & Hall). inversion Hall as [|? ? ? ? Hcq]; subst.
      by rewrite Hx in Hcq.
    + split; [done|]. intros (qs & _ & Hall). inversion Hall as [|? ? ? ? Hcq]; subst.
      by rewrite Hx in Hcq.
Qed.

Lemma convertChildren_ok_nil (convert : Node -> Node * Result Query)
    (children : list Node) (r : list Query) :
  snd (convertChildren convert children []) = Ok r
  <-> Forall2 (fun child cq => snd (convert child) = Ok cq) children r.
Proof.
  rewrite convertChildren_ok. split.
  - by intros (qs & -> & Hall).
  - intros Hall. by exists r.
Qed.

(** X28: an and-node lowers to a [bool] query whose [must] holds the queries
    of its children, an or-node to one whose [should] holds them, child after
    child; the node lowers exactly when each child, lowered on its own with
    the same prefix, does. *)
Theorem X28_and_or_lower_child_by_child (q : QueryGenerator) (nodes : list Node)
    (prefix : string) (query : Query) :
  (snd (convertNodeToQuery q (AndNode nodes) prefix) = Ok query
   <-> exists qs, query = Bool qs [] []
         /\ Forall2 (fun child cq => snd (convertNodeToQuery q child prefix) = Ok cq)
                    nodes qs)
  /\ (snd (convertNodeToQuery q (OrNode nodes) prefix) = Ok query
      <-> exists qs, query = Bool [] qs []
            /\ Forall2 (fun child cq => snd (convertNodeToQuery q child prefix) = Ok cq)
                       nodes qs).
Proof.
  split; simpl;
    pose proof (convertChildren_ok_nil
                  (fun child => convertNodeToQuery q child prefix) nodes) as Hc;
    destruct (convertChildren _ nodes []) as [nodes' [r|e|p]]; simpl in *.
  1,4: split;
    [ intros [= <-]; exists r; split; [done | by apply Hc]
    | intros (qs & -> & Hall); by apply Hc in Hall as [= ->] ].
  all: split; [done|]; intros (qs & _ & Hall); by apply Hc in Hall.
Qed.

Lemma convertOrValues_literals (q : QueryGenerator) (id : string) (values vals : list string) :
  Forall (fun v => snd (mapFieldValue q id v) = None) values ->
  snd (convertOrValues q id (LiteralNode <$> values) vals)
  = Ok (vals ++ ((fun v => fst (mapFieldValue q id v)) <$> values)).
Proof.
  intros Hall. revert vals.
  induction Hall as [|v rest Hv _ IH]; intros vals; simpl.
  - by rewrite app_nil_r.
  - destruct (mapFieldValue q id v) as [v' err]. simpl in *. subst err.
    specialize (IH (vals ++ [v'])). simpl in IH.
    destruct (convertOrValues q id _ (vals ++ [v'])) as [rest' r].
    simpl in *. by rewrite IH, <- app_assoc.
Qed.

(** X29: a field with a list of literal values lowers to a [terms] query on
    the mapped field name that lists the mapped values in the order of the
    list, when the name mapper accepts the name and the value mapper every
    value. *)
Theorem X29_value_list_lowers_to_terms (q : QueryGenerator) (identifier prefix id : string)
    (values : list string) :
  mapFieldName q (prefix +:+ identifier) = (id, None) ->
  Forall (fun v => snd (mapFieldValue q id v) = None) values ->
  snd (convertNodeToQuery q (IsNode identifier (OrNode (LiteralNode <$> values))) prefix)
  = Ok (Terms id ((fun v => fst (mapFieldValue q id v)) <$> values)).
Proof.
  intros Hname Hall. simpl. rewrite Hname.
  pose proof (convertOrValues_literals q id values [] Hall) as Hv.
  destruct (convertOrValues q id (LiteralNode <$> values) []) as [children r].
  simpl in *. by rewrite Hv.
Qed.

End ElasticMore.

(** ** Nested fields *)

Section ElasticNested.
Context `{GoRuntime}.
Import elastic.

Lemma convertNodeToQuery_is_name (q : QueryGenerator) (p1 id1 p2 id2 : string) (v : Node) :
  p1 +:+ id1 = p2 +:+ id2 ->
  snd (convertNodeToQuery q (IsNode id1 v) p1) = snd (convertNodeToQuery q (IsNode id2 v) p2).
Proof.
  intros Hname. simpl. rewrite Hname.
  destruct (mapFieldName q (p2 +:+ id2)) as [id [e|]]; [done|].
  destruct v as [| lit | | | | nodes | | expr]; simpl; try done.
  - by destruct (mapFieldValue q id lit).
  - by destruct (convertOrValues q id nodes []).
  - by destruct (convertNodeToQuery q expr (id +:+ ".")).
Qed.

Lemma convertNodeToQuery_range_name (q : QueryGenerator) (p1 id1 p2 id2 : string)
    (op : RangeOperator) (v : Node) :
  p1 +:+ id1 = p2 +:+ id2 ->
  snd (convertNodeToQuery q (RangeNode id1 op v) p1)
  = snd (convertNodeToQuery q (RangeNode id2 op v) p2).
Proof.
  intros Hname. simpl. rewrite Hname.
  destruct (mapFieldName q (p2 +:+ id2)) as [id [e|]]; [done|].
  destruct v as [| lit | | | | | |]; simpl; try done.
  by destruct (mapFieldValue q id lit).
Qed.

Lemma convertNodeToQuery_nested (q : QueryGenerator) (x : string) (expr : Node)
    (prefix id : string) :
  mapFieldName q (prefix +:+ x) = (id, None) ->
  snd (convertNodeToQuery q (IsNode x (NestedNode expr)) prefix)
  = snd (convertNodeToQuery q expr (id +:+ ".")).
Proof.
  intros Hname. simpl. rewrite Hname.
  by destruct (convertNodeToQuery q expr (id +:+ ".")).
Qed.

(** X30: when the name mapper leaves the name of the outer field as it is,
    [x:{y:v}] lowers to the query of [x.y:v], and [x:{y>=v}] to the query of
    [x.y>=v], errors included. *)
Theorem X30_nested_field_is_dotted_name (q : QueryGenerator) (x y prefix : string)
    (op : RangeOperator) (v : Node) :
  mapFieldName q (prefix +:+ x) = (prefix +:+ x, None) ->
  snd (convertNodeToQuery q (IsNode x (NestedNode (IsNode y v))) prefix)
  = snd (convertNodeToQuery q (IsNode (x +:+ "." +:+ y) v) prefix)
  /\ snd (convertNodeToQuery q (IsNode x (NestedNode (RangeNode y op v))) prefix)
     = snd (convertNodeToQuery q (RangeNode (x +:+ "." +:+ y) op v) prefix).
Proof.
  intros Hname.
  assert (((prefix +:+ x) +:+ ".") +:+ y = prefix +:+ (x +:+ "." +:+ y)) as Hassoc
    by (by rewrite !string_app_assoc).
  split.
  - rewrite (convertNodeToQuery_nested q x (IsNode y v) prefix _ Hname).
    by apply convertNodeToQuery_is_name.
  - rewrite (convertNodeToQuery_nested q x (RangeNode y op v) prefix _ Hname).
    by apply convertNodeToQuery_range_name.
Qed.

End ElasticNested.

(** ** Instances of the further properties *)

Section FurtherExamples.
Existing Instance exampleRuntime.
Import elastic.

(** A clause with an operator the switch does not know binds its placeholder
    and appends no condition. *)
Lemma X8_ToSpannerSQL_keys_of_lowered_clauses_witness :
  let f := mkFilter [mkClause "userId" "~" ["12345"];
                     mkClause "password" "=" ["qwertyuiop"];
                     mkClause "1" "=" ["1"]] in
  let fieldConfigs := [("userId", plainColumn FilterToSpannerFieldColumnTypeInt64);
                       ("password", ignoredColumn)] in
  let ps : gmap string Value := <["KQL1" := VInt64 1]> (<["KQL0" := VInt64 12345]> ∅) in
  ToSpannerSQL f fieldConfigs = Ok (["1=@KQL1"], ps)
  /\ dom ps = list_to_set (paramNameOf <$> seq 0 2)
  /\ size ps = 2.
Proof.
  intros f fieldConfigs ps.
  assert (ToSpannerSQL f fieldConfigs = Ok (["1=@KQL1"], ps)) as Hok by reflexivity.
  split; [exact Hok|].
  destruct (X8_ToSpannerSQL_keys_of_lowered_clauses f fieldConfigs _ _ Hok)
    as (Hdom & Hsize & _).
  split; [exact Hdom | exact Hsize].
Defined.

Lemma X9_project_then_lower_witness :
  let ast := AndNode [IsNode "userId" (LiteralNode "12345");
                      RangeNode "age" RangeOperatorGte (LiteralNode "18")] in
  let f := mkFilter [mkClause "userId" "=" ["12345"]; mkClause "age" ">=" ["18"]] in
  let fieldConfigs := [("userId", plainColumn FilterToSpannerFieldColumnTypeInt64);
                       ("age", rangesColumn FilterToSpannerFieldColumnTypeInt64)] in
  let ps : gmap string Value := <["KQL1" := VInt64 18]> (<["KQL0" := VInt64 12345]> ∅) in
  convertToFilter ast = Ok f
  /\ ToSpannerSQL f fieldConfigs = Ok (["userId=@KQL0"; "age>=@KQL1"], ps)
  /\ size ps = 2.
Proof.
  intros ast f fieldConfigs ps.
  assert (convertToFilter ast = Ok f) as Hproj by reflexivity.
  assert (ToSpannerSQL f fieldConfigs = Ok (["userId=@KQL0"; "age>=@KQL1"], ps)) as Hok
    by reflexivity.
  split; [exact Hproj|]. split; [exact Hok|].
  exact (proj1 (X9_project_then_lower ast f fieldConfigs _ _ Hproj Hok)).
Defined.

Lemma X14_mapValues_typed_witness :
  valueOfColumnType FilterToSpannerFieldColumnTypeInt64 (VInt64 12345) = true
  /\ isSliceValue (VInt64 12345) = false.
Proof.
  exact (X14_mapValues_typed (plainColumn FilterToSpannerFieldColumnTypeInt64)
           ["12345"] (VInt64 12345) eq_refl eq_refl).
Defined.

(** The clause on the alias [uid] does what the clause on the key [userId]
    does. *)
Lemma X15_alias_same_condition_witness :
  ToSpannerSQL_clause [("userId", aliasedColumn)]
    (mkFilter [mkClause "uid" "=" ["12345"]]) (mkLoopState [] ∅ 0)
    (mkClause "uid" "=" ["12345"])
  = Ok (mkLoopState ["user_id=@KQL0"] (<["KQL0" := VInt64 12345]> ∅) 1).
Proof.
  refine (X15_alias_same_condition [("userId", aliasedColumn)]
            (mkFilter [mkClause "uid" "=" ["12345"]]) (mkLoopState [] ∅ 0)
            (mkLoopState ["user_id=@KQL0"] (<["KQL0" := VInt64 12345]> ∅) 1)
            (mkClause "userId" "=" ["12345"]) (mkClause "uid" "=" ["12345"])
            aliasedColumn eq_refl eq_refl _ eq_refl eq_refl eq_refl).
  discriminate.
Defined.

(** The required config [tenant] is reached through its alias. *)
Lemma X16_required_fields_present_witness :
  exists c, c ∈ [mkClause "tenant_id" "=" ["t1"]]
    /\ (Field c = "tenant" \/ Field c ∈ ["tenant_id"]).
Proof.
  refine (X16_required_fields_present
            (mkFilter [mkClause "tenant_id" "=" ["t1"]]) [("tenant", requiredColumn)]
            ["tenant_id=@KQL0"] (<["KQL0" := VString "t1"]> ∅)
            "tenant" requiredColumn eq_refl _ eq_refl).
  constructor.
Defined.

Lemma X17_requires_companions_present_witness :
  exists c', c' ∈ [mkClause "name" "=" ["a"]; mkClause "tenant" "=" ["t1"]]
    /\ (Field c' = "tenant" \/ Field c' ∈ []).
Proof.
  refine (X17_requires_companions_present
            (mkFilter [mkClause "name" "=" ["a"]; mkClause "tenant" "=" ["t1"]])
            [("name", requiringColumn ["tenant"]);
             ("tenant", plainColumn FilterToSpannerFieldColumnTypeString)]
            ["name=@KQL0"; "tenant=@KQL1"]
            (<["KQL1" := VString "t1"]> (<["KQL0" := VString "a"]> ∅))
            [] [mkClause "tenant" "=" ["t1"]] (mkClause "name" "=" ["a"])
            (requiringColumn ["tenant"]) "tenant" eq_refl eq_refl eq_refl eq_refl _).
  constructor.
Defined.

Lemma X18_negation_witness :
  "name!=@KQL0" ∈ ["name!=@KQL0"]
  /\ ToSpannerSQL (mkFilter [mkClause "name" "!=" ["a"]])
       [("name", plainColumn FilterToSpannerFieldColumnTypeString)]
     = Err "operator != not supported for field: name".
Proof.
  split.
  - destruct (proj1 (X18_negation (mkFilter [mkClause "name" "!=" ["a"]])
                       [("name", negationColumn)] [] [] (mkClause "name" "!=" ["a"])
                       negationColumn eq_refl eq_refl eq_refl eq_refl)
                ["name!=@KQL0"] (<["KQL0" := VString "a"]> ∅) eq_refl) as [_ Hcond].
    exact (proj1 (Hcond eq_refl eq_refl)).
  - exact (proj2 (X18_negation (mkFilter [mkClause "name" "!=" ["a"]])
                    [("name", plainColumn FilterToSpannerFieldColumnTypeString)]
                    [] [] (mkClause "name" "!=" ["a"])
                    (plainColumn FilterToSpannerFieldColumnTypeString)
                    eq_refl eq_refl eq_refl eq_refl)
             eq_refl (mkLoopState [] ∅ 0) (VString "a") eq_refl eq_refl eq_refl
             (le_n 1)).
Defined.

(** The config looks for a trailing star only; the value has a leading one. *)
Lemma X19_plain_comparison_witness :
  let ps : gmap string Value := <["KQL0" := VString "*a%b"]> ∅ in
  "name=@KQL0" ∈ ["name=@KQL0"] /\ ps !! "KQL0" = Some (VString "*a%b").
Proof.
  intros ps.
  refine (X19_plain_comparison (mkFilter [mkClause "name" "=" ["*a%b"]])
            [("name", prefixMatchColumn)] ["name=@KQL0"] ps
            [] [] (mkClause "name" "=" ["*a%b"]) prefixMatchColumn (VString "*a%b")
            eq_refl eq_refl eq_refl eq_refl eq_refl _ eq_refl).
  intros s [= <-]. split; reflexivity.
Defined.

Lemma X20_prefix_rewrite_witness :
  let ps : gmap string Value := <["KQL0" := VString "50\%%"]> ∅ in
  "name LIKE @KQL0" ∈ ["name LIKE @KQL0"] /\ ps !! "KQL0" = Some (VString "50\%%").
Proof.
  intros ps.
  exact (X20_prefix_rewrite (mkFilter [mkClause "name" "=" ["50%*"]])
           [("name", prefixMatchColumn)] ["name LIKE @KQL0"] ps
           [] [] (mkClause "name" "=" ["50%*"]) prefixMatchColumn "50%"
           eq_refl eq_refl eq_refl eq_refl eq_refl eq_refl eq_refl eq_refl).
Defined.

Lemma X21_suffix_rewrite_witness :
  let ps : gmap string Value := <["KQL0" := VString "%\_x"]> ∅ in
  "name LIKE @KQL0" ∈ ["name LIKE @KQL0"] /\ ps !! "KQL0" = Some (VString "%\_x").
Proof.
  intros ps.
  exact (X21_suffix_rewrite (mkFilter [mkClause "name" "=" ["*_x"]])
           [("name", suffixMatchColumn)] ["name LIKE @KQL0"] ps
           [] [] (mkClause "name" "=" ["*_x"]) suffixMatchColumn "_x"
           eq_refl eq_refl eq_refl eq_refl eq_refl eq_refl eq_refl eq_refl).
Defined.

Lemma X22_prefix_and_suffix_rewrite_witness :
  let ps : gmap string Value := <["KQL0" := VString "%a\_b%"]> ∅ in
  "name LIKE @KQL0" ∈ ["name LIKE @KQL0"] /\ ps !! "KQL0" = Some (VString "%a\_b%").
Proof.
  intros ps.
  exact (X22_prefix_and_suffix_rewrite (mkFilter [mkClause "name" "=" ["*a_b*"]])
           [("name", prefixSuffixMatchColumn)] ["name LIKE @KQL0"] ps
           [] [] (mkClause "name" "=" ["*a_b*"]) prefixSuffixMatchColumn "a_b"
           eq_refl eq_refl eq_refl eq_refl eq_refl eq_refl eq_refl eq_refl).
Defined.

Lemma X24_array_operators_witness :
  let ps : gmap string Value := <["KQL0" := VStrings ["a"; "b"]]> ∅ in
  (exists mapped arr,
     mapValues arrayColumn ["a"; "b"; "a"] = Ok mapped
     /\ arrayParameter arrayColumn "<@" mapped = Ok arr
     /\ ps !! "KQL0" = Some arr
     /\ deduplicatedArray arrayColumn ["a"; "b"; "a"] arr)
  /\ "ARRAY_LENGTH(tags) = ARRAY_LENGTH(ARRAY(SELECT x FROM UNNEST(tags) AS x WHERE x IN UNNEST(@KQL0)))"
     ∈ ["ARRAY_LENGTH(tags) = ARRAY_LENGTH(ARRAY(SELECT x FROM UNNEST(tags) AS x WHERE x IN UNNEST(@KQL0)))"].
Proof.
  intros ps.
  destruct (X24_array_operators (mkFilter [mkClause "tags" "<@" ["a"; "b"; "a"]])
              [("tags", arrayColumn)]
              ["ARRAY_LENGTH(tags) = ARRAY_LENGTH(ARRAY(SELECT x FROM UNNEST(tags) AS x WHERE x IN UNNEST(@KQL0)))"]
              ps [] [] (mkClause "tags" "<@" ["a"; "b"; "a"]) arrayColumn
              eq_refl (or_introl eq_refl) eq_refl eq_refl eq_refl)
    as (Hbound & Hby & _).
  split; [exact Hbound | exact (proj2 (Hby eq_refl))].
Defined.

Lemma X26_config_order_irrelevant_witness :
  ToSpannerSQL (mkFilter [mkClause "uid" "=" ["12345"]; mkClause "name" "=" ["a"]])
    [("name", plainColumn FilterToSpannerFieldColumnTypeString);
     ("userId", aliasedColumn)]
  = Ok (["user_id=@KQL0"; "name=@KQL1"],
        <["KQL1" := VString "a"]> (<["KQL0" := VInt64 12345]> ∅)).
Proof.
  refine (X26_config_order_irrelevant
            [("userId", aliasedColumn);
             ("name", plainColumn FilterToSpannerFieldColumnTypeString)]
            [("name", plainColumn FilterToSpannerFieldColumnTypeString);
             ("userId", aliasedColumn)]
            (mkFilter [mkClause "uid" "=" ["12345"]; mkClause "name" "=" ["a"]])
            _ (perm_swap _ _ _) _ _ eq_refl).
  - apply NoDup_cons_2; [|apply NoDup_cons_2; [apply not_elem_of_nil | apply NoDup_nil_2]].
    intros [Heq | Hin]%elem_of_cons; [discriminate | by apply elem_of_nil in Hin].
  - intros e1 e2 alias He1 He2 Ha1 Ha2.
    apply elem_of_cons in He1 as [-> | He1];
      [|apply elem_of_cons in He1 as [-> | He1]; [|by apply elem_of_nil in He1]];
      (apply elem_of_cons in He2 as [-> | He2];
       [|apply elem_of_cons in He2 as [-> | He2]; [|by apply elem_of_nil in He2]]);
      try reflexivity; simpl in Ha1, Ha2;
      first [by apply elem_of_nil in Ha1 | by apply elem_of_nil in Ha2].
Defined.

Lemma X27_ConvertAST_unchanged_without_value_mapping_witness :
  fst (ConvertAST NewQueryGenerator
         (AndNode [IsNode "type_id" (OrNode [LiteralNode "team"; LiteralNode "player"]);
                   RangeNode "age" RangeOperatorGte (LiteralNode "x")]))
  = AndNode [IsNode "type_id" (OrNode [LiteralNode "team"; LiteralNode "player"]);
             RangeNode "age" RangeOperatorGte (LiteralNode "x")].
Proof.
  apply X27_ConvertAST_unchanged_without_value_mapping. intros id v. reflexivity.
Defined.

Lemma X29_value_list_lowers_to_terms_witness :
  snd (convertNodeToQuery
         (mkQueryGenerator defaultFieldNameMapper uidValueMapper)
         (IsNode "user_id" (OrNode (LiteralNode <$> ["1"; "2"]))) "")
  = Ok (Terms "user_id" ["uid_1"; "uid_2"]).
Proof.
  apply (X29_value_list_lowers_to_terms
           (mkQueryGenerator defaultFieldNameMapper uidValueMapper)
           "user_id" "" "user_id" ["1"; "2"]).
  - reflexivity.
  - repeat constructor.
Defined.

Lemma X30_nested_field_is_dotted_name_witness :
  snd (convertNodeToQuery NewQueryGenerator
         (IsNode "user" (NestedNode (IsNode "name" (LiteralNode "ann")))) "")
  = snd (convertNodeToQuery NewQueryGenerator
           (IsNode "user.name" (LiteralNode "ann")) "").
Proof.
  exact (proj1 (X30_nested_field_is_dotted_name NewQueryGenerator "user" "name" ""
                  RangeOperatorGte (LiteralNode "ann") eq_refl)).
Defined.

End FurtherExamples.
